(** * WA GP bulk-billing tracker: a shallow embedding and its properties

    The development follows the three scripts of the repository

      - [wa_bulk_billing_FIXED.py]              (state electorate only),
      - [wa_bulk_billing_STATE_AND_FEDERAL.py]  (state and federal electorates),
      - [wa_bulk_billing_BETTER_ADDRESSES.py]   (five-method address extraction).

    Text is modelled as [string]: a sequence of code points below 256
    (Latin-1).  The character tables of [str.lower], [str.strip],
    [str.split] and of the [re] classes are the ones CPython uses on that
    range.  Counts and lengths are [nat]; the float arithmetic of the
    percentage is IEEE binary64 ([PrimFloat]). *)

From Stdlib Require Import List String Ascii Bool Arith PeanoNat ZArith Lia.
From Stdlib Require Import Permutation.
From Stdlib Require Import Floats DecimalString.
Import ListNotations.

Local Open Scope string_scope.
Local Open Scope list_scope.
Local Open Scope nat_scope.

(* ================================================================== *)
(** ** Python string primitives *)

(** [str.isspace] on one character; also the class [\s] of [re]. *)
Definition is_space (c : ascii) : bool :=
  let n := nat_of_ascii c in
  ((9 <=? n) && (n <=? 13)) || ((28 <=? n) && (n <=? 32))
  || (n =? 133) || (n =? 160).

(** [str.lower] on one character. *)
Definition lower_char (c : ascii) : ascii :=
  let n := nat_of_ascii c in
  if ((65 <=? n) && (n <=? 90))
     || ((192 <=? n) && (n <=? 222) && negb (n =? 215))
  then ascii_of_nat (n + 32) else c.

(** [s.lower()] *)
Fixpoint lower (s : string) : string :=
  match s with
  | EmptyString => EmptyString
  | String c s' => String (lower_char c) (lower s')
  end.

(** [s.lstrip()] *)
Fixpoint lstrip (s : string) : string :=
  match s with
  | EmptyString => EmptyString
  | String c s' => if is_space c then lstrip s' else s
  end.

(** [s.rstrip()] *)
Fixpoint rstrip (s : string) : string :=
  match s with
  | EmptyString => EmptyString
  | String c s' =>
      match rstrip s' with
      | EmptyString => if is_space c then EmptyString else String c EmptyString
      | r => String c r
      end
  end.

(** [s.strip()] *)
Definition strip (s : string) : string := rstrip (lstrip s).

(** [bool(s)]: a string is truthy when it is not empty. *)
Definition truthy (s : string) : bool :=
  match s with EmptyString => false | _ => true end.

(** [s.startswith(p)] *)
Fixpoint startswith (p s : string) : bool :=
  match p, s with
  | EmptyString, _ => true
  | String a p', String b s' => Ascii.eqb a b && startswith p' s'
  | String _ _, EmptyString => false
  end.

(** [needle in hay] *)
Fixpoint contains (needle hay : string) : bool :=
  startswith needle hay
  || match hay with
     | EmptyString => false
     | String _ hay' => contains needle hay'
     end.

(** [s.split()]: the maximal runs of characters that are not white space.
    [cur] is the word being read, if one has started. *)
Fixpoint split_from (cur : option string) (s : string) : list string :=
  match s with
  | EmptyString => match cur with Some w => [w] | None => [] end
  | String c s' =>
      if is_space c then
        match cur with
        | Some w => w :: split_from None s'
        | None => split_from None s'
        end
      else
        match cur with
        | Some w => split_from (Some (w ++ String c EmptyString)%string) s'
        | None => split_from (Some (String c EmptyString)) s'
        end
  end.

Definition split (s : string) : list string := split_from None s.

(** [sep.join(parts)] *)
Fixpoint join (sep : string) (parts : list string) : string :=
  match parts with
  | [] => EmptyString
  | [w] => w
  | w :: rest => (w ++ sep ++ join sep rest)%string
  end.

(** [' '.join(s.split())]: runs of white space become one blank. *)
Definition collapse_whitespace (s : string) : string := join " " (split s).

(** [any(ch.isdigit() for ch in s)]; on this range [str.isdigit] also
    accepts the superscripts 178, 179 and 185. *)
Definition isdigit_char (c : ascii) : bool :=
  let n := nat_of_ascii c in
  ((48 <=? n) && (n <=? 57)) || (n =? 178) || (n =? 179) || (n =? 185).

Fixpoint any_char (p : ascii -> bool) (s : string) : bool :=
  match s with
  | EmptyString => false
  | String c s' => p c || any_char p s'
  end.

(* ================================================================== *)
(** ** Regular expressions ([re])

    A backtracking matcher with the priorities of [re]: alternatives left
    to right, greedy repetitions longest first, lazy ones shortest first,
    and the leftmost starting position that matches at all.  A repetition
    gives up an iteration that consumes nothing; every repeated body of
    the patterns below consumes at least one character. *)

Definition cls := ascii -> bool.

Inductive regex : Type :=
| Eps
| Chr (p : cls)
| Seq (r1 r2 : regex)
| Alt (r1 r2 : regex)
| Rep (greedy : bool) (lo : nat) (hi : option nat) (r : regex)
| Grp (i : nat) (r : regex)
| WordBoundary.

(** The matcher's position in the subject: what is left to read, the
    index reached, the character just read and the groups closed so far. *)
Record mstate : Type := MState {
  rest : string;
  pos : nat;
  prev : option ascii;
  caps : list (nat * (nat * nat))
}.

(** The class [\w]. *)
Definition is_word (c : ascii) : bool :=
  let n := nat_of_ascii c in
  ((48 <=? n) && (n <=? 57)) || ((65 <=? n) && (n <=? 90)) || (n =? 95)
  || ((97 <=? n) && (n <=? 122))
  || (n =? 170) || (n =? 178) || (n =? 179) || (n =? 181) || (n =? 185)
  || (n =? 186) || (n =? 188) || (n =? 189) || (n =? 190)
  || ((192 <=? n) && (n <=? 214)) || ((216 <=? n) && (n <=? 246))
  || (248 <=? n).

Definition word_before (st : mstate) : bool :=
  match prev st with Some c => is_word c | None => false end.

Definition word_after (st : mstate) : bool :=
  match rest st with String c _ => is_word c | EmptyString => false end.

Definition below (n : nat) (hi : option nat) : bool :=
  match hi with Some h => n <? h | None => true end.

Definition set_cap (i from to : nat) (st : mstate) : mstate :=
  MState (rest st) (pos st) (prev st) ((i, (from, to)) :: caps st).

Fixpoint run (r : regex) (st : mstate) (k : mstate -> option mstate)
  {struct r} : option mstate :=
  match r with
  | Eps => k st
  | Chr p =>
      match rest st with
      | String c s' =>
          if p c then k (MState s' (S (pos st)) (Some c) (caps st)) else None
      | EmptyString => None
      end
  | Seq r1 r2 => run r1 st (fun st1 => run r2 st1 k)
  | Alt r1 r2 =>
      match run r1 st k with
      | Some m => Some m
      | None => run r2 st k
      end
  | Grp i r1 => run r1 st (fun st1 => k (set_cap i (pos st) (pos st1) st1))
  | WordBoundary =>
      if xorb (word_before st) (word_after st) then k st else None
  | Rep greedy lo hi r1 =>
      (fix loop (fuel n : nat) (st0 : mstate) {struct fuel} : option mstate :=
         match fuel with
         | 0 => None
         | S fuel' =>
             let again (_ : unit) :=
               if below n hi then
                 run r1 st0
                   (fun st1 =>
                      if pos st0 <? pos st1 then loop fuel' (S n) st1 else None)
               else None in
             let leave (_ : unit) := if lo <=? n then k st0 else None in
             if greedy then
               match again tt with Some m => Some m | None => leave tt end
             else
               match leave tt with Some m => Some m | None => again tt end
         end) (S (String.length (rest st))) 0 st
  end.

(** A match object: where the match starts, and the matcher's state at
    its end. *)
Record rmatch : Type := RMatch {
  m_start : nat;
  m_final : mstate
}.

Definition m_end (m : rmatch) : nat := pos (m_final m).

(** Try the pattern at the current position, then at each later one. *)
Fixpoint search_from (r : regex) (s : string) (i : nat) (pv : option ascii)
  : option rmatch :=
  match run r (MState s i pv []) Some with
  | Some st => Some (RMatch i st)
  | None =>
      match s with
      | String c s' => search_from r s' (S i) (Some c)
      | EmptyString => None
      end
  end.

(** [re.search(r, s)] *)
Definition re_search (r : regex) (s : string) : option rmatch :=
  search_from r s 0 None.

Fixpoint lookup_cap (i : nat) (l : list (nat * (nat * nat)))
  : option (nat * nat) :=
  match l with
  | [] => None
  | (j, span) :: l' => if i =? j then Some span else lookup_cap i l'
  end.

(** [m.group(i)] for a match [m] in the subject [s]; the patterns below
    close the groups they read on every match. *)
Definition group (s : string) (m : rmatch) (i : nat) : string :=
  match lookup_cap i (caps (m_final m)) with
  | Some (from, to) => substring from (to - from) s
  | None => EmptyString
  end.

(** [re.findall(r, s)] for a pattern with one group: the group of each
    match, the matches taken left to right without overlap. *)
Fixpoint findall_from (fuel : nat) (r : regex) (whole s : string) (i : nat)
  (pv : option ascii) : list string :=
  match fuel with
  | 0 => []
  | S fuel' =>
      match search_from r s i pv with
      | None => []
      | Some m =>
          let st := m_final m in
          if m_start m <? pos st then
            group whole m 1 :: findall_from fuel' r whole (rest st) (pos st) (prev st)
          else
            match rest st with
            | String c s' =>
                group whole m 1 :: findall_from fuel' r whole s' (S (pos st)) (Some c)
            | EmptyString => [group whole m 1]
            end
      end
  end.

Definition re_findall (r : regex) (s : string) : list string :=
  findall_from (S (String.length s)) r s s 0 None.

(** *** Building blocks of patterns *)

Definition Plus (r : regex) : regex := Rep true 1 None r.
Definition Star (r : regex) : regex := Rep true 0 None r.
Definition Opt (r : regex) : regex := Rep true 0 (Some 1) r.
Definition LazyPlus (r : regex) : regex := Rep false 1 None r.
Definition LazyStar (r : regex) : regex := Rep false 0 None r.
Definition Times (n : nat) (r : regex) : regex := Rep true n (Some n) r.

Fixpoint seqs (l : list regex) : regex :=
  match l with
  | [] => Eps
  | [r] => r
  | r :: l' => Seq r (seqs l')
  end.

Fixpoint alts (l : list regex) : regex :=
  match l with
  | [] => Chr (fun _ => false)
  | [r] => r
  | r :: l' => Alt r (alts l')
  end.

(** A literal, and a literal under [re.IGNORECASE]. *)
Fixpoint lit (s : string) : regex :=
  match s with
  | EmptyString => Eps
  | String c EmptyString => Chr (Ascii.eqb c)
  | String c s' => Seq (Chr (Ascii.eqb c)) (lit s')
  end.

Definition eqb_nocase (a b : ascii) : bool :=
  Ascii.eqb (lower_char a) (lower_char b).

Fixpoint liti (s : string) : regex :=
  match s with
  | EmptyString => Eps
  | String c EmptyString => Chr (eqb_nocase c)
  | String c s' => Seq (Chr (eqb_nocase c)) (liti s')
  end.

(** [\d], [[A-Z]], [[a-z]] and [.] *)
Definition is_digit (c : ascii) : bool :=
  let n := nat_of_ascii c in (48 <=? n) && (n <=? 57).
Definition is_upper (c : ascii) : bool :=
  let n := nat_of_ascii c in (65 <=? n) && (n <=? 90).
Definition is_lower (c : ascii) : bool :=
  let n := nat_of_ascii c in (97 <=? n) && (n <=? 122).
Definition is_letter (c : ascii) : bool := is_upper c || is_lower c.
Definition not_newline (c : ascii) : bool := negb (nat_of_ascii c =? 10).

(** *** The patterns of the scripts *)

Definition d4 : regex := Times 4 (Chr is_digit).
Definition ws : regex := Chr is_space.

(** [\b(\d{4})\b] *)
Definition re_postcode : regex :=
  seqs [WordBoundary; Grp 1 d4; WordBoundary].

(** [([A-Z][A-Z\s]+)\s+WA\s+\d{4}] *)
Definition re_suburb : regex :=
  seqs [Grp 1 (Seq (Chr is_upper)
                   (Plus (Chr (fun c => is_upper c || is_space c))));
        Plus ws; lit "WA"; Plus ws; d4].

(** [tel:] *)
Definition re_tel : regex := lit "tel:".

(** [\d{2}\s?\d{4}\s?\d{4}] *)
Definition phone_digits : regex :=
  seqs [Times 2 (Chr is_digit); Opt ws; d4; Opt ws; d4].

(** [(\d{2}\s?\d{4}\s?\d{4})], the state-only script. *)
Definition re_phone : regex := Grp 1 phone_digits.

Definition colon_or_space (c : ascii) : bool :=
  (nat_of_ascii c =? 58) || is_space c.

(** The pattern of the improved-address script: an optional, uncaptured
    label [Phone] with any run of colons and white space after it, then
    the group [(\d{2}\s?\d{4}\s?\d{4})]. *)
Definition re_phone_labelled : regex :=
  Seq (Opt (Seq (lit "Phone") (Star (Chr colon_or_space))))
      (Grp 1 phone_digits).

Definition street_types : list string :=
  ["Street"; "St"; "Road"; "Rd"; "Avenue"; "Ave"; "Drive"; "Dr";
   "Boulevard"; "Blvd"; "Lane"; "Ln"; "Court"; "Ct"; "Terrace"; "Tce";
   "Way"; "Highway"; "Hwy"; "Place"; "Pl"; "Crescent"; "Cres"].

(** [\d+\s+[A-Z][a-zA-Z\s]+(?:Street|St|...|Cres).*WA\s+\d{4}] under
    [re.IGNORECASE], where [[A-Z]] reads a letter of either case. *)
Definition re_street : regex :=
  seqs [Plus (Chr is_digit); Plus ws; Chr is_letter;
        Plus (Chr (fun c => is_letter c || is_space c));
        alts (map liti street_types);
        Star (Chr not_newline); liti "WA"; Plus ws; d4].

(** [Get directions|View map|Map] under [re.IGNORECASE] *)
Definition re_directions : regex :=
  alts [liti "Get directions"; liti "View map"; liti "Map"].

(** Under [re.IGNORECASE]: an optional, uncaptured label [Address] with
    any run of colons and white space after it, then the group
    [(X+WA\s+\d{4})] where [X] is any character but the middle dot, code
    point 183. *)
Definition re_address_near_link : regex :=
  Seq (Opt (Seq (liti "Address") (Star (Chr colon_or_space))))
      (Grp 1 (seqs [Plus (Chr (fun c => negb (nat_of_ascii c =? 183)));
                    liti "WA"; Plus ws; d4])).

Definition not_dot (c : ascii) : bool := negb (nat_of_ascii c =? 46).

(** [([^\.]+?\d+[^\.]*?WA\s+\d{4})] under [re.IGNORECASE] *)
Definition re_any_address : regex :=
  Grp 1 (seqs [LazyPlus (Chr not_dot); Plus (Chr is_digit);
               LazyStar (Chr not_dot); liti "WA"; Plus ws; d4]).

(* ================================================================== *)
(** ** Parsed documents ([BeautifulSoup])

    A document is the tree the parser built.  [NavigableString] is page
    text; [Special] is a string [get_text] leaves out (the content of a
    [script] or [style] element, a comment). *)

#[local] Set Warnings "-register-all".

Inductive node : Type :=
| NavigableString (s : string)
| Special (s : string)
| Tag (name : string) (attrs : list (string * string)) (children : list node).

(** The children of the document root. *)
Definition soup : Type := list node.

(** [tag.descendants]: document order. *)
Fixpoint descendants (n : node) : list node :=
  match n with
  | Tag _ _ cs => flat_map (fun c => c :: descendants c) cs
  | _ => []
  end.

Definition soup_descendants (sp : soup) : list node :=
  flat_map (fun c => c :: descendants c) sp.

(** Every node below [n], each with its ancestors, the nearest first. *)
Fixpoint with_parents (anc : list node) (n : node) : list (node * list node) :=
  match n with
  | Tag _ _ cs =>
      flat_map (fun c => (c, n :: anc) :: with_parents (n :: anc) c) cs
  | _ => []
  end.

Definition soup_with_parents (sp : soup) : list (node * list node) :=
  flat_map (fun c => (c, []) :: with_parents [] c) sp.

Definition has_name (names : list string) (n : node) : bool :=
  match n with
  | Tag nm _ _ => existsb (String.eqb nm) names
  | _ => false
  end.

Fixpoint assoc (key : string) (l : list (string * string)) : option string :=
  match l with
  | [] => None
  | (k, v) :: l' => if String.eqb key k then Some v else assoc key l'
  end.

(** [tag.get(key)] *)
Definition attr (key : string) (n : node) : option string :=
  match n with
  | Tag _ attrs _ => assoc key attrs
  | _ => None
  end.

(** [soup.find(name)] *)
Definition find (name : string) (sp : soup) : option node :=
  List.find (has_name [name]) (soup_descendants sp).

(** [soup.find_all(names)] *)
Definition find_all (names : list string) (sp : soup) : list node :=
  filter (has_name names) (soup_descendants sp).

Definition text_of (n : node) : list string :=
  match n with NavigableString s => [s] | _ => [] end.

(** [tag.get_text()] *)
Definition get_text (n : node) : string :=
  join "" (flat_map text_of (descendants n)).

(** [tag.get_text(strip=True)]: each string stripped, the empty ones
    dropped, the rest put together with nothing between them. *)
Definition get_text_strip (n : node) : string :=
  join "" (filter truthy (map strip (flat_map text_of (descendants n)))).

(** [soup.get_text()] *)
Definition soup_text (sp : soup) : string :=
  join "" (flat_map text_of (soup_descendants sp)).

(** [tag.string]: the one string below a chain of only children. *)
Fixpoint node_string (n : node) : option string :=
  match n with
  | NavigableString s => Some s
  | Special s => Some s
  | Tag _ _ [c] => node_string c
  | Tag _ _ _ => None
  end.

Definition matches (r : regex) (s : string) : bool :=
  match re_search r s with Some _ => true | None => false end.

(** [soup.find('a', href=re.compile(r))]: the first anchor that has an
    [href] in which the pattern is found. *)
Definition find_a_href (r : regex) (sp : soup) : option node :=
  List.find
    (fun n => has_name ["a"] n
              && match attr "href" n with
                 | Some h => matches r h
                 | None => false
                 end)
    (soup_descendants sp).

(** [soup.find('a', string=re.compile(r))], with the anchor's ancestors. *)
Definition find_a_string (r : regex) (sp : soup) : option (node * list node) :=
  List.find
    (fun na => has_name ["a"] (fst na)
               && match node_string (fst na) with
                  | Some s => matches r s
                  | None => false
                  end)
    (soup_with_parents sp).

(** [link.find_parent(names)] on the ancestors of [link]. *)
Definition find_parent (names : list string) (anc : list node) : option node :=
  List.find (has_name names) anc.

(** [soup.find_all('script', type=ty)] *)
Definition find_all_scripts (ty : string) (sp : soup) : list node :=
  filter
    (fun n => has_name ["script"] n
              && match attr "type" n with
                 | Some t => String.eqb t ty
                 | None => false
                 end)
    (soup_descendants sp).

(* ================================================================== *)
(** ** Insertion-ordered dictionaries ([dict], [defaultdict(list)])

    Keys are strings.  A dictionary keeps its keys in the order of their
    first insertion, which is the order of [values()] and [items()]. *)

Section Dict.
Context {V : Type}.

Definition dict : Type := list (string * V).

(** [d.get(k)] *)
Fixpoint dict_get (k : string) (d : dict) : option V :=
  match d with
  | [] => None
  | (k', v) :: d' => if String.eqb k k' then Some v else dict_get k d'
  end.

(** [k in d] *)
Definition dict_mem (k : string) (d : dict) : bool :=
  match dict_get k d with Some _ => true | None => false end.

(** [d[k] = v] *)
Fixpoint dict_set (k : string) (v : V) (d : dict) : dict :=
  match d with
  | [] => [(k, v)]
  | (k', v') :: d' =>
      if String.eqb k k' then (k', v) :: d' else (k', v') :: dict_set k v d'
  end.

(** [list(d.values())], [list(d.keys())], [len(d)] *)
Definition dict_values (d : dict) : list V := map snd d.
Definition dict_keys (d : dict) : list string := map fst d.
Definition dict_len (d : dict) : nat := List.length d.
End Dict.

Arguments dict : clear implicits.

(** [d[k].append(x)] on a [defaultdict(list)]. *)
Definition dict_append {A : Type} (k : string) (x : A) (d : dict (list A))
  : dict (list A) :=
  match dict_get k d with
  | Some l => dict_set k (l ++ [x]) d
  | None => dict_set k [x] d
  end.

(* ================================================================== *)
(** ** Reference tables and the electorate resolvers *)

(** A row of the state table, by its column names. *)
Record state_row : Type := StateRow {
  Electorate : string;
  Suburb : string;
  Postcode : string
}.

(** A row of the federal table. *)
Record federal_row : Type := FederalRow {
  Federal_Electorate : string;
  Federal_Suburb : string;
  Federal_Postcode : string
}.

(** The value [{'electorate': e, 'suburb': s}] kept under a postcode. *)
Record entry : Type := Entry {
  entry_electorate : string;
  entry_suburb : string
}.

(** The value [{'suburb': s, 'postcode': p, 'state_electorate': e}] that
    drives one search. *)
Record search_entry : Type := SearchEntry {
  search_entry_suburb : string;
  search_entry_postcode : string;
  search_entry_state_electorate : string
}.

Definition state_mapping : Type := dict (list entry).
Definition federal_mapping : Type := dict string.

(** [load_state_mapping], on the rows the CSV reader yields. *)
Definition load_state_mapping (rows : list state_row)
  : state_mapping * list search_entry :=
  fold_left
    (fun (acc : state_mapping * list search_entry) (row : state_row) =>
       let electorate := Electorate row in
       let suburb := Suburb row in
       let postcode := Postcode row in
       (dict_append postcode (Entry electorate suburb) (fst acc),
        snd acc ++ [SearchEntry suburb postcode electorate]))
    rows ([], []).

(** The key [f"{postcode}_{suburb.lower().strip()}"]. *)
Definition federal_key (postcode suburb : string) : string :=
  (postcode ++ "_" ++ strip (lower suburb))%string.

(** [load_federal_mapping], on the rows the CSV reader yields. *)
Definition load_federal_mapping (rows : list federal_row) : federal_mapping :=
  fold_left
    (fun (mapping : federal_mapping) (row : federal_row) =>
       let federal_electorate := Federal_Electorate row in
       let suburb := Federal_Suburb row in
       let postcode := Federal_Postcode row in
       dict_set (federal_key postcode suburb) federal_electorate mapping)
    rows [].

(** The scan [for entry in self.state_mapping[postcode]: ...]. *)
Fixpoint first_matching (suburb_normalized : string) (entries : list entry)
  : option string :=
  match entries with
  | [] => None
  | e :: rest =>
      if String.eqb (strip (lower (entry_suburb e))) suburb_normalized
      then Some (entry_electorate e)
      else first_matching suburb_normalized rest
  end.

(** [get_state_electorate] (in the state-only script
    [get_electorate_from_postcode_suburb], the same text).  [None] stands
    for the [IndexError] of [self.state_mapping[postcode][0]] on an empty
    list. *)
Definition get_state_electorate (mapping : state_mapping)
  (postcode suburb : string) : option string :=
  match dict_get postcode mapping with
  | None => Some "Unknown"
  | Some entries =>
      let suburb_normalized := strip (lower suburb) in
      match first_matching suburb_normalized entries with
      | Some electorate => Some electorate
      | None =>
          match entries with
          | e :: _ => Some (entry_electorate e)
          | [] => None
          end
      end
  end.

(** [get_federal_electorate] *)
Definition get_federal_electorate (mapping : federal_mapping)
  (postcode suburb : string) : string :=
  match dict_get (federal_key postcode suburb) mapping with
  | Some electorate => electorate
  | None => "Unknown"
  end.

(* ================================================================== *)
(** ** Billing classification

    The chain of [if]/[elif] under [# CHECK FOR BULK BILLING], the same in
    the three scripts; it yields [(is_bulk_billed, billing_status)] from
    the lower-cased page text. *)

Definition classify_billing (page_text : string) : bool * string :=
  if contains "bulk billing only" page_text then
    (true, "100% Bulk Billed")
  else if contains "100% bulk bill" page_text
          || contains "fully bulk billed" page_text then
    (true, "100% Bulk Billed")
  else if contains "bulk bills all patients" page_text then
    (true, "100% Bulk Billed")
  else if contains "mixed billing" page_text then
    (false, "Mixed Billing")
  else if contains "fees apply" page_text
          || contains "private billing" page_text then
    (false, "Private Billing")
  else
    (false, "Unknown").

(* ================================================================== *)
(** ** Suburb and postcode read back from the address

    The block under [# Extract suburb and postcode], the same in the three
    scripts: the postcode is the first run of exactly four digits between
    word boundaries, the suburb the capitals before [WA] and a postcode. *)

Definition derive_postcode (address_text search_postcode : string) : string :=
  match re_search re_postcode address_text with
  | Some pc_match => group address_text pc_match 1
  | None => search_postcode
  end.

Definition derive_suburb (address_text search_suburb : string) : string :=
  match re_search re_suburb address_text with
  | Some suburb_match => strip (group address_text suburb_match 1)
  | None => search_suburb
  end.

(* ================================================================== *)
(** ** Clinic records *)

(** The dictionary [clinic_data] of the state-and-federal and of the
    improved-address script, by its keys. *)
Record clinic : Type := Clinic {
  name : string;
  address : string;
  suburb : string;
  postcode : string;
  state_electorate : string;
  federal_electorate : string;
  phone : string;
  url : string;
  is_bulk_billed : bool;
  billing_status : string;
  last_checked : string
}.

(** What the scripts see of the network: [web u] is the parsed page that
    [requests.get(u)], [raise_for_status] and [BeautifulSoup] produce, or
    [None] when one of them raises. *)
Definition web : Type := string -> option soup.

(** [soup.find('h1') or soup.find('h2')], then its text or ["Unknown"]. *)
Definition clinic_name_of (sp : soup) : string :=
  let name_elem :=
    match find "h1" sp with
    | Some e => Some e
    | None => find "h2" sp
    end in
  match name_elem with
  | Some e => get_text_strip e
  | None => "Unknown"
  end.

(* ------------------------------------------------------------------ *)
(** *** [wa_bulk_billing_STATE_AND_FEDERAL.py] *)

Module StateAndFederal.

(** [get_clinic_details]; [now] is the time stamp of [datetime.now()]. *)
Definition get_clinic_details (federal : federal_mapping) (w : web)
  (now : string) (url search_postcode search_suburb state_electorate : string)
  : option clinic :=
  match w url with
  | None => None
  | Some sp =>
      let clinic_name := clinic_name_of sp in
      let address_text :=
        match find "address" sp with
        | Some address_elem => get_text_strip address_elem
        | None => ""
        end in
      let suburb :=
        if truthy address_text
        then derive_suburb address_text search_suburb
        else search_suburb in
      let postcode :=
        if truthy address_text
        then derive_postcode address_text search_postcode
        else search_postcode in
      let federal_electorate :=
        get_federal_electorate federal postcode suburb in
      let phone :=
        match find_a_href re_tel sp with
        | Some phone_elem => get_text_strip phone_elem
        | None => "N/A"
        end in
      let page_text := lower (soup_text sp) in
      let (is_bulk_billed, billing_status) := classify_billing page_text in
      Some (Clinic clinic_name
                   (if truthy address_text then address_text else "Unknown")
                   suburb postcode state_electorate federal_electorate
                   phone url is_bulk_billed billing_status now)
  end.

End StateAndFederal.

(* ------------------------------------------------------------------ *)
(** *** [wa_bulk_billing_BETTER_ADDRESSES.py] *)

(** A value read by [json.loads].  A value that is not a string carries
    the text [str] gives for it; [JOther] is a number, a list, a boolean
    or [null], with its truth value. *)
Inductive json : Type :=
| JString (s : string)
| JObject (members : list (string * json)) (text : string)
| JOther (truth : bool) (text : string).

Fixpoint json_member (key : string) (l : list (string * json)) : option json :=
  match l with
  | [] => None
  | (k, v) :: l' => if String.eqb key k then Some v else json_member key l'
  end.

(** [obj.get(key, '')] *)
Definition json_get (key : string) (l : list (string * json)) : json :=
  match json_member key l with
  | Some v => v
  | None => JString ""
  end.

Definition json_truthy (v : json) : bool :=
  match v with
  | JString s => truthy s
  | JObject members _ => match members with [] => false | _ => true end
  | JOther truth _ => truth
  end.

Definition json_str (v : json) : string :=
  match v with
  | JString s => s
  | JObject _ text => text
  | JOther _ text => text
  end.

Module BetterAddresses.

(** Method 1: the [address] element. *)
Definition method1 (sp : soup) : option string :=
  match find "address" sp with
  | Some address_elem =>
      let address_text := collapse_whitespace (get_text_strip address_elem) in
      if (10 <? String.length address_text) && contains "WA" address_text
      then Some address_text
      else None
  | None => None
  end.

(** Method 2: the first [p], [div] or [span] whose text holds a street
    pattern. *)
Fixpoint method2_scan (elems : list node) : option string :=
  match elems with
  | [] => None
  | elem :: rest =>
      let text := get_text_strip elem in
      if matches re_street text
      then Some (collapse_whitespace text)
      else method2_scan rest
  end.

Definition method2 (sp : soup) : option string :=
  method2_scan (find_all ["p"; "div"; "span"] sp).

(** Method 3: the text around a directions link. *)
Definition method3 (sp : soup) : option string :=
  match find_a_string re_directions sp with
  | Some (_, ancestors) =>
      match find_parent ["div"; "section"; "article"] ancestors with
      | Some parent =>
          let text := get_text_strip parent in
          match re_search re_address_near_link text with
          | Some m => Some (strip (group text m 1))
          | None => None
          end
      | None => None
      end
  | None => None
  end.

(** Method 4: structured data.  [json_loads] is [json.loads], [None]
    when it raises; a script without a single string raises as well. *)
Definition method4_script (json_loads : string -> option json)
  (script : node) : option string :=
  match node_string script with
  | None => None
  | Some content =>
      match json_loads content with
      | Some (JObject data _) =>
          match json_member "address" data with
          | Some (JObject addr _) =>
              let street := json_get "streetAddress" addr in
              let locality := json_get "addressLocality" addr in
              let region := json_get "addressRegion" addr in
              let postal := json_get "postalCode" addr in
              if json_truthy street && json_truthy locality
              then Some (strip (json_str street ++ ", " ++ json_str locality
                                ++ " " ++ json_str region
                                ++ " " ++ json_str postal)%string)
              else None
          | _ => None
          end
      | _ => None
      end
  end.

Fixpoint method4_scan (json_loads : string -> option json)
  (scripts : list node) : option string :=
  match scripts with
  | [] => None
  | script :: rest =>
      match method4_script json_loads script with
      | Some a => Some a
      | None => method4_scan json_loads rest
      end
  end.

Definition method4 (json_loads : string -> option json) (sp : soup)
  : option string :=
  method4_scan json_loads (find_all_scripts "application/ld+json" sp).

(** Method 5: any text that ends in [WA] and a postcode. *)
Definition address_keywords : list string :=
  ["street"; "st"; "road"; "rd"; "avenue"; "ave"; "drive"; "dr"].

Fixpoint method5_scan (found : list string) : option string :=
  match found with
  | [] => None
  | m :: rest =>
      let m := strip m in
      if (15 <? String.length m)
         && existsb (fun keyword => contains keyword (lower m)) address_keywords
      then Some (collapse_whitespace m)
      else method5_scan rest
  end.

Definition method5 (sp : soup) : option string :=
  method5_scan (re_findall re_any_address (soup_text sp)).

(** [extract_address_better]: the first method that returns. *)
Definition extract_address_better (json_loads : string -> option json)
  (sp : soup) : option string :=
  match method1 sp with
  | Some a => Some a
  | None =>
  match method2 sp with
  | Some a => Some a
  | None =>
  match method3 sp with
  | Some a => Some a
  | None =>
  match method4 json_loads sp with
  | Some a => Some a
  | None => method5 sp
  end end end end.

(** The fall-back [f"{search_suburb}, WA {search_postcode}"]. *)
Definition placeholder_address (search_suburb search_postcode : string)
  : string :=
  (search_suburb ++ ", WA " ++ search_postcode)%string.

(** [get_clinic_details] *)
Definition get_clinic_details (json_loads : string -> option json)
  (federal : federal_mapping) (w : web) (now : string)
  (url search_postcode search_suburb state_electorate : string)
  : option clinic :=
  match w url with
  | None => None
  | Some sp =>
      let clinic_name := clinic_name_of sp in
      let extracted := extract_address_better json_loads sp in
      let found :=
        match extracted with
        | Some a => truthy a
        | None => false
        end in
      let address_text :=
        match extracted with
        | Some a =>
            if truthy a then a
            else placeholder_address search_suburb search_postcode
        | None => placeholder_address search_suburb search_postcode
        end in
      let suburb :=
        if found then derive_suburb address_text search_suburb
        else search_suburb in
      let postcode :=
        if found then derive_postcode address_text search_postcode
        else search_postcode in
      let federal_electorate :=
        get_federal_electorate federal postcode suburb in
      let phone :=
        match find_a_href re_tel sp with
        | Some phone_elem => get_text_strip phone_elem
        | None =>
            let text := soup_text sp in
            match re_search re_phone_labelled text with
            | Some phone_match => group text phone_match 1
            | None => "N/A"
            end
        end in
      let page_text := lower (soup_text sp) in
      let (is_bulk_billed, billing_status) := classify_billing page_text in
      Some (Clinic clinic_name address_text suburb postcode
                   state_electorate federal_electorate
                   phone url is_bulk_billed billing_status now)
  end.

End BetterAddresses.

(* ------------------------------------------------------------------ *)
(** *** [wa_bulk_billing_FIXED.py] *)

Module Fixed.

(** The dictionary [clinic_data] of the state-only script. *)
Record clinic : Type := Clinic {
  name : string;
  address : string;
  suburb : string;
  postcode : string;
  electorate : string;
  phone : string;
  url : string;
  is_bulk_billed : bool;
  billing_status : string;
  last_checked : string
}.

(** The loop over [p] and [div] when there is no [address] element. *)
Fixpoint address_scan (elems : list node) : string :=
  match elems with
  | [] => ""
  | elem :: rest =>
      let text := get_text elem in
      if contains "WA" text && any_char isdigit_char text
      then strip text
      else address_scan rest
  end.

(** [get_clinic_details] *)
Definition get_clinic_details (w : web) (now : string)
  (url search_postcode search_suburb electorate : string) : option clinic :=
  match w url with
  | None => None
  | Some sp =>
      let clinic_name := clinic_name_of sp in
      let address_text :=
        match find "address" sp with
        | Some address_elem => get_text_strip address_elem
        | None => address_scan (find_all ["p"; "div"] sp)
        end in
      let suburb :=
        if truthy address_text
        then derive_suburb address_text search_suburb
        else search_suburb in
      let postcode :=
        if truthy address_text
        then derive_postcode address_text search_postcode
        else search_postcode in
      let phone :=
        match find_a_href re_tel sp with
        | Some phone_elem => get_text_strip phone_elem
        | None =>
            let text := soup_text sp in
            match re_search re_phone text with
            | Some phone_match => group text phone_match 1
            | None => "N/A"
            end
        end in
      let page_text := lower (soup_text sp) in
      let (is_bulk_billed, billing_status) := classify_billing page_text in
      Some (Clinic clinic_name
                   (if truthy address_text then address_text else "Unknown")
                   suburb postcode electorate
                   phone url is_bulk_billed billing_status now)
  end.

End Fixed.

(* ================================================================== *)
(** ** Float arithmetic of the percentage

    [len(bulk_billed) / len(clinics) * 100] is a binary64 division and a
    binary64 multiplication; [round(x, 1)] is the double nearest to the
    decimal with one digit after the point that is nearest to the exact
    value of [x], ties to the even digit.  The conversions below are exact
    for counts under [2^53] and values of [x] under [2^49] in magnitude. *)

(** [float(n)] *)
Definition float_of_Z (k : Z) : float := PrimFloat.of_uint63 (Uint63.of_Z k).
Definition float_of_nat (n : nat) : float := float_of_Z (Z.of_nat n).

(** [a / b] rounded to the nearest integer, ties to even, for [0 < b]. *)
Definition div_half_even (a b : Z) : Z :=
  let q := (a / b)%Z in
  let r := (a mod b)%Z in
  if (2 * r <? b)%Z then q
  else if (b <? 2 * r)%Z then (q + 1)%Z
  else if Z.even q then q else (q + 1)%Z.

(** The tenths of [round(x, 1)] for a finite [x] that is not an integer
    of 53 bits: [None] when [round] returns [x] itself. *)
Definition round1_tenths (x : float) : option Z :=
  match Prim2SF x with
  | S754_finite s m e =>
      if (0 <=? e)%Z then None
      else
        let k := div_half_even (10 * Zpos m) (2 ^ (- e)) in
        Some (if s then (- k)%Z else k)
  | _ => None
  end.

(** The double nearest to [k / 10]. *)
Definition float_of_tenths (k : Z) : float :=
  if (0 <=? k)%Z then (float_of_Z k / float_of_Z 10)%float
  else (- (float_of_Z (- k) / float_of_Z 10))%float.

(** [round(x, 1)] *)
Definition py_round1 (x : float) : float :=
  match round1_tenths x with
  | Some k => float_of_tenths k
  | None => x
  end.

(** [round(bulk_billed / total * 100, 1)] *)
Definition percentage_of (bulk_billed total : nat) : float :=
  py_round1 (float_of_nat bulk_billed / float_of_nat total * float_of_Z 100)%float.

(* ================================================================== *)
(** ** Deduplication and aggregation ([save_results])

    The text of [save_results] in the state-and-federal script; the
    improved-address script has the same, and the state-only script the
    same with one axis. *)

Module Stats.
(** [{'total_clinics': _, 'bulk_billed_clinics': _, 'percentage': _}] *)
Record t : Type := Make {
  total_clinics : nat;
  bulk_billed_clinics : nat;
  percentage : float
}.
End Stats.

Module Summary.
Record t : Type := Make {
  total_clinics : nat;
  bulk_billed_clinics : nat;
  state_electorates_covered : nat;
  federal_electorates_covered : nat
}.
End Summary.

(** The document handed to [json.dump]. *)
Record output : Type := Output {
  last_updated : string;
  summary : Summary.t;
  by_state_electorate : dict (list clinic);
  by_federal_electorate : dict (list clinic);
  state_electorate_stats : dict Stats.t;
  federal_electorate_stats : dict Stats.t
}.

(** [# Remove duplicates]: one turn of the loop, and the dictionary
    [unique_results] it builds. *)
Definition keep_first (unique : dict clinic) (c : clinic) : dict clinic :=
  if dict_mem (url c) unique then unique else dict_set (url c) c unique.

Definition unique_results (results : list clinic) : dict clinic :=
  fold_left keep_first results [].

(** [self.results = list(unique_results.values())] *)
Definition deduplicate (results : list clinic) : list clinic :=
  dict_values (unique_results results).

(** [by_state] or [by_federal]: one turn of the loop, and the records
    under each electorate. *)
Definition add_to_group (axis : clinic -> string)
  (by_axis : dict (list clinic)) (c : clinic) : dict (list clinic) :=
  dict_append (axis c) c by_axis.

Definition group_by (axis : clinic -> string) (results : list clinic)
  : dict (list clinic) :=
  fold_left (add_to_group axis) results [].

(** [bulk_billed_count] *)
Definition count_bulk_billed (results : list clinic) : nat :=
  fold_left (fun n c => if is_bulk_billed c then n + 1 else n) results 0.

(** The statistics of one electorate; an empty list would get [0]. *)
Definition stats_of (clinics : list clinic) : Stats.t :=
  let bulk_billed := filter is_bulk_billed clinics in
  Stats.Make (List.length clinics) (List.length bulk_billed)
    (match clinics with
     | [] => float_of_Z 0
     | _ => percentage_of (List.length bulk_billed) (List.length clinics)
     end).

(** [state_stats] or [federal_stats]: one turn of the loop over
    [items()], and the dictionary it builds. *)
Definition add_stats (stats : dict Stats.t) (item : string * list clinic)
  : dict Stats.t :=
  dict_set (fst item) (stats_of (snd item)) stats.

Definition make_stats (by_axis : dict (list clinic)) : dict Stats.t :=
  fold_left add_stats by_axis [].

(** [save_results]: the new [self.results] and the document written. *)
Definition save_results (results : list clinic) (now : string)
  : list clinic * output :=
  let results := deduplicate results in
  let by_state := group_by state_electorate results in
  let by_federal := group_by federal_electorate results in
  let bulk_billed_count := count_bulk_billed results in
  let state_stats := make_stats by_state in
  let federal_stats := make_stats by_federal in
  (results,
   Output now
     (Summary.Make (List.length results) bulk_billed_count
        (dict_len by_state) (dict_len by_federal))
     by_state by_federal state_stats federal_stats).

(* ================================================================== *)
(** ** Substitution ([re.sub]) and the suburb of the search address

    [re.sub] walks the subject from left to right: it looks for the next
    match from where the last one ended, copies what lies before it,
    writes the replacement and goes on after the match.  After an empty
    match the next attempt at the same position must consume something. *)

(** One attempt at position [i]; with [must_advance] an empty match is
    refused and the matcher backtracks. *)
Definition match_at (r : regex) (s : string) (i : nat) (pv : option ascii)
  (must_advance : bool) : option mstate :=
  run r (MState s i pv [])
      (fun st => if must_advance && (pos st =? i) then None else Some st).

(** The next match from position [i] on; [must_advance] only binds the
    attempt at [i] itself. *)
Definition search_next (r : regex) (s : string) (i : nat) (pv : option ascii)
  (must_advance : bool) : option rmatch :=
  match match_at r s i pv must_advance with
  | Some st => Some (RMatch i st)
  | None =>
      match s with
      | String c s' => search_from r s' (S i) (Some c)
      | EmptyString => None
      end
  end.

Fixpoint sub_from (fuel : nat) (r : regex) (repl s : string) (i : nat)
  (pv : option ascii) (must_advance : bool) : string :=
  match fuel with
  | 0 => s
  | S fuel' =>
      match search_next r s i pv must_advance with
      | None => s
      | Some m =>
          let st := m_final m in
          substring 0 (m_start m - i) s ++ repl
          ++ sub_from fuel' r repl (rest st) (pos st) (prev st)
                      (pos st =? m_start m)
      end
  end.

(** [re.sub(r, repl, s)] for a replacement that names no group.  Every
    position starts at most one empty and one other match. *)
Definition re_sub (r : regex) (repl s : string) : string :=
  sub_from (S (2 * S (String.length s))) r repl s 0 None false.

(** [[^\w\s-]] *)
Definition is_hyphen (c : ascii) : bool := nat_of_ascii c =? 45.

Definition url_unsafe (c : ascii) : bool :=
  negb (is_word c || is_space c || is_hyphen c).

Definition re_unsafe : regex := Chr url_unsafe.

(** [[\s]+] *)
Definition re_spaces : regex := Plus ws.

(** [normalize_suburb_for_url], the same in the three scripts. *)
Definition normalize_suburb_for_url (suburb : string) : string :=
  let suburb_url := strip (lower suburb) in
  let suburb_url := re_sub re_unsafe "" suburb_url in
  let suburb_url := re_sub re_spaces "-" suburb_url in
  suburb_url.

(* ================================================================== *)
(** ** The search and the main loop ([search_gp_clinics], [run])

    The scripts ask the network once for every search page and once for
    every clinic page.  [net t] is the network as the request number [t]
    finds it and [clock t] the time stamp read while that request is
    handled; a tracker holds [self.results] and the number of requests
    made so far.  What is printed, and the pauses between requests, are
    left out. *)

Definition base_url : string := "https://www.healthdirect.gov.au".

(** [search_url] of [search_gp_clinics]. *)
Definition search_url (suburb postcode : string) : string :=
  let suburb_url := normalize_suburb_for_url suburb in
  base_url ++ "/australian-health-services/search/" ++ suburb_url ++ "-"
  ++ postcode ++ "-wa/gp-general-practice/788007007".

(** The elements of [soup.find_all('a', href=True)]. *)
Definition has_href (n : node) : bool :=
  match attr "href" n with Some _ => true | None => false end.

(** [# Find all clinic links]: one turn of the loop. *)
Definition add_link (clinic_links : list string) (link : node) : list string :=
  match attr "href" link with
  | None => clinic_links
  | Some href =>
      if contains "/healthcare-service/" href
         && contains "/gp-general-practice/" href
      then
        let href := if startswith "http" href then href
                    else (base_url ++ href)%string in
        if existsb (String.eqb href) clinic_links then clinic_links
        else clinic_links ++ [href]
      else clinic_links
  end.

Definition clinic_links_of (sp : soup) : list string :=
  fold_left add_link (filter has_href (find_all ["a"] sp)) [].

Section Search.

(** The record type of the script and its [get_clinic_details], as a
    function of the network, the time stamp, the address of the page, and
    the postcode, suburb and electorate of the search. *)
Variable R : Type.
Variable get_clinic_details :
  web -> string -> string -> string -> string -> string -> option R.
Variables (net : nat -> web) (clock : nat -> string).

Record tracker : Type := Tracker {
  self_results : list R;
  requests : nat
}.

(** One turn of [for clinic_url in clinic_links]. *)
Definition visit (postcode suburb state_electorate : string)
  (self : tracker) (clinic_url : string) : tracker :=
  let t := requests self in
  match get_clinic_details (net t) (clock t) clinic_url postcode suburb
                           state_electorate with
  | Some clinic_data => Tracker (self_results self ++ [clinic_data]) (S t)
  | None => Tracker (self_results self) (S t)
  end.

(** [search_gp_clinics]: a search page that cannot be had (status 404, or
    any exception) ends the search. *)
Definition search_gp_clinics (self : tracker)
  (suburb postcode state_electorate : string) : tracker :=
  let t := requests self in
  match net t (search_url suburb postcode) with
  | None => Tracker (self_results self) (S t)
  | Some sp =>
      fold_left (visit postcode suburb state_electorate)
                (clinic_links_of sp)
                (Tracker (self_results self) (S t))
  end.

(** [# Search each suburb] of [run]. *)
Definition search_all (state_suburb_list : list search_entry)
  (self : tracker) : tracker :=
  fold_left
    (fun self entry =>
       search_gp_clinics self (search_entry_suburb entry)
                         (search_entry_postcode entry)
                         (search_entry_state_electorate entry))
    state_suburb_list self.

End Search.

Arguments Tracker {R} _ _.
Arguments self_results {R} _.
Arguments requests {R} _.

(** [run] of the two scripts with both axes: the tracker at the end, and
    the document written, if one is. *)
Module Main.

Definition run
  (get_clinic_details :
     web -> string -> string -> string -> string -> string -> option clinic)
  (net : nat -> web) (clock : nat -> string)
  (state_suburb_list : list search_entry) (self : tracker clinic)
  : tracker clinic * option output :=
  let self := search_all clinic get_clinic_details net clock
                         state_suburb_list self in
  if match self_results self with [] => false | _ => true end then
    let (results, out) :=
      save_results (self_results self) (clock (requests self)) in
    (Tracker results (requests self), Some out)
  else (self, None).

End Main.

(* ================================================================== *)
(** ** Reference notions of the specification *)

(** The records of [results] that [axis] puts under [electorate]. *)
Definition assigned (axis : clinic -> string) (electorate : string)
  (results : list clinic) : list clinic :=
  filter (fun c => String.eqb (axis c) electorate) results.

(** [round(bulk_billed / total * 100, 1)] over exact rationals, ties to
    even as [round] has them: the tenths, and the double nearest to it. *)
Definition exact_percentage_tenths (bulk_billed total : nat) : Z :=
  div_half_even (1000 * Z.of_nat bulk_billed) (Z.of_nat total).

Definition exact_percentage (bulk_billed total : nat) : float :=
  float_of_tenths (exact_percentage_tenths bulk_billed total).

(** The normalisation of a suburb before it is compared. *)
Definition normalize (suburb : string) : string := strip (lower suburb).

(* ================================================================== *)
(** ** Auxiliary definitions and sample inputs

    Names for the steps of the loops above, and the pages, tables and
    records the instances below are stated on. *)

(** The entries the rows of a postcode leave in the table, in row order. *)
Definition entries_for (postcode : string) (rows : list state_row) : list entry :=
  map (fun row => Entry (Electorate row) (Suburb row))
      (filter (fun row => String.eqb (Postcode row) postcode) rows).

Definition add_row (m : state_mapping) (row : state_row) : state_mapping :=
  dict_append (Postcode row) (Entry (Electorate row) (Suburb row)) m.

Definition has_url (u : string) (c : clinic) : bool := String.eqb (url c) u.

(** Every record of [unique_results] sits under its own url. *)
Definition keyed_by_url (d : dict clinic) : Prop :=
  forall k c, In (k, c) d -> url c = k.

(** The statistics of a bucket that is not empty. *)
Definition bucket_stats (clinics : list clinic) : Stats.t :=
  let total := List.length clinics in
  let bulk_billed := List.length (filter is_bulk_billed clinics) in
  Stats.Make total bulk_billed (percentage_of bulk_billed total).

(** Eighty clinics of one electorate, the first twenty-three of them bulk
    billed, each with a url of its own. *)
Definition numbered_clinic (i : nat) : clinic :=
  Clinic "Clinic" "Unknown" "Perth" "6000" "Perth" "Perth" "N/A"
         ("https://www.healthdirect.gov.au/healthcare-service/gp-general-practice/"
          ++ NilEmpty.string_of_uint (Nat.to_uint i))%string
         (i <? 23) (if i <? 23 then "100% Bulk Billed" else "Unknown")
         "2026-01-01 00:00:00".

Definition eighty_clinics : list clinic := map numbered_clinic (seq 0 80).

(** A clinic page with an address element, a telephone link and a billing
    sentence. *)
Definition subiaco_page : soup :=
  [Tag "html" []
     [Tag "body" []
        [Tag "h1" [] [NavigableString "Subiaco Family Practice"];
         Tag "address" []
           [NavigableString "  5 Main Street, ";
            Tag "br" [] [];
            NavigableString " SUBIACO   WA 6008 "];
         Tag "a" [("href", "tel:0893001234")] [NavigableString "08 9300 1234"];
         Tag "p" [] [NavigableString "Bulk billing only for concession card holders."]]]].

(** A page with no address anywhere and no telephone link, but a telephone
    number in its text. *)
Definition bare_page : soup :=
  [Tag "html" []
     [Tag "body" []
        [Tag "h1" [] [NavigableString "Perth Medical Centre"];
         Tag "p" [] [NavigableString "Mixed billing - fees apply for some services."];
         Tag "p" [] [NavigableString "Phone: 08 9300 1234"]]]].

Definition sample_state_rows : list state_row :=
  [StateRow "Perth" "Perth" "6000";
   StateRow "Perth" "East Perth" "6004";
   StateRow "Nedlands" "Subiaco" "6008";
   StateRow "Churchlands" "Wembley" "6014";
   StateRow "Nedlands" "Wembley Downs" "6014"].

Definition sample_federal_rows : list federal_row :=
  [FederalRow "Perth" "Perth" "6000";
   FederalRow "Curtin" "Subiaco" "6008"].

Definition sample_url : string :=
  "https://www.healthdirect.gov.au/healthcare-service/gp-general-practice/1".

Definition sample_now : string := "2026-01-01 00:00:00".

(** The web on which every url leads to the same page. *)
Definition only_page (sp : soup) : web := fun _ => Some sp.

Definition no_json : string -> option json := fun _ => None.

Definition clinic_a : clinic :=
  Clinic "Perth Medical Centre" "1 Hay Street, Perth WA 6000" "Perth" "6000"
         "Perth" "Perth" "08 9300 1234"
         "https://www.healthdirect.gov.au/healthcare-service/gp-general-practice/a"
         true "100% Bulk Billed" sample_now.

Definition clinic_b : clinic :=
  Clinic "Subiaco Family Practice" "5 Main Street, Subiaco WA 6008" "Subiaco"
         "6008" "Nedlands" "Curtin" "N/A"
         "https://www.healthdirect.gov.au/healthcare-service/gp-general-practice/b"
         false "Mixed Billing" sample_now.

Definition clinic_c : clinic :=
  Clinic "East Perth Doctors" "Unknown" "East Perth" "6004"
         "Perth" "Perth" "N/A"
         "https://www.healthdirect.gov.au/healthcare-service/gp-general-practice/c"
         false "Unknown" sample_now.

(** The record of [clinic_a] fetched a second time, with another phone. *)
Definition clinic_a_again : clinic :=
  Clinic "Perth Medical Centre" "1 Hay Street, Perth WA 6000" "Perth" "6000"
         "Perth" "Perth" "N/A"
         "https://www.healthdirect.gov.au/healthcare-service/gp-general-practice/a"
         true "100% Bulk Billed" sample_now.

(* ================================================================== *)
(** ** Reference notions for the aggregation *)

(** The records whose url was not seen before, in their order. *)
Fixpoint first_seen (seen : list string) (results : list clinic) : list clinic :=
  match results with
  | [] => []
  | c :: rest =>
      if existsb (String.eqb (url c)) seen then first_seen seen rest
      else c :: first_seen (url c :: seen) rest
  end.

(** The strings of a list without their repetitions, each at its first
    place. *)
Fixpoint first_places (seen : list string) (l : list string) : list string :=
  match l with
  | [] => []
  | x :: rest =>
      if existsb (String.eqb x) seen then first_places seen rest
      else x :: first_places (x :: seen) rest
  end.

(** The entry of the statistics that one bucket gives. *)
Definition stats_item (item : string * list clinic) : string * Stats.t :=
  (fst item, stats_of (snd item)).

(* ================================================================== *)
(** ** Reference notions for the tables *)

(** The search a row of the state table gives rise to. *)
Definition search_of_row (row : state_row) : search_entry :=
  SearchEntry (Suburb row) (Postcode row) (Electorate row).

(** The rows of the state table that answer a query: same postcode, same
    suburb once both are normalised. *)
Definition state_row_answers (postcode suburb : string) (row : state_row) : bool :=
  String.eqb (Postcode row) postcode
  && String.eqb (normalize (Suburb row)) (normalize suburb).

(** The rows of the federal table filed under the key of a query. *)
Definition federal_row_answers (postcode suburb : string) (row : federal_row)
  : bool :=
  String.eqb (federal_key (Federal_Postcode row) (Federal_Suburb row))
             (federal_key postcode suburb).

(** One turn of the loop of [load_federal_mapping]. *)
Definition add_federal_row (mapping : federal_mapping) (row : federal_row)
  : federal_mapping :=
  dict_set (federal_key (Federal_Postcode row) (Federal_Suburb row))
           (Federal_Electorate row) mapping.

(** A string without the underscore that separates the parts of a key. *)
Definition no_underscore (s : string) : bool :=
  negb (any_char (Ascii.eqb "_"%char) s).

(** The loop that [run] enters on a repetition, under a name. *)
Section RepLoop.
Variables (greedy : bool) (lo : nat) (hi : option nat) (r1 : regex)
  (k : mstate -> option mstate).

Fixpoint rep_loop (fuel n : nat) (st0 : mstate) {struct fuel} : option mstate :=
  match fuel with
  | 0 => None
  | S fuel' =>
      let again (_ : unit) :=
        if below n hi then
          run r1 st0
            (fun st1 =>
               if pos st0 <? pos st1 then rep_loop fuel' (S n) st1 else None)
        else None in
      let leave (_ : unit) := if lo <=? n then k st0 else None in
      if greedy then
        match again tt with Some m => Some m | None => leave tt end
      else
        match leave tt with Some m => Some m | None => again tt end
  end.
End RepLoop.

(* ================================================================== *)
(** ** Reference notions for the search address *)

(** Every character of [s] is in the class [p]. *)
Fixpoint all_chars (p : cls) (s : string) : bool :=
  match s with
  | EmptyString => true
  | String c s' => p c && all_chars p s'
  end.

(** Each character of the class [p] replaced by [repl]. *)
Fixpoint replace_chars (p : cls) (repl s : string) : string :=
  match s with
  | EmptyString => EmptyString
  | String c s' =>
      if p c then repl ++ replace_chars p repl s'
      else String c (replace_chars p repl s')
  end.

(** Each maximal run of characters of the class [p] replaced by one
    [repl]; [in_run] tells that the run has begun. *)
Fixpoint squeeze (p : cls) (repl : string) (in_run : bool) (s : string)
  : string :=
  match s with
  | EmptyString => EmptyString
  | String c s' =>
      if p c then
        if in_run then squeeze p repl true s'
        else repl ++ squeeze p repl true s'
      else String c (squeeze p repl false s')
  end.

(** The matcher's state after the longest run of [p] from [s]. *)
Fixpoint advance (p : cls) (s : string) (i : nat) (pv : option ascii)
  (cs : list (nat * (nat * nat))) : mstate :=
  match s with
  | String c s' => if p c then advance p s' (S i) (Some c) cs
                   else MState s i pv cs
  | EmptyString => MState s i pv cs
  end.

Fixpoint drop_while (p : cls) (s : string) : string :=
  match s with
  | String c s' => if p c then drop_while p s' else s
  | EmptyString => EmptyString
  end.

Definition url_safe (c : ascii) : bool := is_word c || is_hyphen c.

(** A character that [str.lower] leaves as it is. *)
Definition lower_fixed (c : ascii) : bool := Ascii.eqb (lower_char c) c.

(* ================================================================== *)
(** ** Reference notions for the search *)

(** The [href] of every anchor that has one, in document order. *)
Definition hrefs (sp : soup) : list string :=
  flat_map (fun n => match attr "href" n with Some h => [h] | None => [] end)
           (find_all ["a"] sp).

(** An address that names a clinic page. *)
Definition is_clinic_href (href : string) : bool :=
  contains "/healthcare-service/" href && contains "/gp-general-practice/" href.

Definition absolute (href : string) : string :=
  if startswith "http" href then href else (base_url ++ href)%string.

Section Found.
Variable R : Type.
Variable get_clinic_details :
  web -> string -> string -> string -> string -> string -> option R.
Variables (net : nat -> web) (clock : nat -> string).

(** The records that the pages at [links] give, the first of them asked
    for by the request number [t]. *)
Fixpoint found (postcode suburb state_electorate : string)
  (links : list string) (t : nat) : list R :=
  match links with
  | [] => []
  | clinic_url :: links' =>
      match get_clinic_details (net t) (clock t) clinic_url postcode suburb
                               state_electorate with
      | Some clinic_data => [clinic_data]
      | None => []
      end ++ found postcode suburb state_electorate links' (S t)
  end.

(** What one search adds to [self.results]: records of the electorate
    searched, of pairwise distinct absolute addresses of clinic pages, one
    request each after the request of the search page; and nothing when
    the search page cannot be had. *)
Definition search_appends (url_of electorate_of : R -> string) : Prop :=
  forall self suburb postcode state_electorate,
    let self' := search_gp_clinics R get_clinic_details net clock self
                                   suburb postcode state_electorate in
    exists new,
      self_results self' = self_results self ++ new
      /\ Forall (fun c => electorate_of c = state_electorate) new
      /\ NoDup (map url_of new)
      /\ Forall (fun c => startswith "http" (url_of c) = true
                          /\ is_clinic_href (url_of c) = true) new
      /\ List.length new < requests self' - requests self
      /\ (net (requests self) (search_url suburb postcode) = None ->
          new = [] /\ requests self' = S (requests self)).
End Found.
(** What a run over the searches of the state table leaves behind:
    records of electorates of the table, no address twice, and a document
    exactly when there is a record; the document is the report of the
    records left in [self.results]. *)
Definition report_of_run (rows : list state_row) (clock : nat -> string)
  (res : tracker clinic * option output) : Prop :=
  let results := self_results (fst res) in
  Forall (fun c => In (state_electorate c) (map Electorate rows)) results
  /\ NoDup (map url results)
  /\ match snd res with
     | None => results = []
     | Some out =>
         results <> []
         /\ out = snd (save_results results (clock (requests (fst res))))
         /\ Forall (fun e => In e (map Electorate rows))
                   (dict_keys (by_state_electorate out))
         /\ 1 <= Summary.total_clinics (summary out)
     end.

(* ================================================================== *)
(** ** Reference notions for the patterns

    What a pattern may read, as a relation between the states of the
    matcher before and after it. *)

Section Iter.
Variable step : mstate -> mstate -> Prop.

(** [n] steps in a row. *)
Inductive iter : nat -> mstate -> mstate -> Prop :=
| iter_0 (st : mstate) : iter 0 st st
| iter_S (n : nat) (st st1 st2 : mstate) :
    step st st1 -> iter n st1 st2 -> iter (S n) st st2.
End Iter.

Definition within (n : nat) (hi : option nat) : Prop :=
  match hi with Some h => n <= h | None => True end.

Fixpoint Steps (r : regex) (st st' : mstate) : Prop :=
  match r with
  | Eps => st' = st
  | Chr p =>
      exists c s', rest st = String c s' /\ p c = true
                   /\ st' = MState s' (S (pos st)) (Some c) (caps st)
  | Seq r1 r2 => exists st1, Steps r1 st st1 /\ Steps r2 st1 st'
  | Alt r1 r2 => Steps r1 st st' \/ Steps r2 st st'
  | Rep _ lo hi r1 =>
      exists n, lo <= n /\ within n hi /\ iter (Steps r1) n st st'
  | Grp i r1 =>
      exists st1, Steps r1 st st1 /\ st' = set_cap i (pos st) (pos st1) st1
  | WordBoundary => xorb (word_before st) (word_after st) = true /\ st' = st
  end.

(** A pattern without groups. *)
Fixpoint no_groups (r : regex) : bool :=
  match r with
  | Eps | Chr _ | WordBoundary => true
  | Seq r1 r2 | Alt r1 r2 => no_groups r1 && no_groups r2
  | Rep _ _ _ r1 => no_groups r1
  | Grp _ _ => false
  end.

(** The character before the end of [s], when [pv] is the one before [s]. *)
Fixpoint last_char (pv : option ascii) (s : string) : option ascii :=
  match s with
  | EmptyString => pv
  | String c s' => last_char (Some c) s'
  end.

(** [w] stands in [s] with no word character next to it. *)
Definition stands_alone (w s : string) : Prop :=
  exists pre post,
    s = (pre ++ w ++ post)%string
    /\ match last_char None pre with
       | Some c => is_word c = false
       | None => True
       end
    /\ match post with
       | String c _ => is_word c = false
       | EmptyString => True
       end.

(** A postcode as [get_clinic_details] takes it: the one of the search, or
    four digits that stand alone in the address. *)
Definition postcode_from (address search_postcode postcode : string) : Prop :=
  postcode = search_postcode
  \/ (String.length postcode = 4 /\ all_chars is_digit postcode = true
      /\ stands_alone postcode address).

Definition upper_or_space (c : ascii) : bool := is_upper c || is_space c.

(** White space, [WA], white space and four digits at the head of [s]. *)
Definition wa_and_postcode (s : string) : Prop :=
  exists sp1 sp2 digits post,
    s = (sp1 ++ "WA" ++ sp2 ++ digits ++ post)%string
    /\ sp1 <> ""%string /\ all_chars is_space sp1 = true
    /\ sp2 <> ""%string /\ all_chars is_space sp2 = true
    /\ String.length digits = 4 /\ all_chars is_digit digits = true.

(** A suburb as [get_clinic_details] takes it: the one of the search, or
    capitals and white space that begin with a capital, have no white
    space around them and stand in the address before [WA] and four
    digits. *)
Definition suburb_from (address search_suburb suburb : string) : Prop :=
  suburb = search_suburb
  \/ (exists c t, suburb = String c t /\ is_upper c = true
                  /\ all_chars upper_or_space t = true)
     /\ strip suburb = suburb
     /\ exists pre g post,
          address = (pre ++ g ++ post)%string /\ strip g = suburb
          /\ 2 <= String.length g
          /\ wa_and_postcode post.

(** Two digits, four digits and four digits, with at most one white space
    character at each joint. *)
Definition phone_shape (phone : string) : Prop :=
  exists a s1 b s2 c,
    phone = (a ++ s1 ++ b ++ s2 ++ c)%string
    /\ String.length a = 2 /\ all_chars is_digit a = true
    /\ String.length s1 <= 1 /\ all_chars is_space s1 = true
    /\ String.length b = 4 /\ all_chars is_digit b = true
    /\ String.length s2 <= 1 /\ all_chars is_space s2 = true
    /\ String.length c = 4 /\ all_chars is_digit c = true.

(** A telephone number read from the text of the page. *)
Definition phone_from (text phone : string) : Prop :=
  phone = "N/A"%string
  \/ (phone_shape phone
      /\ exists pre post, text = (pre ++ phone ++ post)%string).

(** Four digits at the head of [s] that stand alone, when [pv] is the
    character before [s]. *)
Definition postcode_at (pv : option ascii) (s : string) : option string :=
  match s with
  | String a (String b (String c (String d s'))) =>
      if negb (match pv with Some p => is_word p | None => false end)
         && is_digit a && is_digit b && is_digit c && is_digit d
         && negb (match s' with String e _ => is_word e | EmptyString => false end)
      then Some (String a (String b (String c (String d EmptyString))))
      else None
  | _ => None
  end.

(** The first four digits of [s] that stand alone. *)
Fixpoint first_postcode (pv : option ascii) (s : string) : option string :=
  match postcode_at pv s with
  | Some w => Some w
  | None =>
      match s with
      | String c s' => first_postcode (Some c) s'
      | EmptyString => None
      end
  end.

(* ================================================================== *)
(** ** Reference notions for the classifier and for the address read back *)

(** The rules of the classifier as the specification lists them, in their
    order: the phrases of a rule, and what a text that holds one of them
    is taken for. *)
Definition billing_rules : list (list string * (bool * string)) :=
  [(["bulk billing only"], (true, "100% Bulk Billed"));
   (["100% bulk bill"; "fully bulk billed"], (true, "100% Bulk Billed"));
   (["bulk bills all patients"], (true, "100% Bulk Billed"));
   (["mixed billing"], (false, "Mixed Billing"));
   (["fees apply"; "private billing"], (false, "Private Billing"))].

(** The first rule that holds decides; [otherwise] when none does. *)
Fixpoint first_match (rules : list (list string * (bool * string)))
  (otherwise : bool * string) (page_text : string) : bool * string :=
  match rules with
  | [] => otherwise
  | (phrases, outcome) :: rules' =>
      if existsb (fun phrase => contains phrase page_text) phrases
      then outcome
      else first_match rules' otherwise page_text
  end.

(** One of the phrases of full bulk billing stands in the text. *)
Definition full_bulk_billing (page_text : string) : bool :=
  contains "bulk billing only" page_text
  || contains "100% bulk bill" page_text
  || contains "fully bulk billed" page_text
  || contains "bulk bills all patients" page_text.

(** The suburb and the postcode that [get_clinic_details] reads back from
    an address it has found.  The postcode is the first run of four digits
    that stands alone, and the postcode of the search when there is none.
    The suburb is the stripped group of the pattern of the suburb where
    the pattern is found, so capitals and white space before [WA] and four
    digits, and the suburb of the search where it is not. *)
Definition read_back
  (address_text search_suburb search_postcode suburb postcode : string)
  : Prop :=
  postcode = match first_postcode None address_text with
             | Some digits => digits
             | None => search_postcode
             end
  /\ suburb = match re_search re_suburb address_text with
              | Some suburb_match => strip (group address_text suburb_match 1)
              | None => search_suburb
              end
  /\ suburb_from address_text search_suburb suburb.

(** The page of the end-to-end scenario of the specification: the suburb
    of its address is not in capitals. *)
Definition main_street_page : soup :=
  [Tag "html" []
     [Tag "body" []
        [Tag "h1" [] [NavigableString "Main Street Medical"];
         Tag "address" [] [NavigableString "12 Main Street, Perth WA 6000"];
         Tag "a" [("href", "tel:0893001234")] [NavigableString "0893001234"];
         Tag "p" [] [NavigableString "Bulk billing only."]]]].

(* ================================================================== *)
(** * Properties *)

(** ** Dictionaries *)

Section DictFacts.
Context {V : Type}.
Implicit Types (d : dict V) (k : string) (v : V).

Lemma dict_get_set_same d k v : dict_get k (dict_set k v d) = Some v.
Proof.
  induction d as [|[k' v'] d IH]; simpl.
  - now rewrite String.eqb_refl.
  - destruct (String.eqb k k') eqn:E; simpl; rewrite E; auto.
Qed.

Lemma dict_get_set_other d k k' v :
  k <> k' -> dict_get k' (dict_set k v d) = dict_get k' d.
Proof.
  intros Hne. induction d as [|[k0 v0] d IH]; simpl.
  - destruct (String.eqb k' k) eqn:E; auto.
    apply String.eqb_eq in E. congruence.
  - destruct (String.eqb k k0) eqn:E; simpl.
    + apply String.eqb_eq in E. subst k0.
      destruct (String.eqb k' k) eqn:E'; auto.
      apply String.eqb_eq in E'. congruence.
    + now rewrite IH.
Qed.

Lemma dict_get_Some_In d k v : dict_get k d = Some v -> In (k, v) d.
Proof.
  induction d as [|[k' v'] d IH]; simpl; [discriminate|].
  destruct (String.eqb k k') eqn:E; intros H.
  - apply String.eqb_eq in E. inversion H. subst. now left.
  - right. auto.
Qed.

Lemma dict_get_None_keys d k : dict_get k d = None <-> ~ In k (dict_keys d).
Proof.
  induction d as [|[k' v'] d IH]; simpl.
  - tauto.
  - destruct (String.eqb k k') eqn:E.
    + apply String.eqb_eq in E. subst. split; [discriminate|tauto].
    + apply String.eqb_neq in E. rewrite IH. split.
      * intros H [H'|H']; [congruence|tauto].
      * tauto.
Qed.

Lemma dict_get_Some_keys d k :
  (exists v, dict_get k d = Some v) <-> In k (dict_keys d).
Proof.
  destruct (dict_get k d) as [v|] eqn:E.
  - split; [intros _|intros _; eauto].
    apply dict_get_Some_In in E.
    unfold dict_keys. change k with (fst (k, v)). now apply in_map.
  - apply dict_get_None_keys in E. split; [intros [v Hv]; discriminate|tauto].
Qed.

(** Setting a key that is absent adds it at the end. *)
Lemma dict_set_fresh d k v :
  dict_get k d = None -> dict_set k v d = d ++ [(k, v)].
Proof.
  induction d as [|[k' v'] d IH]; simpl; auto.
  destruct (String.eqb k k') eqn:E; [discriminate|].
  intros H. now rewrite IH.
Qed.

(** Setting a key keeps the keys in place. *)
Lemma dict_keys_set_present d k v :
  dict_get k d <> None -> dict_keys (dict_set k v d) = dict_keys d.
Proof.
  induction d as [|[k' v'] d IH]; simpl; [congruence|].
  destruct (String.eqb k k') eqn:E; simpl; auto.
  intros H. now rewrite IH.
Qed.
End DictFacts.

(** ** C2: the state resolver *)

Lemma load_state_mapping_fold rows : forall (m : state_mapping) searches,
  fst (fold_left
         (fun (acc : state_mapping * list search_entry) (row : state_row) =>
            let electorate := Electorate row in
            let suburb := Suburb row in
            let postcode := Postcode row in
            (dict_append postcode (Entry electorate suburb) (fst acc),
             snd acc ++ [SearchEntry suburb postcode electorate]))
         rows (m, searches))
  = fold_left add_row rows m.
Proof.
  induction rows as [|row rows IH]; intros m searches; simpl; auto.
Qed.

Lemma load_state_mapping_fst rows :
  fst (load_state_mapping rows) = fold_left add_row rows [].
Proof. apply load_state_mapping_fold. Qed.

Lemma add_rows_get rows : forall (m : state_mapping) postcode,
  dict_get postcode (fold_left add_row rows m) =
  match dict_get postcode m with
  | Some l => Some (l ++ entries_for postcode rows)
  | None =>
      match entries_for postcode rows with
      | [] => None
      | es => Some es
      end
  end.
Proof.
  induction rows as [|row rows IH]; intros m p; simpl.
  - unfold entries_for; simpl. destruct (dict_get p m); auto.
    now rewrite app_nil_r.
  - rewrite IH. unfold add_row at 1, dict_append, entries_for. simpl.
    destruct (String.eqb (Postcode row) p) eqn:E.
    + apply String.eqb_eq in E. subst p.
      destruct (dict_get (Postcode row) m) as [l|] eqn:G;
        rewrite dict_get_set_same; simpl; auto.
      now rewrite <- app_assoc.
    + apply String.eqb_neq in E.
      destruct (dict_get (Postcode row) m) as [l|] eqn:G;
        rewrite dict_get_set_other by auto; reflexivity.
Qed.

(** A loaded table holds, under a postcode, the entries of its rows, and
    never an empty list. *)
Lemma load_state_mapping_get rows postcode :
  dict_get postcode (fst (load_state_mapping rows)) =
  match entries_for postcode rows with
  | [] => None
  | es => Some es
  end.
Proof. rewrite load_state_mapping_fst, add_rows_get. reflexivity. Qed.

Lemma first_matching_find suburb_normalized entries :
  first_matching suburb_normalized entries =
  option_map entry_electorate
    (List.find (fun e => String.eqb (normalize (entry_suburb e)) suburb_normalized)
               entries).
Proof.
  induction entries as [|e es IH]; simpl; auto.
  unfold normalize at 1.
  destruct (String.eqb (strip (lower (entry_suburb e))) suburb_normalized); auto.
Qed.

(** C2.  On a table built by [load_state_mapping], [get_state_electorate]
    returns ["Unknown"] when the postcode is not in the table; when it is,
    the electorate of the first entry under the postcode whose normalised
    suburb equals the normalised query; and when no entry matches, the
    electorate of the first entry under the postcode. *)
Theorem get_state_electorate_policy (rows : list state_row)
  (postcode suburb : string) :
  let mapping := fst (load_state_mapping rows) in
  match dict_get postcode mapping with
  | None => get_state_electorate mapping postcode suburb = Some "Unknown"
  | Some entries =>
      match List.find
              (fun e => String.eqb (normalize (entry_suburb e)) (normalize suburb))
              entries with
      | Some e =>
          get_state_electorate mapping postcode suburb = Some (entry_electorate e)
      | None =>
          exists e0 others,
            entries = e0 :: others /\
            get_state_electorate mapping postcode suburb
            = Some (entry_electorate e0)
      end
  end.
Proof.
  cbv zeta. unfold get_state_electorate.
  rewrite load_state_mapping_get.
  destruct (entries_for postcode rows) as [|e0 others] eqn:E; auto.
  rewrite first_matching_find. fold (normalize suburb).
  destruct (List.find _ (e0 :: others)) as [e|]; simpl; eauto.
Qed.

(** ** C5 and C10: the billing classifier *)

(** Opens a successful call of one of the three record builders: the page
    fetched is [sp], and the record is the one the builder assembles. *)
Ltac open_builder H sp :=
  unfold StateAndFederal.get_clinic_details,
         BetterAddresses.get_clinic_details,
         Fixed.get_clinic_details in H;
  match type of H with
  | match ?w ?u with _ => _ end = Some _ =>
      let Hw := fresh "Hpage" in
      destruct (w u) as [sp|] eqn:Hw; [|discriminate H]
  end;
  match type of H with
  | context [classify_billing ?t] =>
      let Hc := fresh "Hbilling" in
      destruct (classify_billing t) as [? ?] eqn:Hc
  end;
  injection H as H; subst.

(** The classifier has four outcomes. *)
Lemma classify_billing_cases page_text :
  classify_billing page_text = (true, "100% Bulk Billed")
  \/ classify_billing page_text = (false, "Mixed Billing")
  \/ classify_billing page_text = (false, "Private Billing")
  \/ classify_billing page_text = (false, "Unknown").
Proof.
  unfold classify_billing.
  destruct (contains "bulk billing only" page_text); auto.
  destruct (contains "100% bulk bill" page_text || contains "fully bulk billed" page_text);
    auto.
  destruct (contains "bulk bills all patients" page_text); auto.
  destruct (contains "mixed billing" page_text); auto.
  destruct (contains "fees apply" page_text || contains "private billing" page_text);
    auto.
Qed.

(** C5.  The rules are tried in a fixed order and the first that holds
    decides.  A text with both "mixed billing" and "fees apply" and none of
    the full-bulk-billing phrases is Mixed Billing, not Private Billing, and
    a text with "bulk billing only" is 100% Bulk Billed whatever else it
    holds; the record of the state-and-federal builder carries the
    classifier's two outputs for the lower-cased page text.  On every text
    the classifier is the first match in the list of rules of the
    specification: 100% Bulk Billed exactly when a phrase of full bulk
    billing stands in the text, whatever else does; Mixed Billing exactly
    when none of those does and "mixed billing" does, whether or not "fees
    apply" or "private billing" do; Private Billing exactly when none of
    the earlier phrases does and "fees apply" or "private billing" does;
    Unknown exactly when no phrase does. *)
Theorem classify_billing_priority (page_text : string) :
  (contains "mixed billing" page_text = true ->
   contains "fees apply" page_text = true ->
   contains "bulk billing only" page_text = false ->
   contains "100% bulk bill" page_text = false ->
   contains "fully bulk billed" page_text = false ->
   contains "bulk bills all patients" page_text = false ->
   classify_billing page_text = (false, "Mixed Billing"))
  /\ (contains "bulk billing only" page_text = true ->
      classify_billing page_text = (true, "100% Bulk Billed"))
  /\ (forall federal (w : web) now u search_postcode search_suburb electorate sp r,
        w u = Some sp ->
        page_text = lower (soup_text sp) ->
        StateAndFederal.get_clinic_details
          federal w now u search_postcode search_suburb electorate = Some r ->
        (is_bulk_billed r, billing_status r) = classify_billing page_text)
  /\ classify_billing page_text
     = first_match billing_rules (false, "Unknown") page_text
  /\ (classify_billing page_text = (true, "100% Bulk Billed")
      <-> full_bulk_billing page_text = true)
  /\ (classify_billing page_text = (false, "Mixed Billing")
      <-> full_bulk_billing page_text = false
          /\ contains "mixed billing" page_text = true)
  /\ (classify_billing page_text = (false, "Private Billing")
      <-> full_bulk_billing page_text = false
          /\ contains "mixed billing" page_text = false
          /\ (contains "fees apply" page_text
              || contains "private billing" page_text) = true)
  /\ (classify_billing page_text = (false, "Unknown")
      <-> full_bulk_billing page_text = false
          /\ contains "mixed billing" page_text = false
          /\ contains "fees apply" page_text = false
          /\ contains "private billing" page_text = false).
Proof.
  split; [|split; [|split]].
  - intros Hm _ H1 H2 H3 H4. unfold classify_billing.
    now rewrite H1, H2, H3, H4, Hm.
  - intros H. unfold classify_billing. now rewrite H.
  - intros federal w now u pc sub el sp r Hw -> H.
    open_builder H sp'. simpl.
    assert (sp' = sp) by congruence. subst sp'. now symmetry.
  - unfold classify_billing, full_bulk_billing, billing_rules.
    cbn [first_match existsb].
    destruct (contains "bulk billing only" page_text),
             (contains "100% bulk bill" page_text),
             (contains "fully bulk billed" page_text),
             (contains "bulk bills all patients" page_text),
             (contains "mixed billing" page_text),
             (contains "fees apply" page_text),
             (contains "private billing" page_text);
      cbn [orb andb];
      (split; [reflexivity|]);
      repeat split; intros; try reflexivity; try discriminate;
      repeat match goal with H : _ /\ _ |- _ => destruct H end;
      try discriminate.
Qed.

(** C10.  The two outputs of the classifier go together: there are four
    outcomes, the flag is true with the status "100% Bulk Billed" and false
    with the three others; so the flag is true exactly when the status is
    "100% Bulk Billed", on every text and in every record of the three
    builders. *)
Theorem bulk_billed_iff_status :
  (forall page_text,
     In (classify_billing page_text)
        [(true, "100% Bulk Billed"); (false, "Mixed Billing");
         (false, "Private Billing"); (false, "Unknown")])
  /\ (forall page_text,
        fst (classify_billing page_text) = true
        <-> snd (classify_billing page_text) = "100% Bulk Billed")
  /\ (forall federal (w : web) now u search_postcode search_suburb electorate r,
        StateAndFederal.get_clinic_details
          federal w now u search_postcode search_suburb electorate = Some r ->
        (is_bulk_billed r = true <-> billing_status r = "100% Bulk Billed"))
  /\ (forall json_loads federal (w : web) now u search_postcode search_suburb
             electorate r,
        BetterAddresses.get_clinic_details
          json_loads federal w now u search_postcode search_suburb electorate
        = Some r ->
        (is_bulk_billed r = true <-> billing_status r = "100% Bulk Billed"))
  /\ (forall (w : web) now u search_postcode search_suburb electorate r,
        Fixed.get_clinic_details
          w now u search_postcode search_suburb electorate = Some r ->
        (Fixed.is_bulk_billed r = true
         <-> Fixed.billing_status r = "100% Bulk Billed")).
Proof.
  assert (Hc : forall page_text,
             fst (classify_billing page_text) = true
             <-> snd (classify_billing page_text) = "100% Bulk Billed").
  { intros t.
    destruct (classify_billing_cases t) as [E|[E|[E|E]]]; rewrite E; simpl;
      split; congruence. }
  split.
  { intros t. simpl.
    destruct (classify_billing_cases t) as [E|[E|[E|E]]]; rewrite E; auto. }
  split; [exact Hc|].
  repeat split; intros; open_builder H sp; simpl;
    match goal with
    | Hb : classify_billing ?t = _ |- _ =>
        pose proof (Hc t) as Ht; rewrite Hb in Ht; simpl in Ht; tauto
    end.
Qed.

(** ** C3: deduplication *)

Lemma dict_set_In {V : Type} (d : dict V) k v k' v' :
  In (k', v') (dict_set k v d) -> (k', v') = (k, v) \/ In (k', v') d.
Proof.
  induction d as [|[k0 v0] d IH]; simpl.
  - intros [H|[]]; auto.
  - destruct (String.eqb k k0) eqn:E; simpl.
    + apply String.eqb_eq in E. subst k0.
      intros [H|H]; auto.
    + intros [H|H]; auto. destruct (IH H); auto.
Qed.

Lemma dict_set_keys_NoDup {V : Type} (d : dict V) k v :
  NoDup (dict_keys d) -> NoDup (dict_keys (dict_set k v d)).
Proof.
  intros Hnd. destruct (dict_get k d) as [v0|] eqn:E.
  - rewrite dict_keys_set_present; [assumption|congruence].
  - rewrite dict_set_fresh by assumption.
    unfold dict_keys. rewrite map_app. simpl.
    apply NoDup_app; auto.
    + constructor; [tauto|constructor].
    + intros x Hx [<-|[]]. now apply dict_get_None_keys in E.
Qed.

Lemma keep_first_keyed d c : keyed_by_url d -> keyed_by_url (keep_first d c).
Proof.
  unfold keep_first, keyed_by_url. intros Hd k c' Hin.
  destruct (dict_mem (url c) d); auto.
  apply dict_set_In in Hin. destruct Hin as [H|H]; auto.
  now inversion H.
Qed.

Lemma keep_first_NoDup d c :
  NoDup (dict_keys d) -> NoDup (dict_keys (keep_first d c)).
Proof.
  unfold keep_first. destruct (dict_mem (url c) d); auto.
  apply dict_set_keys_NoDup.
Qed.

Lemma fold_keep_first_invariant results : forall d,
  keyed_by_url d -> NoDup (dict_keys d) ->
  keyed_by_url (fold_left keep_first results d)
  /\ NoDup (dict_keys (fold_left keep_first results d)).
Proof.
  induction results as [|c l IH]; intros d Hk Hn; simpl; auto.
  apply IH; [now apply keep_first_keyed|now apply keep_first_NoDup].
Qed.

(** What [unique_results] holds under a url: what was there, or else the
    first record of the list with that url. *)
Lemma fold_keep_first_get results : forall d u,
  dict_get u (fold_left keep_first results d) =
  match dict_get u d with
  | Some c => Some c
  | None => List.find (has_url u) results
  end.
Proof.
  induction results as [|c l IH]; intros d u; simpl.
  - now destruct (dict_get u d).
  - rewrite IH. unfold keep_first, dict_mem, has_url.
    destruct (dict_get (url c) d) as [c0|] eqn:E.
    + destruct (dict_get u d) eqn:E'; auto.
      destruct (String.eqb (url c) u) eqn:Eu; auto.
      apply String.eqb_eq in Eu. congruence.
    + destruct (String.eqb (url c) u) eqn:Eu.
      * apply String.eqb_eq in Eu. subst u.
        now rewrite dict_get_set_same, E.
      * apply String.eqb_neq in Eu.
        now rewrite dict_get_set_other by assumption.
Qed.

Lemma keyed_values_find d u :
  keyed_by_url d -> List.find (has_url u) (dict_values d) = dict_get u d.
Proof.
  unfold keyed_by_url, has_url.
  induction d as [|[k c] d IH]; intros Hk; simpl; auto.
  rewrite (Hk k c) by now left.
  rewrite String.eqb_sym.
  destruct (String.eqb u k); auto.
  apply IH. intros k' c' H. apply Hk. now right.
Qed.

Lemma keyed_values_urls d :
  keyed_by_url d -> map url (dict_values d) = dict_keys d.
Proof.
  unfold keyed_by_url, dict_values, dict_keys.
  induction d as [|[k c] d IH]; intros Hk; simpl; auto.
  rewrite (Hk k c) by now left.
  f_equal. apply IH. intros k' c' H. apply Hk. now right.
Qed.

Lemma find_has_url_In u results :
  (exists c, List.find (has_url u) results = Some c) <-> In u (map url results).
Proof.
  induction results as [|c l IH]; simpl.
  - split; [intros [c H]; discriminate|tauto].
  - unfold has_url at 1. destruct (String.eqb (url c) u) eqn:E.
    + apply String.eqb_eq in E. split; eauto.
    + apply String.eqb_neq in E. rewrite IH. split; [tauto|].
      intros [H|H]; [congruence|assumption].
Qed.

Lemma same_members_same_length (l1 l2 : list string) :
  NoDup l1 -> NoDup l2 -> (forall x, In x l1 <-> In x l2) ->
  List.length l1 = List.length l2.
Proof.
  intros H1 H2 H. apply Permutation_length. now apply NoDup_Permutation.
Qed.

Lemma unique_results_invariant results :
  keyed_by_url (unique_results results)
  /\ NoDup (dict_keys (unique_results results)).
Proof.
  apply (fold_keep_first_invariant results []).
  - intros k c [].
  - constructor.
Qed.

(** C3.  After deduplication the urls are pairwise distinct; under every
    url the record kept is the first record of the input with that url,
    whatever the later ones hold; and as many records are kept as the
    input has distinct urls. *)
Theorem deduplicate_first_seen (results : list clinic) :
  NoDup (map url (deduplicate results))
  /\ (forall u,
        List.find (has_url u) (deduplicate results)
        = List.find (has_url u) results)
  /\ List.length (deduplicate results)
     = List.length (nodup string_dec (map url results)).
Proof.
  destruct (unique_results_invariant results) as [Hk Hn].
  unfold deduplicate.
  assert (Hget : forall u, dict_get u (unique_results results)
                           = List.find (has_url u) results).
  { intros u. unfold unique_results.
    exact (fold_keep_first_get results [] u). }
  repeat split.
  - now rewrite keyed_values_urls.
  - intros u. now rewrite keyed_values_find, Hget.
  - rewrite <- (length_map url), keyed_values_urls by assumption.
    apply same_members_same_length; auto using NoDup_nodup.
    intros u. rewrite nodup_In, <- dict_get_Some_keys, <- find_has_url_In.
    now setoid_rewrite Hget.
Qed.

(** ** C4 and C9: aggregation *)

Section Grouping.
Variable axis : clinic -> string.

Lemma fold_add_to_group_get results : forall d electorate,
  dict_get electorate (fold_left (add_to_group axis) results d) =
  match dict_get electorate d with
  | Some l => Some (l ++ assigned axis electorate results)
  | None =>
      match assigned axis electorate results with
      | [] => None
      | cs => Some cs
      end
  end.
Proof.
  induction results as [|c l IH]; intros d e; simpl.
  - destruct (dict_get e d); auto. now rewrite app_nil_r.
  - rewrite IH. unfold add_to_group at 1, dict_append, assigned. simpl.
    destruct (String.eqb (axis c) e) eqn:E.
    + apply String.eqb_eq in E. subst e.
      destruct (dict_get (axis c) d) eqn:G;
        rewrite dict_get_set_same; simpl; auto.
      now rewrite <- app_assoc.
    + apply String.eqb_neq in E.
      destruct (dict_get (axis c) d) eqn:G;
        rewrite dict_get_set_other by auto; reflexivity.
Qed.

Lemma fold_add_to_group_NoDup results : forall d,
  NoDup (dict_keys d) -> NoDup (dict_keys (fold_left (add_to_group axis) results d)).
Proof.
  induction results as [|c l IH]; intros d Hd; simpl; auto.
  apply IH. unfold add_to_group, dict_append.
  destruct (dict_get (axis c) d); now apply dict_set_keys_NoDup.
Qed.

(** A bucket holds the records its electorate was given, in order; there
    is no bucket for an electorate that was given none. *)
Lemma group_by_get results electorate :
  dict_get electorate (group_by axis results) =
  match assigned axis electorate results with
  | [] => None
  | cs => Some cs
  end.
Proof. exact (fold_add_to_group_get results [] electorate). Qed.

Lemma group_by_NoDup results : NoDup (dict_keys (group_by axis results)).
Proof. apply (fold_add_to_group_NoDup results []). constructor. Qed.

Lemma assigned_nonempty_In results electorate :
  assigned axis electorate results <> [] <-> In electorate (map axis results).
Proof.
  unfold assigned. induction results as [|c l IH]; simpl.
  - tauto.
  - destruct (String.eqb (axis c) electorate) eqn:E.
    + apply String.eqb_eq in E. split; [auto|discriminate].
    + apply String.eqb_neq in E. rewrite IH. split; [tauto|].
      intros [H|H]; [congruence|assumption].
Qed.

(** As many buckets as distinct electorates. *)
Lemma group_by_len results :
  dict_len (group_by axis results)
  = List.length (nodup string_dec (map axis results)).
Proof.
  unfold dict_len. rewrite <- (length_map fst).
  fold (dict_keys (group_by axis results)).
  apply same_members_same_length.
  - apply group_by_NoDup.
  - apply NoDup_nodup.
  - intros e. rewrite nodup_In, <- assigned_nonempty_In.
    rewrite <- dict_get_Some_keys, group_by_get.
    destruct (assigned axis e results) as [|c cs].
    + split; [intros [v Hv]; discriminate|congruence].
    + split; [discriminate|eauto].
Qed.
End Grouping.

Lemma fold_add_stats_get by_axis : forall stats electorate,
  NoDup (dict_keys by_axis) ->
  dict_get electorate (fold_left add_stats by_axis stats) =
  match dict_get electorate by_axis with
  | Some clinics => Some (stats_of clinics)
  | None => dict_get electorate stats
  end.
Proof.
  induction by_axis as [|[k cs] d IH]; intros stats e Hnd; simpl; auto.
  simpl in Hnd. inversion Hnd as [|? ? Hk Hd]; subst.
  rewrite IH by assumption. unfold add_stats. simpl.
  destruct (String.eqb e k) eqn:E.
  - apply String.eqb_eq in E. subst e.
    apply dict_get_None_keys in Hk. rewrite Hk.
    apply dict_get_set_same.
  - apply String.eqb_neq in E.
    destruct (dict_get e d); auto.
    apply dict_get_set_other. congruence.
Qed.

(** The statistics of an electorate are those of its bucket. *)
Lemma make_stats_get axis results electorate :
  dict_get electorate (make_stats (group_by axis results)) =
  match assigned axis electorate results with
  | [] => None
  | cs => Some (stats_of cs)
  end.
Proof.
  unfold make_stats.
  change (dict_get electorate
            (fold_left add_stats (group_by axis results) []) = 
          match assigned axis electorate results with
          | [] => None
          | cs => Some (stats_of cs)
          end).
  rewrite fold_add_stats_get by apply group_by_NoDup.
  rewrite group_by_get. now destruct (assigned axis electorate results).
Qed.

Lemma count_bulk_billed_filter results :
  count_bulk_billed results = List.length (filter is_bulk_billed results).
Proof.
  unfold count_bulk_billed.
  assert (H : forall n,
             fold_left (fun n c => if is_bulk_billed c then n + 1 else n) results n
             = n + List.length (filter is_bulk_billed results)).
  { induction results as [|c l IH]; intros n; simpl; [lia|].
    rewrite IH. destruct (is_bulk_billed c); simpl; lia. }
  apply (H 0).
Qed.

Lemma float_of_tenths_287_288 : float_of_tenths 287 <> float_of_tenths 288.
Proof.
  intros H.
  apply (f_equal (fun x => PrimFloat.eqb x (float_of_tenths 288))) in H.
  vm_compute in H. discriminate H.
Qed.

(** C4, as the code has it.  Under every electorate of either axis the
    statistics are those of the deduplicated records assigned to it: their
    number, the number of them that are bulk billed, and the percentage
    [round(bulk_billed / total * 100, 1)] in binary64 arithmetic; an
    electorate with no record has no statistics, so no division by zero
    occurs.  Three of seven give 42.9. *)
Theorem district_statistics (results : list clinic) (now electorate : string) :
  let out := snd (save_results results now) in
  let records := deduplicate results in
  dict_get electorate (state_electorate_stats out)
  = match assigned state_electorate electorate records with
    | [] => None
    | _ => Some (bucket_stats (assigned state_electorate electorate records))
    end
  /\ dict_get electorate (federal_electorate_stats out)
     = match assigned federal_electorate electorate records with
       | [] => None
       | _ => Some (bucket_stats (assigned federal_electorate electorate records))
       end
  /\ percentage_of 3 7 = float_of_tenths 429.
Proof.
  cbv zeta. unfold save_results. simpl.
  rewrite !make_stats_get.
  repeat split.
  - destruct (assigned state_electorate electorate (deduplicate results)); auto.
  - destruct (assigned federal_electorate electorate (deduplicate results)); auto.
Qed.

(** C4 fails as stated: with 23 bulk-billed clinics among 80 the exact
    value 28.75 rounds to 28.8, while the binary64 product is just under
    28.75 and the code reports 28.7. *)
Lemma percentage_differs_from_exact :
  let out := snd (save_results eighty_clinics "2026-01-01 00:00:00") in
  exists st,
    dict_get "Perth" (state_electorate_stats out) = Some st
    /\ Stats.total_clinics st = 80
    /\ Stats.bulk_billed_clinics st = 23
    /\ Stats.percentage st = float_of_tenths 287
    /\ exact_percentage_tenths 23 80 = 288%Z
    /\ Stats.percentage st
       <> exact_percentage (Stats.bulk_billed_clinics st) (Stats.total_clinics st).
Proof.
  cbv zeta.
  exists (Stats.Make 80 23 (float_of_tenths 287)).
  split; [vm_compute; reflexivity|].
  split; [reflexivity|]. split; [reflexivity|]. split; [reflexivity|].
  split; [vm_compute; reflexivity|].
  intros H.
  apply (f_equal (fun x => PrimFloat.eqb x (float_of_tenths 288))) in H.
  vm_compute in H. discriminate H.
Qed.

(** ** C9: the order of the records does not matter *)

Lemma dict_get_app {V : Type} (d1 d2 : dict V) k :
  dict_get k (d1 ++ d2) =
  match dict_get k d1 with
  | Some v => Some v
  | None => dict_get k d2
  end.
Proof.
  induction d1 as [|[k' v'] d1 IH]; simpl; auto.
  destruct (String.eqb k k'); auto.
Qed.

Lemma fold_keep_first_distinct results : forall d,
  NoDup (map url results) ->
  (forall c, In c results -> dict_get (url c) d = None) ->
  fold_left keep_first results d = d ++ map (fun c => (url c, c)) results.
Proof.
  induction results as [|c l IH]; intros d Hnd Hfresh; simpl.
  - now rewrite app_nil_r.
  - inversion Hnd as [|? ? Hc Hl]; subst.
    unfold keep_first at 2, dict_mem.
    rewrite (Hfresh c) by now left.
    rewrite dict_set_fresh by (apply Hfresh; now left).
    rewrite IH; auto.
    + now rewrite <- app_assoc.
    + intros c' Hin. rewrite dict_get_app, (Hfresh c') by now right.
      simpl. destruct (String.eqb (url c') (url c)) eqn:E; auto.
      apply String.eqb_eq in E. exfalso. apply Hc. rewrite <- E.
      now apply in_map.
Qed.

(** Records with pairwise distinct urls are all kept, in their order. *)
Lemma deduplicate_distinct results :
  NoDup (map url results) -> deduplicate results = results.
Proof.
  intros Hnd. unfold deduplicate, unique_results.
  change (dict_values (fold_left keep_first results []) = results).
  rewrite fold_keep_first_distinct by auto.
  unfold dict_values. simpl. rewrite map_map. simpl. apply map_id.
Qed.

Lemma Permutation_filter_same {A : Type} (f : A -> bool) (l l' : list A) :
  Permutation l l' -> Permutation (filter f l) (filter f l').
Proof.
  induction 1 as [|x l l' _ IH|x y l|l l' l'' _ IH1 _ IH2]; simpl.
  - constructor.
  - destruct (f x); auto.
  - destruct (f x), (f y); auto. apply perm_swap.
  - eapply perm_trans; eauto.
Qed.

Lemma bucket_stats_Permutation clinics clinics' :
  Permutation clinics clinics' -> bucket_stats clinics = bucket_stats clinics'.
Proof.
  intros H. unfold bucket_stats. cbv zeta.
  rewrite (Permutation_length H).
  now rewrite (Permutation_length (Permutation_filter_same is_bulk_billed _ _ H)).
Qed.

Lemma stats_lookup_Permutation axis electorate results results' :
  Permutation results results' ->
  dict_get electorate (make_stats (group_by axis results))
  = dict_get electorate (make_stats (group_by axis results')).
Proof.
  intros H. rewrite !make_stats_get.
  pose proof (Permutation_filter_same
                (fun c => String.eqb (axis c) electorate) _ _ H) as Hp.
  fold (assigned axis electorate results) in Hp.
  fold (assigned axis electorate results') in Hp.
  destruct (assigned axis electorate results) as [|c cs] eqn:E.
  - apply Permutation_nil in Hp. now rewrite Hp.
  - destruct (assigned axis electorate results') as [|c' cs'] eqn:E'.
    + apply Permutation_sym, Permutation_nil in Hp. discriminate Hp.
    + change (Some (bucket_stats (c :: cs)) = Some (bucket_stats (c' :: cs'))).
      f_equal. now apply bucket_stats_Permutation.
Qed.

Lemma nodup_length_Permutation (l l' : list string) :
  Permutation l l' ->
  List.length (nodup string_dec l) = List.length (nodup string_dec l').
Proof.
  intros H. apply same_members_same_length; auto using NoDup_nodup.
  intros x. rewrite !nodup_In. split; apply Permutation_in; auto.
  now apply Permutation_sym.
Qed.

(** C9.  For records with pairwise distinct urls, the aggregation of any
    permutation gives the same statistics under every electorate of either
    axis and the same summary: total clinics, bulk-billed clinics and the
    number of electorates of either axis. *)
Theorem aggregation_order_independent (results results' : list clinic)
  (now now' : string) :
  NoDup (map url results) ->
  Permutation results results' ->
  let out := snd (save_results results now) in
  let out' := snd (save_results results' now') in
  (forall electorate,
     dict_get electorate (state_electorate_stats out)
     = dict_get electorate (state_electorate_stats out'))
  /\ (forall electorate,
        dict_get electorate (federal_electorate_stats out)
        = dict_get electorate (federal_electorate_stats out'))
  /\ summary out = summary out'.
Proof.
  intros Hnd Hperm. cbv zeta. unfold save_results. simpl.
  assert (Hnd' : NoDup (map url results')).
  { eapply Permutation_NoDup; [|exact Hnd]. now apply Permutation_map. }
  rewrite !deduplicate_distinct by assumption.
  repeat split.
  - intros e. now apply stats_lookup_Permutation.
  - intros e. now apply stats_lookup_Permutation.
  - rewrite !count_bulk_billed_filter, !group_by_len.
    rewrite (Permutation_length Hperm).
    rewrite (Permutation_length
               (Permutation_filter_same is_bulk_billed _ _ Hperm)).
    rewrite (nodup_length_Permutation _ _
               (Permutation_map state_electorate Hperm)).
    rewrite (nodup_length_Permutation _ _
               (Permutation_map federal_electorate Hperm)).
    reflexivity.
Qed.

(** ** C6: the address element comes first *)

(** C6.  When the text of the address element, its white space collapsed,
    is longer than ten characters and holds "WA", [extract_address_better]
    returns that text, whatever [json.loads] would do and whatever the
    rest of the page holds: none of the later methods has a say.  The
    record built from the page carries it as its address. *)
Theorem address_element_wins (json_loads : string -> option json) (sp : soup)
  (address_elem : node) :
  find "address" sp = Some address_elem ->
  let address_text := collapse_whitespace (get_text_strip address_elem) in
  10 < String.length address_text ->
  contains "WA" address_text = true ->
  BetterAddresses.extract_address_better json_loads sp = Some address_text
  /\ (forall federal (w : web) now u search_postcode search_suburb electorate r,
        w u = Some sp ->
        BetterAddresses.get_clinic_details
          json_loads federal w now u search_postcode search_suburb electorate
        = Some r ->
        address r = address_text).
Proof.
  intros Hfind address_text Hlen Hwa.
  assert (Hex : BetterAddresses.extract_address_better json_loads sp
                = Some address_text).
  { unfold BetterAddresses.extract_address_better, BetterAddresses.method1.
    rewrite Hfind. fold address_text.
    apply Nat.ltb_lt in Hlen. now rewrite Hlen, Hwa. }
  split; [exact Hex|].
  intros federal w now u pc sub el r Hw H.
  open_builder H sp'. simpl.
  assert (sp' = sp) by congruence. subst sp'.
  rewrite Hex.
  destruct address_text; [inversion Hlen|reflexivity].
Qed.

(** ** C7: a page without an address *)

(** C7, as the code has it.  In the improved-address script a page on which
    [extract_address_better] returns nothing gets the address
    "<search suburb>, WA <search postcode>".  The two other scripts do not
    run the five methods: a page without an address element (and, in the
    state-only script, without a [p] or [div] that holds "WA" and a digit)
    gets the address "Unknown". *)
Theorem address_when_absent :
  (forall json_loads federal (w : web) now u search_postcode search_suburb
          electorate sp r,
     w u = Some sp ->
     BetterAddresses.extract_address_better json_loads sp = None ->
     BetterAddresses.get_clinic_details
       json_loads federal w now u search_postcode search_suburb electorate
     = Some r ->
     address r = (search_suburb ++ ", WA " ++ search_postcode)%string)
  /\ (forall federal (w : web) now u search_postcode search_suburb electorate
             sp r,
        w u = Some sp ->
        find "address" sp = None ->
        StateAndFederal.get_clinic_details
          federal w now u search_postcode search_suburb electorate = Some r ->
        address r = "Unknown")
  /\ (forall (w : web) now u search_postcode search_suburb electorate sp r,
        w u = Some sp ->
        find "address" sp = None ->
        Fixed.address_scan (find_all ["p"; "div"] sp) = "" ->
        Fixed.get_clinic_details
          w now u search_postcode search_suburb electorate = Some r ->
        Fixed.address r = "Unknown").
Proof.
  repeat split.
  - intros json_loads federal w now u pc sub el sp r Hw Hex H.
    open_builder H sp'. simpl.
    assert (sp' = sp) by congruence. subst sp'.
    now rewrite Hex.
  - intros federal w now u pc sub el sp r Hw Hfind H.
    open_builder H sp'. simpl.
    assert (sp' = sp) by congruence. subst sp'.
    now rewrite Hfind.
  - intros w now u pc sub el sp r Hw Hfind Hscan H.
    open_builder H sp'. simpl.
    assert (sp' = sp) by congruence. subst sp'.
    now rewrite Hfind, Hscan.
Qed.

(** C7 fails as stated: on [bare_page] each of the five methods fails, and
    the state-and-federal script records the address "Unknown", not
    "Perth, WA 6000". *)
Lemma unknown_address_not_placeholder :
  (forall json_loads,
     BetterAddresses.extract_address_better json_loads bare_page = None)
  /\ exists r,
       StateAndFederal.get_clinic_details
         (load_federal_mapping sample_federal_rows) (only_page bare_page)
         sample_now sample_url "6000" "Perth" "Perth" = Some r
       /\ address r = "Unknown"
       /\ address r <> BetterAddresses.placeholder_address "Perth" "6000".
Proof.
  split.
  - intros json_loads. vm_compute. reflexivity.
  - eexists. split; [lazy; reflexivity|]. split; [reflexivity|].
    simpl. discriminate.
Qed.

(** ** C8: the telephone number *)

(** The rule of the improved-address script and of the state-only script:
    the text of the first anchor whose [href] holds "tel:", else the first
    telephone-shaped stretch of the page text, else "N/A". *)
Lemma phone_rule_better json_loads federal (w : web) now u search_postcode
  search_suburb electorate sp r :
  w u = Some sp ->
  BetterAddresses.get_clinic_details
    json_loads federal w now u search_postcode search_suburb electorate
  = Some r ->
  phone r =
  match find_a_href re_tel sp with
  | Some phone_elem => get_text_strip phone_elem
  | None =>
      match re_search re_phone_labelled (soup_text sp) with
      | Some m => group (soup_text sp) m 1
      | None => "N/A"
      end
  end.
Proof.
  intros Hw H. open_builder H sp'. simpl.
  assert (sp' = sp) by congruence. now subst sp'.
Qed.

Lemma phone_rule_fixed (w : web) now u search_postcode search_suburb
  electorate sp r :
  w u = Some sp ->
  Fixed.get_clinic_details w now u search_postcode search_suburb electorate
  = Some r ->
  Fixed.phone r =
  match find_a_href re_tel sp with
  | Some phone_elem => get_text_strip phone_elem
  | None =>
      match re_search re_phone (soup_text sp) with
      | Some m => group (soup_text sp) m 1
      | None => "N/A"
      end
  end.
Proof.
  intros Hw H. open_builder H sp'. simpl.
  assert (sp' = sp) by congruence. now subst sp'.
Qed.

(** The rule of the state-and-federal script: the page text is not read. *)
Lemma phone_rule_state_and_federal federal (w : web) now u search_postcode
  search_suburb electorate sp r :
  w u = Some sp ->
  StateAndFederal.get_clinic_details
    federal w now u search_postcode search_suburb electorate = Some r ->
  phone r =
  match find_a_href re_tel sp with
  | Some phone_elem => get_text_strip phone_elem
  | None => "N/A"
  end.
Proof.
  intros Hw H. open_builder H sp'. simpl.
  assert (sp' = sp) by congruence. now subst sp'.
Qed.

(** C8 at [bare_page], which has no telephone link and the text
    "Phone: 08 9300 1234": the improved-address and the state-only script
    record "08 9300 1234"; the state-and-federal script records "N/A". *)
Theorem phone_fallback_by_script :
  find_a_href re_tel bare_page = None
  /\ (exists m, re_search re_phone (soup_text bare_page) = Some m
                /\ group (soup_text bare_page) m 1 = "08 9300 1234")
  /\ option_map phone
       (BetterAddresses.get_clinic_details no_json
          (load_federal_mapping sample_federal_rows) (only_page bare_page)
          sample_now sample_url "6000" "Perth" "Perth")
     = Some "08 9300 1234"
  /\ option_map Fixed.phone
       (Fixed.get_clinic_details (only_page bare_page)
          sample_now sample_url "6000" "Perth" "Perth")
     = Some "08 9300 1234"
  /\ option_map phone
       (StateAndFederal.get_clinic_details
          (load_federal_mapping sample_federal_rows) (only_page bare_page)
          sample_now sample_url "6000" "Perth" "Perth")
     = Some "N/A".
Proof.
  split; [vm_compute; reflexivity|].
  split; [eexists; split; lazy; reflexivity|].
  repeat split; vm_compute; reflexivity.
Qed.

(** ** Instances on the sample pages and tables *)

(** C6 on [subiaco_page]. *)
Lemma address_element_wins_witness :
  BetterAddresses.extract_address_better no_json subiaco_page
  = Some "5 Main Street,SUBIACO WA 6008".
Proof.
  refine (proj1 (address_element_wins no_json subiaco_page
                   (Tag "address" []
                      [NavigableString "  5 Main Street, ";
                       Tag "br" [] [];
                       NavigableString " SUBIACO   WA 6008 "]) _ _ _)).
  - reflexivity.
  - vm_compute. repeat constructor.
  - reflexivity.
Defined.

(** C9 on three records and a rotation of them. *)
Lemma aggregation_order_independent_witness :
  let out := snd (save_results [clinic_a; clinic_b; clinic_c] sample_now) in
  let out' := snd (save_results [clinic_c; clinic_a; clinic_b] sample_now) in
  (forall electorate,
     dict_get electorate (state_electorate_stats out)
     = dict_get electorate (state_electorate_stats out'))
  /\ (forall electorate,
        dict_get electorate (federal_electorate_stats out)
        = dict_get electorate (federal_electorate_stats out'))
  /\ summary out = summary out'.
Proof.
  apply (aggregation_order_independent
           [clinic_a; clinic_b; clinic_c] [clinic_c; clinic_a; clinic_b]
           sample_now sample_now).
  - simpl. repeat constructor; simpl; intuition discriminate.
  - apply Permutation_sym.
    change (Permutation ([clinic_c] ++ [clinic_a; clinic_b])
                        ([clinic_a; clinic_b] ++ [clinic_c])).
    apply Permutation_app_comm.
Defined.

(** C7 on [bare_page], in the improved-address script. *)
Lemma address_when_absent_witness :
  exists r,
    BetterAddresses.get_clinic_details no_json
      (load_federal_mapping sample_federal_rows) (only_page bare_page)
      sample_now sample_url "6000" "Perth" "Perth" = Some r
    /\ address r = "Perth, WA 6000".
Proof.
  destruct (BetterAddresses.get_clinic_details no_json
              (load_federal_mapping sample_federal_rows) (only_page bare_page)
              sample_now sample_url "6000" "Perth" "Perth") as [r|] eqn:E;
    [|vm_compute in E; discriminate E].
  exists r. split; [reflexivity|].
  apply (proj1 address_when_absent no_json
           (load_federal_mapping sample_federal_rows) (only_page bare_page)
           sample_now sample_url "6000" "Perth" "Perth" bare_page r
           eq_refl eq_refl E).
Defined.

(** C5 on the two sentences of the specification, lower-cased, and on a
    text in which a later rule holds as well as an earlier one. *)
Lemma classify_billing_priority_witness :
  classify_billing "mixed billing - fees apply for some services"
  = (false, "Mixed Billing")
  /\ classify_billing "bulk billing only for concession card holders."
     = (true, "100% Bulk Billed")
  /\ classify_billing "fully bulk billed; mixed billing after hours"
     = (true, "100% Bulk Billed")
  /\ classify_billing "private billing; fees apply"
     = (false, "Private Billing").
Proof.
  split; [|split; [|split]].
  - apply (proj1 (classify_billing_priority
                    "mixed billing - fees apply for some services"));
      reflexivity.
  - apply (proj1 (proj2 (classify_billing_priority
                           "bulk billing only for concession card holders.")));
      reflexivity.
  - apply (proj1 (proj2 (proj2 (proj2 (proj2
             (classify_billing_priority
                "fully bulk billed; mixed billing after hours")))))).
    reflexivity.
  - apply (proj1 (proj2 (proj2 (proj2 (proj2 (proj2 (proj2
             (classify_billing_priority "private billing; fees apply")))))))).
    repeat split.
Defined.

(** C2 on the sample table: an exact match, the first entry when no suburb
    matches, and a postcode that is not in the table. *)
Example get_state_electorate_sample :
  let mapping := fst (load_state_mapping sample_state_rows) in
  get_state_electorate mapping "6014" " wembley DOWNS " = Some "Nedlands"
  /\ get_state_electorate mapping "6014" "Floreat" = Some "Churchlands"
  /\ get_state_electorate mapping "6999" "Perth" = Some "Unknown".
Proof. repeat split. Qed.

(** C3 on a record fetched twice: the first is kept, one record goes. *)
Example deduplicate_sample :
  deduplicate [clinic_a; clinic_b; clinic_a_again; clinic_c]
  = [clinic_a; clinic_b; clinic_c].
Proof. reflexivity. Qed.

(** The end-to-end scenario of the specification, in the improved-address
    script, where the suburb stays the one searched for because the address
    does not write it in capitals. *)
Example end_to_end_sample :
  option_map (fun r => (suburb r, postcode r, federal_electorate r, phone r,
                        is_bulk_billed r, billing_status r))
    (BetterAddresses.get_clinic_details no_json
       (load_federal_mapping sample_federal_rows)
       (only_page
          [Tag "body" []
             [Tag "h1" [] [NavigableString "Perth Clinic"];
              Tag "address" [] [NavigableString "12 Main Street, Perth WA 6000"];
              Tag "a" [("href", "tel:0893001234")] [NavigableString "0893001234"];
              Tag "p" [] [NavigableString "Bulk billing only"]]])
       sample_now sample_url "6000" "Perth" "Perth")
  = Some ("Perth", "6000", "Perth", "0893001234", true, "100% Bulk Billed").
Proof. vm_compute. reflexivity. Qed.

(** Three bulk-billed clinics of seven: the double that prints as 42.9. *)
#[local] Set Warnings "-inexact-float".
Example percentage_3_of_7 :
  PrimFloat.eqb (percentage_of 3 7) 42.9%float = true
  /\ exact_percentage 3 7 = percentage_of 3 7.
Proof. split; vm_compute; reflexivity. Qed.

(* ================================================================== *)
(** * Further properties of the aggregation *)

Lemma existsb_eqb_In (x : string) (l : list string) :
  existsb (String.eqb x) l = true <-> In x l.
Proof.
  rewrite existsb_exists. split.
  - intros (y & Hy & E). apply String.eqb_eq in E. now subst.
  - intros H. exists x. split; [assumption|apply String.eqb_refl].
Qed.

Lemma existsb_eqb_same_members (x : string) (l l' : list string) :
  (forall u, In u l <-> In u l') ->
  existsb (String.eqb x) l = existsb (String.eqb x) l'.
Proof.
  intros H.
  destruct (existsb (String.eqb x) l) eqn:E, (existsb (String.eqb x) l') eqn:E';
    auto.
  - apply existsb_eqb_In, H, existsb_eqb_In in E. congruence.
  - apply existsb_eqb_In, H, existsb_eqb_In in E'. congruence.
Qed.

Lemma dict_mem_existsb {V : Type} (d : dict V) (k : string) :
  dict_mem k d = existsb (String.eqb k) (dict_keys d).
Proof.
  unfold dict_mem. induction d as [|[k' v] d IH]; simpl; auto.
  destruct (String.eqb k k'); auto.
Qed.

Lemma fold_keep_first_values results : forall d seen,
  (forall u, In u seen <-> In u (dict_keys d)) ->
  dict_values (fold_left keep_first results d)
  = dict_values d ++ first_seen seen results.
Proof.
  induction results as [|c l IH]; intros d seen Hseen; simpl.
  - now rewrite app_nil_r.
  - unfold keep_first at 2. rewrite dict_mem_existsb.
    rewrite (existsb_eqb_same_members _ _ _ Hseen).
    destruct (existsb (String.eqb (url c)) (dict_keys d)) eqn:E.
    + now apply IH.
    + assert (Hnone : dict_get (url c) d = None).
      { apply dict_get_None_keys. intros Hin.
        apply existsb_eqb_In in Hin. congruence. }
      rewrite dict_set_fresh by assumption.
      rewrite (IH _ (url c :: seen)).
      * unfold dict_values. rewrite map_app. simpl. now rewrite <- app_assoc.
      * intros u. unfold dict_keys. rewrite map_app, in_app_iff. simpl.
        fold (dict_keys d). rewrite <- Hseen. tauto.
Qed.

Lemma deduplicate_urls_NoDup results : NoDup (map url (deduplicate results)).
Proof.
  destruct (unique_results_invariant results) as [Hk Hn].
  unfold deduplicate. now rewrite keyed_values_urls.
Qed.

(** X1.  Deduplication keeps exactly the records whose url has not occurred
    earlier in the list, in their original order, and deduplicating a
    second time changes nothing. *)
Theorem deduplicate_is_first_seen (results : list clinic) :
  deduplicate results = first_seen [] results
  /\ deduplicate (deduplicate results) = deduplicate results.
Proof.
  split.
  - unfold deduplicate, unique_results.
    rewrite (fold_keep_first_values results [] []); [reflexivity|].
    intros u. simpl. tauto.
  - apply deduplicate_distinct, deduplicate_urls_NoDup.
Qed.

Lemma dict_get_In_NoDup {V : Type} (d : dict V) k v :
  NoDup (dict_keys d) -> In (k, v) d -> dict_get k d = Some v.
Proof.
  induction d as [|[k' v'] d IH]; simpl; [tauto|].
  intros Hnd [H|H].
  - inversion H. subst. now rewrite String.eqb_refl.
  - inversion Hnd as [|? ? Hk Hd]; subst.
    destruct (String.eqb k k') eqn:E.
    + apply String.eqb_eq in E. subst k'. exfalso. apply Hk.
      change k with (fst (k, v)). now apply in_map.
    + now apply IH.
Qed.

Lemma dict_set_present_concat {A : Type} (d : dict (list A)) k old x :
  dict_get k d = Some old ->
  Permutation (List.concat (dict_values (dict_set k (old ++ [x]) d)))
              (List.concat (dict_values d) ++ [x]).
Proof.
  induction d as [|[k' v'] d IH]; simpl; [discriminate|].
  destruct (String.eqb k k') eqn:E; intros H.
  - inversion H. subst v'. simpl.
    rewrite <- !app_assoc. apply Permutation_app_head.
    apply Permutation_app_comm.
  - simpl. rewrite <- app_assoc. apply Permutation_app_head. now apply IH.
Qed.

Lemma dict_append_concat {A : Type} (d : dict (list A)) k x :
  Permutation (List.concat (dict_values (dict_append k x d)))
              (List.concat (dict_values d) ++ [x]).
Proof.
  unfold dict_append. destruct (dict_get k d) as [old|] eqn:E.
  - now apply dict_set_present_concat.
  - rewrite dict_set_fresh by assumption.
    unfold dict_values. rewrite map_app, concat_app. simpl.
    rewrite ?app_nil_r. reflexivity.
Qed.

Lemma dict_append_keys {A : Type} (d : dict (list A)) k x :
  dict_keys (dict_append k x d)
  = if existsb (String.eqb k) (dict_keys d) then dict_keys d
    else dict_keys d ++ [k].
Proof.
  unfold dict_append. rewrite <- dict_mem_existsb. unfold dict_mem.
  destruct (dict_get k d) as [old|] eqn:E.
  - apply dict_keys_set_present. congruence.
  - rewrite dict_set_fresh by assumption.
    unfold dict_keys. now rewrite map_app.
Qed.

Section GroupingFacts.
Variable axis : clinic -> string.

Lemma fold_add_to_group_concat results : forall d,
  Permutation (List.concat (dict_values (fold_left (add_to_group axis) results d)))
              (List.concat (dict_values d) ++ results).
Proof.
  induction results as [|c l IH]; intros d; simpl.
  - now rewrite app_nil_r.
  - rewrite IH. unfold add_to_group.
    rewrite dict_append_concat. now rewrite <- app_assoc.
Qed.

(** The buckets share out the records: nothing is lost or doubled. *)
Lemma group_by_concat results :
  Permutation (List.concat (dict_values (group_by axis results))) results.
Proof. apply (fold_add_to_group_concat results []). Qed.

Lemma fold_add_to_group_keys results : forall d seen,
  (forall u, In u seen <-> In u (dict_keys d)) ->
  dict_keys (fold_left (add_to_group axis) results d)
  = dict_keys d ++ first_places seen (map axis results).
Proof.
  induction results as [|c l IH]; intros d seen Hseen; simpl.
  - now rewrite app_nil_r.
  - rewrite (existsb_eqb_same_members _ _ _ Hseen).
    pose proof (dict_append_keys d (axis c) c) as Hk.
    destruct (existsb (String.eqb (axis c)) (dict_keys d)) eqn:E.
    + rewrite (IH _ seen).
      * unfold add_to_group. now rewrite Hk.
      * intros u. unfold add_to_group. now rewrite Hk.
    + rewrite (IH _ (axis c :: seen)).
      * unfold add_to_group. rewrite Hk. now rewrite <- app_assoc.
      * intros u. unfold add_to_group. rewrite Hk, in_app_iff. simpl.
        rewrite <- Hseen. tauto.
Qed.

Lemma group_by_keys results :
  dict_keys (group_by axis results) = first_places [] (map axis results).
Proof.
  unfold group_by. rewrite (fold_add_to_group_keys results [] []); auto.
  intros u. simpl. tauto.
Qed.

Lemma group_by_nonempty results :
  Forall (fun cs => cs <> []) (dict_values (group_by axis results)).
Proof.
  apply Forall_forall. intros cs Hin.
  unfold dict_values in Hin. apply in_map_iff in Hin.
  destruct Hin as ([k cs'] & Heq & Hin). simpl in Heq. subst cs'.
  apply dict_get_In_NoDup in Hin; [|apply group_by_NoDup].
  rewrite group_by_get in Hin.
  destruct (assigned axis k results); [discriminate|].
  inversion Hin. discriminate.
Qed.
End GroupingFacts.

Lemma fold_add_stats_fresh by_axis : forall stats,
  NoDup (dict_keys by_axis) ->
  (forall k, In k (dict_keys by_axis) -> dict_get k stats = None) ->
  fold_left add_stats by_axis stats = stats ++ map stats_item by_axis.
Proof.
  induction by_axis as [|[k cs] d IH]; intros stats Hnd Hfresh; simpl.
  - now rewrite app_nil_r.
  - inversion Hnd as [|? ? Hk Hd]; subst.
    unfold add_stats at 2. simpl.
    rewrite dict_set_fresh by (apply Hfresh; now left).
    rewrite IH; auto.
    + now rewrite <- app_assoc.
    + intros k' Hin. rewrite dict_get_app, Hfresh by now right.
      simpl. destruct (String.eqb k' k) eqn:E; auto.
      apply String.eqb_eq in E. subst k'. contradiction.
Qed.

(** The statistics follow the buckets, one for one and in their order. *)
Lemma make_stats_map by_axis :
  NoDup (dict_keys by_axis) -> make_stats by_axis = map stats_item by_axis.
Proof.
  intros Hnd. unfold make_stats.
  now rewrite fold_add_stats_fresh by auto.
Qed.

Lemma list_sum_lengths {A : Type} (ls : list (list A)) :
  list_sum (map (@List.length A) ls) = List.length (List.concat ls).
Proof.
  induction ls as [|l ls IH]; simpl; auto.
  now rewrite length_app, IH.
Qed.

Lemma stats_item_sums (d : dict (list clinic)) :
  list_sum (map (fun item => Stats.total_clinics (snd (stats_item item))) d)
  = List.length (List.concat (dict_values d))
  /\ list_sum (map (fun item => Stats.bulk_billed_clinics (snd (stats_item item))) d)
     = List.length (filter is_bulk_billed (List.concat (dict_values d))).
Proof.
  induction d as [|[k cs] d [IH1 IH2]]; simpl; [auto|].
  rewrite filter_app, !length_app. split.
  - f_equal. exact IH1.
  - f_equal. exact IH2.
Qed.

Lemma bucket_totals axis results :
  list_sum (map Stats.total_clinics
              (dict_values (make_stats (group_by axis results))))
  = List.length results
  /\ list_sum (map Stats.bulk_billed_clinics
                 (dict_values (make_stats (group_by axis results))))
     = List.length (filter is_bulk_billed results).
Proof.
  rewrite make_stats_map by apply group_by_NoDup.
  unfold dict_values at 1 2. rewrite !map_map.
  pose proof (group_by_concat axis results) as Hp.
  destruct (stats_item_sums (group_by axis results)) as [H1 H2].
  rewrite H1, H2. split.
  - apply (Permutation_length Hp).
  - apply Permutation_length. now apply Permutation_filter_same.
Qed.

(** X2.  The statistics of either axis add up to the summary: the totals
    of the electorates sum to the number of clinics, and their bulk-billed
    counts to the number of bulk-billed clinics. *)
Theorem statistics_add_up (results : list clinic) (now : string) :
  let out := snd (save_results results now) in
  list_sum (map Stats.total_clinics (dict_values (state_electorate_stats out)))
  = Summary.total_clinics (summary out)
  /\ list_sum (map Stats.bulk_billed_clinics
                 (dict_values (state_electorate_stats out)))
     = Summary.bulk_billed_clinics (summary out)
  /\ list_sum (map Stats.total_clinics
                 (dict_values (federal_electorate_stats out)))
     = Summary.total_clinics (summary out)
  /\ list_sum (map Stats.bulk_billed_clinics
                 (dict_values (federal_electorate_stats out)))
     = Summary.bulk_billed_clinics (summary out).
Proof.
  cbv zeta. unfold save_results. simpl.
  rewrite count_bulk_billed_filter.
  destruct (bucket_totals state_electorate (deduplicate results)) as [H1 H2].
  destruct (bucket_totals federal_electorate (deduplicate results)) as [H3 H4].
  auto.
Qed.

(** X3.  The grouping of either axis holds, under each electorate, exactly
    the deduplicated records of that electorate in their order, and no
    empty bucket; its keys are the electorates in the order of their first
    record, and the summary counts them. *)
Theorem buckets_of_save_results (results : list clinic) (now : string) :
  let out := snd (save_results results now) in
  let records := deduplicate results in
  (forall electorate,
     dict_get electorate (by_state_electorate out)
     = match assigned state_electorate electorate records with
       | [] => None
       | _ => Some (assigned state_electorate electorate records)
       end)
  /\ (forall electorate,
        dict_get electorate (by_federal_electorate out)
        = match assigned federal_electorate electorate records with
          | [] => None
          | _ => Some (assigned federal_electorate electorate records)
          end)
  /\ dict_keys (by_state_electorate out)
     = first_places [] (map state_electorate records)
  /\ dict_keys (by_federal_electorate out)
     = first_places [] (map federal_electorate records)
  /\ Summary.state_electorates_covered (summary out)
     = List.length (first_places [] (map state_electorate records))
  /\ Summary.federal_electorates_covered (summary out)
     = List.length (first_places [] (map federal_electorate records)).
Proof.
  cbv zeta. unfold save_results. simpl.
  repeat split.
  - intros e. rewrite group_by_get.
    now destruct (assigned state_electorate e (deduplicate results)).
  - intros e. rewrite group_by_get.
    now destruct (assigned federal_electorate e (deduplicate results)).
  - apply group_by_keys.
  - apply group_by_keys.
  - unfold dict_len. rewrite <- (length_map fst).
    fold (dict_keys (group_by state_electorate (deduplicate results))).
    now rewrite group_by_keys.
  - unfold dict_len. rewrite <- (length_map fst).
    fold (dict_keys (group_by federal_electorate (deduplicate results))).
    now rewrite group_by_keys.
Qed.

Lemma stats_bounds axis results :
  Forall (fun st => 1 <= Stats.total_clinics st
                    /\ Stats.bulk_billed_clinics st <= Stats.total_clinics st)
         (dict_values (make_stats (group_by axis results))).
Proof.
  rewrite make_stats_map by apply group_by_NoDup.
  unfold dict_values. rewrite map_map. simpl.
  pose proof (group_by_nonempty axis results) as Hne.
  unfold dict_values in Hne. rewrite Forall_map in Hne |- *.
  eapply Forall_impl; [|exact Hne].
  intros [k cs] Hcs. simpl in *. split.
  - destruct cs; [congruence|simpl; lia].
  - apply filter_length_le.
Qed.

(** X4.  The statistics of either axis have the keys of the grouping, in
    the same order; every entry counts at least one clinic and no more
    bulk-billed clinics than clinics. *)
Theorem statistics_follow_buckets (results : list clinic) (now : string) :
  let out := snd (save_results results now) in
  dict_keys (state_electorate_stats out) = dict_keys (by_state_electorate out)
  /\ dict_keys (federal_electorate_stats out)
     = dict_keys (by_federal_electorate out)
  /\ Forall (fun st => 1 <= Stats.total_clinics st
                       /\ Stats.bulk_billed_clinics st <= Stats.total_clinics st)
            (dict_values (state_electorate_stats out)
             ++ dict_values (federal_electorate_stats out)).
Proof.
  cbv zeta. unfold save_results. simpl.
  repeat split.
  - rewrite make_stats_map by apply group_by_NoDup.
    unfold dict_keys. now rewrite map_map.
  - rewrite make_stats_map by apply group_by_NoDup.
    unfold dict_keys. now rewrite map_map.
  - apply Forall_app. split; apply stats_bounds.
Qed.

(** X5.  Saving is idempotent: the record list left behind by
    [save_results] is the deduplicated one, and saving it again leaves the
    same list and writes the same document. *)
Theorem save_results_idempotent (results : list clinic) (now : string) :
  let saved := save_results results now in
  fst saved = deduplicate results
  /\ save_results (fst saved) now = saved.
Proof.
  cbv zeta. unfold save_results. simpl. split; [reflexivity|].
  assert (E : deduplicate (deduplicate results) = deduplicate results)
    by apply deduplicate_distinct, deduplicate_urls_NoDup.
  now rewrite E.
Qed.

(* ================================================================== *)
(** * Further properties of the reference tables *)

Lemma load_state_mapping_snd_fold rows : forall (m : state_mapping) searches,
  snd (fold_left
         (fun (acc : state_mapping * list search_entry) (row : state_row) =>
            let electorate := Electorate row in
            let suburb := Suburb row in
            let postcode := Postcode row in
            (dict_append postcode (Entry electorate suburb) (fst acc),
             snd acc ++ [SearchEntry suburb postcode electorate]))
         rows (m, searches))
  = searches ++ map search_of_row rows.
Proof.
  induction rows as [|row rows IH]; intros m searches; simpl.
  - now rewrite app_nil_r.
  - rewrite IH. simpl. now rewrite <- app_assoc.
Qed.

Lemma fold_add_row_keys rows : forall (m : state_mapping) seen,
  (forall u, In u seen <-> In u (dict_keys m)) ->
  dict_keys (fold_left add_row rows m)
  = dict_keys m ++ first_places seen (map Postcode rows).
Proof.
  induction rows as [|row rows IH]; intros m seen Hseen; simpl.
  - now rewrite app_nil_r.
  - rewrite (existsb_eqb_same_members _ _ _ Hseen).
    pose proof (dict_append_keys m (Postcode row)
                  (Entry (Electorate row) (Suburb row))) as Hk.
    fold (add_row m row) in Hk.
    destruct (existsb (String.eqb (Postcode row)) (dict_keys m)) eqn:E.
    + rewrite (IH _ seen); [now rewrite Hk|].
      intros u. now rewrite Hk.
    + rewrite (IH _ (Postcode row :: seen)).
      * rewrite Hk. now rewrite <- app_assoc.
      * intros u. rewrite Hk, in_app_iff. simpl. rewrite <- Hseen. tauto.
Qed.

(** X6.  [load_state_mapping] files every row under its postcode, in row
    order, and files nothing else: a postcode is in the table exactly when
    a row has it, and never with an empty list.  The postcodes stand in the
    order of their first row, and the search list has one search per row,
    in row order. *)
Theorem load_state_mapping_content (rows : list state_row) :
  (forall postcode,
     dict_get postcode (fst (load_state_mapping rows))
     = match entries_for postcode rows with
       | [] => None
       | _ => Some (entries_for postcode rows)
       end)
  /\ dict_keys (fst (load_state_mapping rows))
     = first_places [] (map Postcode rows)
  /\ snd (load_state_mapping rows) = map search_of_row rows.
Proof.
  repeat split.
  - intros postcode. rewrite load_state_mapping_get.
    now destruct (entries_for postcode rows).
  - rewrite load_state_mapping_fst.
    rewrite (fold_add_row_keys rows [] []); [reflexivity|].
    intros u. simpl. tauto.
  - unfold load_state_mapping.
    now rewrite load_state_mapping_snd_fold.
Qed.

Lemma fold_add_federal_row_get rows : forall (m : federal_mapping) key,
  dict_get key (fold_left add_federal_row rows m)
  = match List.find
            (fun row => String.eqb
                          (federal_key (Federal_Postcode row) (Federal_Suburb row))
                          key)
            (rev rows) with
    | Some row => Some (Federal_Electorate row)
    | None => dict_get key m
    end.
Proof.
  induction rows as [|row rows IH] using rev_ind; intros m key; simpl; auto.
  rewrite fold_left_app, rev_app_distr. simpl.
  unfold add_federal_row at 1.
  destruct (String.eqb (federal_key (Federal_Postcode row) (Federal_Suburb row))
                       key) eqn:E.
  - apply String.eqb_eq in E. subst key. apply dict_get_set_same.
  - apply String.eqb_neq in E.
    rewrite dict_get_set_other by assumption. apply IH.
Qed.

(** X7.  [get_federal_electorate] on a table built by
    [load_federal_mapping] returns the electorate of the last row filed
    under the key of the query (a later row overwrites an earlier one with
    the same key), and "Unknown" when no row has that key. *)
Theorem federal_lookup_last_row (rows : list federal_row)
  (postcode suburb : string) :
  get_federal_electorate (load_federal_mapping rows) postcode suburb
  = match List.find (federal_row_answers postcode suburb) (rev rows) with
    | Some row => Federal_Electorate row
    | None => "Unknown"
    end.
Proof.
  unfold get_federal_electorate, load_federal_mapping.
  change (fold_left _ rows []) with (fold_left add_federal_row rows []).
  rewrite fold_add_federal_row_get. unfold federal_row_answers. simpl.
  now destruct (List.find _ (rev rows)).
Qed.

Lemma find_map_filter {A B : Type} (g : A -> B) (h : A -> bool)
  (P : B -> bool) (l : list A) :
  List.find P (map g (filter h l))
  = option_map g (List.find (fun x => h x && P (g x)) l).
Proof.
  induction l as [|x l IH]; simpl; auto.
  destruct (h x); simpl; auto.
  destruct (P (g x)); auto.
Qed.

Lemma find_some_of_In {A : Type} (f : A -> bool) (l : list A) (x : A) :
  In x l -> f x = true -> exists y, List.find f l = Some y.
Proof.
  induction l as [|a l IH]; simpl; [tauto|].
  intros [->|Hin] Hf.
  - rewrite Hf. eauto.
  - destruct (f a); eauto.
Qed.

(** X8.  Every suburb of the state table resolves to an electorate of the
    table, never to "Unknown" and never by the fall-back: for a row of the
    table, [get_state_electorate] of its postcode and suburb is the
    electorate of the first row with that postcode and that suburb up to
    normalisation (the row itself when there is no earlier one). *)
Theorem state_row_resolves (rows : list state_row) (row : state_row) :
  In row rows ->
  exists first,
    List.find (state_row_answers (Postcode row) (Suburb row)) rows = Some first
    /\ get_state_electorate (fst (load_state_mapping rows))
         (Postcode row) (Suburb row)
       = Some (Electorate first).
Proof.
  intros Hin.
  destruct (find_some_of_In (state_row_answers (Postcode row) (Suburb row))
              rows row Hin) as [first Hfirst].
  { unfold state_row_answers. now rewrite !String.eqb_refl. }
  exists first. split; [assumption|].
  unfold get_state_electorate. rewrite load_state_mapping_get.
  assert (Hfm : first_matching (strip (lower (Suburb row)))
                  (entries_for (Postcode row) rows)
                = Some (Electorate first)).
  { rewrite first_matching_find. unfold entries_for.
    rewrite find_map_filter. simpl.
    fold (normalize (Suburb row)).
    change (fun x : state_row =>
              String.eqb (Postcode x) (Postcode row)
              && String.eqb (normalize (Suburb x)) (normalize (Suburb row)))
      with (state_row_answers (Postcode row) (Suburb row)).
    now rewrite Hfirst. }
  destruct (entries_for (Postcode row) rows) as [|e es] eqn:E.
  - simpl in Hfm. discriminate.
  - now rewrite Hfm.
Qed.

(** X8 on the sample table. *)
Lemma state_row_resolves_witness :
  exists first,
    List.find (state_row_answers "6014" "Wembley Downs") sample_state_rows
    = Some first
    /\ get_state_electorate (fst (load_state_mapping sample_state_rows))
         "6014" "Wembley Downs"
       = Some (Electorate first).
Proof.
  apply (state_row_resolves sample_state_rows
           (StateRow "Nedlands" "Wembley Downs" "6014")).
  simpl. tauto.
Defined.

(** X9.  On a table built by [load_state_mapping] the state resolver never
    fails, and its answer is "Unknown" for a postcode no row has, and
    otherwise the electorate of a row with that postcode. *)
Theorem state_answer_from_table (rows : list state_row)
  (postcode suburb : string) :
  exists electorate,
    get_state_electorate (fst (load_state_mapping rows)) postcode suburb
    = Some electorate
    /\ ((electorate = "Unknown" /\ ~ In postcode (map Postcode rows))
        \/ In electorate
             (map Electorate
                (filter (fun row => String.eqb (Postcode row) postcode) rows))).
Proof.
  unfold get_state_electorate. rewrite load_state_mapping_get.
  unfold entries_for.
  remember (filter (fun row => String.eqb (Postcode row) postcode) rows)
    as same eqn:Hsame.
  destruct same as [|r0 others].
  - simpl. exists "Unknown". split; [reflexivity|]. left. split; [reflexivity|].
    intros Hin. apply in_map_iff in Hin. destruct Hin as (r & Hr & Hin).
    assert (In r []) as [].
    rewrite Hsame. apply filter_In. split; [assumption|].
    now apply String.eqb_eq.
  - cbn [map]. rewrite first_matching_find.
    destruct (List.find _ _) as [e|] eqn:F.
    + exists (entry_electorate e). split; [reflexivity|]. right.
      apply find_some in F. destruct F as [F _].
      change (Entry (Electorate r0) (Suburb r0)
              :: map (fun row => Entry (Electorate row) (Suburb row)) others)
        with (map (fun row => Entry (Electorate row) (Suburb row))
                  (r0 :: others)) in F.
      apply in_map_iff in F. destruct F as (r & <- & Hin).
      exact (in_map Electorate (r0 :: others) r Hin).
    + exists (Electorate r0). split; [reflexivity|]. right. simpl. now left.
Qed.

Lemma key_parts_equal (p p' a b : string) :
  no_underscore p = true -> no_underscore p' = true ->
  (p ++ "_" ++ a)%string = (p' ++ "_" ++ b)%string -> p = p' /\ a = b.
Proof.
  unfold no_underscore. revert p'.
  induction p as [|c p IH]; intros [|c' p'] Hp Hp' H; simpl in *.
  - inversion H. auto.
  - inversion H. subst c'. simpl in Hp'. discriminate.
  - inversion H. subst c. simpl in Hp. discriminate.
  - inversion H. subst c'.
    apply negb_true_iff, orb_false_iff in Hp. destruct Hp as [_ Hp].
    apply negb_true_iff, orb_false_iff in Hp'. destruct Hp' as [_ Hp'].
    destruct (IH p') as [-> ->]; auto; now apply negb_true_iff.
Qed.

(** X10.  For postcodes that hold no underscore, two queries have the same
    federal key exactly when they have the same postcode and the same
    suburb up to normalisation; in the keys the table is built with, a
    postcode with an underscore can collide with another one. *)
Theorem federal_key_injective (postcode suburb postcode' suburb' : string) :
  no_underscore postcode = true ->
  no_underscore postcode' = true ->
  (federal_key postcode suburb = federal_key postcode' suburb'
   <-> postcode = postcode' /\ normalize suburb = normalize suburb').
Proof.
  intros Hp Hp'. unfold federal_key. fold (normalize suburb) (normalize suburb').
  split.
  - now apply key_parts_equal.
  - intros [-> ->]. reflexivity.
Qed.

(** X10 on two spellings of one suburb. *)
Lemma federal_key_injective_witness :
  federal_key "6008" " SUBIACO " = federal_key "6008" "Subiaco"
  <-> "6008" = "6008" /\ normalize " SUBIACO " = normalize "Subiaco".
Proof.
  apply (federal_key_injective "6008" " SUBIACO " "6008" "Subiaco");
    reflexivity.
Defined.

(** With an underscore in the postcode two different queries share a key. *)
Example federal_key_collision :
  federal_key "60_0" "x" = federal_key "60" "0_x".
Proof. reflexivity. Qed.

Lemma lower_char_idempotent (c : ascii) : lower_char (lower_char c) = lower_char c.
Proof.
  destruct c as [[] [] [] [] [] [] [] []]; reflexivity.
Qed.

Lemma is_space_lower_char (c : ascii) : is_space (lower_char c) = is_space c.
Proof.
  destruct c as [[] [] [] [] [] [] [] []]; reflexivity.
Qed.

Lemma lower_idempotent (s : string) : lower (lower s) = lower s.
Proof.
  induction s as [|c s IH]; simpl; auto.
  now rewrite lower_char_idempotent, IH.
Qed.

Lemma lower_lstrip (s : string) : lower (lstrip s) = lstrip (lower s).
Proof.
  induction s as [|c s IH]; simpl; auto.
  rewrite is_space_lower_char. destruct (is_space c); auto.
Qed.

Lemma lower_rstrip (s : string) : lower (rstrip s) = rstrip (lower s).
Proof.
  induction s as [|c s IH]; simpl; auto.
  rewrite <- IH, is_space_lower_char.
  destruct (rstrip s); simpl; auto.
  destruct (is_space c); auto.
Qed.

Lemma lstrip_idempotent (s : string) : lstrip (lstrip s) = lstrip s.
Proof.
  induction s as [|c s IH]; simpl; auto.
  destruct (is_space c) eqn:E; auto.
  simpl. now rewrite E.
Qed.

Lemma rstrip_idempotent (s : string) : rstrip (rstrip s) = rstrip s.
Proof.
  induction s as [|c s IH]; simpl; auto.
  destruct (rstrip s) as [|c' r] eqn:E.
  - destruct (is_space c) eqn:Ec; simpl; auto. now rewrite Ec.
  - simpl in *. now rewrite IH.
Qed.

Lemma lstrip_rstrip (s : string) : lstrip (rstrip s) = rstrip (lstrip s).
Proof.
  induction s as [|c s IH]; simpl; auto.
  destruct (is_space c) eqn:Ec.
  - rewrite <- IH. destruct (rstrip s) as [|c' r] eqn:E; simpl;
      rewrite ?Ec; reflexivity.
  - destruct (rstrip s) as [|c' r] eqn:E; simpl; rewrite ?Ec, ?E; reflexivity.
Qed.

Lemma strip_idempotent (s : string) : strip (strip s) = strip s.
Proof.
  unfold strip.
  now rewrite lstrip_rstrip, lstrip_idempotent, rstrip_idempotent.
Qed.

Lemma lower_strip (s : string) : lower (strip s) = strip (lower s).
Proof. unfold strip. now rewrite lower_rstrip, lower_lstrip. Qed.

(** X11.  Normalising a suburb is idempotent and absorbs lower-casing and
    stripping, and both resolvers read the suburb only through its
    normalisation: they answer alike for a suburb and for its normal form,
    its lower-cased form or its stripped form. *)
Theorem resolvers_read_normal_form (suburb : string) :
  normalize (normalize suburb) = normalize suburb
  /\ normalize (lower suburb) = normalize suburb
  /\ normalize (strip suburb) = normalize suburb
  /\ (forall (mapping : state_mapping) postcode variant,
        In variant [normalize suburb; lower suburb; strip suburb] ->
        get_state_electorate mapping postcode variant
        = get_state_electorate mapping postcode suburb)
  /\ (forall (mapping : federal_mapping) postcode variant,
        In variant [normalize suburb; lower suburb; strip suburb] ->
        get_federal_electorate mapping postcode variant
        = get_federal_electorate mapping postcode suburb).
Proof.
  assert (H1 : normalize (normalize suburb) = normalize suburb).
  { unfold normalize.
    now rewrite lower_strip, lower_idempotent, strip_idempotent. }
  assert (H2 : normalize (lower suburb) = normalize suburb).
  { unfold normalize. now rewrite lower_idempotent. }
  assert (H3 : normalize (strip suburb) = normalize suburb).
  { unfold normalize. now rewrite lower_strip, strip_idempotent. }
  assert (Hv : forall variant,
             In variant [normalize suburb; lower suburb; strip suburb] ->
             normalize variant = normalize suburb).
  { intros v [<-|[<-|[<-|[]]]]; assumption. }
  repeat split; auto.
  - intros mapping postcode variant Hin. unfold get_state_electorate.
    fold (normalize variant) (normalize suburb). now rewrite (Hv _ Hin).
  - intros mapping postcode variant Hin.
    unfold get_federal_electorate, federal_key.
    fold (normalize variant) (normalize suburb). now rewrite (Hv _ Hin).
Qed.

(* ================================================================== *)
(** * The suburb in the search address *)

Lemma run_Rep (greedy : bool) (lo : nat) (hi : option nat) (r1 : regex)
  (st : mstate) (k : mstate -> option mstate) :
  run (Rep greedy lo hi r1) st k
  = rep_loop greedy lo hi r1 k (S (String.length (rest st))) 0 st.
Proof. reflexivity. Qed.

Lemma search_from_start (r : regex) :
  forall s i pv m, search_from r s i pv = Some m -> i <= m_start m.
Proof.
  induction s as [|c s IH]; intros i pv m; simpl;
    destruct (run r _ Some) eqn:E; intros H; inversion H; subst; simpl; auto.
  apply IH in H. lia.
Qed.

Lemma search_next_false (r : regex) (s : string) (i : nat) (pv : option ascii) :
  search_next r s i pv false = search_from r s i pv.
Proof.
  unfold search_next, match_at. destruct s; reflexivity.
Qed.

Lemma substring_0_0 (s : string) : substring 0 0 s = EmptyString.
Proof. destruct s; reflexivity. Qed.

Lemma sub_from_skip (r : regex) (repl : string) (c : ascii) (s : string)
  (i : nat) (pv : option ascii) (adv : bool) (fuel : nat) :
  match_at r (String c s) i pv adv = None ->
  sub_from (S fuel) r repl (String c s) i pv adv
  = String c (sub_from (S fuel) r repl s (S i) (Some c) false).
Proof.
  intros H.
  cbn [sub_from]. rewrite search_next_false.
  unfold search_next. rewrite H.
  destruct (search_from r s (S i) (Some c)) as [m|] eqn:E; auto.
  apply search_from_start in E.
  replace (m_start m - i) with (S (m_start m - S i)) by lia.
  reflexivity.
Qed.

Lemma sub_from_hit (r : regex) (repl s : string) (i : nat)
  (pv : option ascii) (adv : bool) (fuel : nat) (st : mstate) :
  match_at r s i pv adv = Some st ->
  sub_from (S fuel) r repl s i pv adv
  = append repl (sub_from fuel r repl (rest st) (pos st) (prev st) (pos st =? i)).
Proof.
  intros H. cbn [sub_from]. unfold search_next. rewrite H.
  cbn [m_start m_final]. now rewrite Nat.sub_diag, substring_0_0.
Qed.

Lemma sub_from_empty (r : regex) (repl : string) (i : nat)
  (pv : option ascii) (adv : bool) (fuel : nat) :
  match_at r EmptyString i pv adv = None ->
  sub_from fuel r repl EmptyString i pv adv = EmptyString.
Proof.
  intros H. destruct fuel; auto. cbn [sub_from]. unfold search_next.
  now rewrite H.
Qed.

Lemma succ_eqb_false (i : nat) : (S i =? i) = false.
Proof. apply Nat.eqb_neq. lia. Qed.

Lemma match_at_chr (p : cls) (c : ascii) (s : string) (i : nat)
  (pv : option ascii) (adv : bool) :
  match_at (Chr p) (String c s) i pv adv
  = if p c then Some (MState s (S i) (Some c) []) else None.
Proof.
  unfold match_at. cbn [run rest pos caps]. destruct (p c); auto.
  now rewrite succ_eqb_false, Bool.andb_false_r.
Qed.

(** [re.sub] of a one-character class rewrites character by character. *)
Lemma sub_from_chr (p : cls) (repl : string) :
  forall s fuel i pv adv, String.length s < fuel ->
    sub_from fuel (Chr p) repl s i pv adv = replace_chars p repl s.
Proof.
  induction s as [|c s IH]; intros fuel i pv adv Hf.
  - apply sub_from_empty. reflexivity.
  - destruct fuel as [|fuel]; [simpl in Hf; lia|].
    simpl in Hf. cbn [replace_chars].
    pose proof (match_at_chr p c s i pv adv) as Hm.
    destruct (p c) eqn:Ep.
    + rewrite (sub_from_hit _ _ _ _ _ _ _ _ Hm).
      cbn [rest pos prev]. rewrite IH by lia. reflexivity.
    + rewrite (sub_from_skip _ _ _ _ _ _ _ _ Hm).
      rewrite IH by (simpl; lia). reflexivity.
Qed.

Lemma re_sub_chr (p : cls) (repl s : string) :
  re_sub (Chr p) repl s = replace_chars p repl s.
Proof. unfold re_sub. apply sub_from_chr. lia. Qed.
Lemma rep_loop_S (greedy : bool) (lo : nat) (hi : option nat) (r1 : regex)
  (k : mstate -> option mstate) (fuel n : nat) (st0 : mstate) :
  rep_loop greedy lo hi r1 k (S fuel) n st0
  = let again (_ : unit) :=
      if below n hi then
        run r1 st0
          (fun st1 =>
             if pos st0 <? pos st1
             then rep_loop greedy lo hi r1 k fuel (S n) st1 else None)
      else None in
    let leave (_ : unit) := if lo <=? n then k st0 else None in
    if greedy then
      match again tt with Some m => Some m | None => leave tt end
    else
      match leave tt with Some m => Some m | None => again tt end.
Proof. reflexivity. Qed.

Lemma advance_rest (p : cls) :
  forall s i pv cs, rest (advance p s i pv cs) = drop_while p s.
Proof.
  induction s as [|c s IH]; intros; simpl; auto.
  destruct (p c); auto.
Qed.

Lemma drop_while_length (p : cls) (s : string) :
  String.length (drop_while p s) <= String.length s.
Proof.
  induction s as [|c s IH]; simpl; auto.
  destruct (p c); simpl; lia.
Qed.

(** A greedy run of one class, once begun, reads the longest run when
    the rest of the pattern accepts whatever follows. *)
Lemma rep_loop_plus_chr (p : cls) (k : mstate -> option mstate) :
  forall s fuel n i pv cs,
    String.length s < fuel -> 1 <= n ->
    (forall st, i <= pos st -> k st = Some st) ->
    rep_loop true 1 None (Chr p) k fuel n (MState s i pv cs)
    = Some (advance p s i pv cs).
Proof.
  induction s as [|c s IH]; intros fuel n i pv cs Hf Hn Hk;
    (destruct fuel as [|fuel]; [simpl in Hf; lia|]); rewrite rep_loop_S;
    cbn [below run rest pos caps advance].
  - replace (1 <=? n) with true by (symmetry; apply Nat.leb_le; lia).
    apply Hk. simpl. lia.
  - destruct (p c) eqn:Ep.
    + replace (i <? S i) with true by (symmetry; apply Nat.ltb_lt; lia).
      rewrite IH; auto.
      * simpl in Hf. lia.
      * intros st Hst. apply Hk. lia.
    + replace (1 <=? n) with true by (symmetry; apply Nat.leb_le; lia).
      apply Hk. simpl. lia.
Qed.

Lemma match_at_plus_chr_empty (p : cls) (i : nat) (pv : option ascii)
  (adv : bool) :
  match_at (Plus (Chr p)) EmptyString i pv adv = None.
Proof. reflexivity. Qed.

Lemma match_at_plus_chr (p : cls) (c : ascii) (s : string) (i : nat)
  (pv : option ascii) (adv : bool) :
  match_at (Plus (Chr p)) (String c s) i pv adv
  = if p c then Some (advance p s (S i) (Some c) []) else None.
Proof.
  unfold match_at, Plus. rewrite run_Rep, rep_loop_S.
  cbn [below run rest pos caps]. destruct (p c) eqn:Ep; auto.
  replace (i <? S i) with true by (symmetry; apply Nat.ltb_lt; lia).
  rewrite rep_loop_plus_chr; auto.
  intros st Hst.
  replace (pos st =? i) with false by (symmetry; apply Nat.eqb_neq; lia).
  now rewrite Bool.andb_false_r.
Qed.

Lemma squeeze_in_run (p : cls) (repl : string) (s : string) :
  squeeze p repl true s = squeeze p repl false (drop_while p s).
Proof.
  induction s as [|c s IH]; simpl; auto.
  destruct (p c) eqn:Ep; auto. simpl. now rewrite Ep.
Qed.

(** [re.sub] of [p+] rewrites each longest run of [p] once. *)
Lemma sub_from_plus_chr (p : cls) (repl : string) :
  forall n s fuel i pv adv,
    String.length s <= n -> String.length s < fuel ->
    sub_from fuel (Plus (Chr p)) repl s i pv adv = squeeze p repl false s.
Proof.
  induction n as [|n IH]; intros s fuel i pv adv Hn Hf;
    destruct s as [|c s]; try (simpl in Hn; lia);
    try (apply sub_from_empty; apply match_at_plus_chr_empty).
  destruct fuel as [|fuel]; [simpl in Hf; lia|].
  simpl in Hn, Hf. cbn [squeeze].
  pose proof (match_at_plus_chr p c s i pv adv) as Hm.
  pose proof (drop_while_length p s) as Hd.
  destruct (p c) eqn:Ep.
  - rewrite (sub_from_hit _ _ _ _ _ _ _ _ Hm).
    rewrite advance_rest, IH by lia.
    now rewrite squeeze_in_run.
  - rewrite (sub_from_skip _ _ _ _ _ _ _ _ Hm).
    rewrite IH by (simpl; lia). reflexivity.
Qed.

Lemma re_sub_plus_chr (p : cls) (repl s : string) :
  re_sub (Plus (Chr p)) repl s = squeeze p repl false s.
Proof.
  unfold re_sub. apply sub_from_plus_chr with (n := String.length s); lia.
Qed.

(** X12. The two substitutions of [normalize_suburb_for_url] are what
    their patterns say, for every subject: [re.sub] of a one-character
    class rewrites each character of the class, [re.sub] of a repeated
    class rewrites each longest run once.  So the suburb of the search
    address is the lower-cased, stripped suburb without the characters
    that are neither word characters, white space nor hyphens, and with
    one hyphen for every run of white space. *)
Theorem normalize_suburb_for_url_spec :
  (forall p repl s, re_sub (Chr p) repl s = replace_chars p repl s)
  /\ (forall p repl s, re_sub (Plus (Chr p)) repl s = squeeze p repl false s)
  /\ forall suburb,
       normalize_suburb_for_url suburb
       = squeeze is_space "-" false
           (replace_chars url_unsafe "" (strip (lower suburb))).
Proof.
  split; [exact re_sub_chr|]. split; [exact re_sub_plus_chr|].
  intros suburb. unfold normalize_suburb_for_url, re_unsafe, re_spaces, ws.
  now rewrite re_sub_chr, re_sub_plus_chr.
Qed.
Lemma all_chars_app (p : cls) (a b : string) :
  all_chars p (a ++ b) = all_chars p a && all_chars p b.
Proof.
  induction a as [|c a IH]; simpl; auto.
  now rewrite IH, Bool.andb_assoc.
Qed.

Lemma all_chars_weaken (p q : cls) (s : string) :
  (forall c, p c = true -> q c = true) ->
  all_chars p s = true -> all_chars q s = true.
Proof.
  intros Hpq. induction s as [|c s IH]; simpl; auto.
  intros H. apply Bool.andb_true_iff in H as [Hc Hs].
  apply Bool.andb_true_iff. auto.
Qed.

Lemma all_chars_and (p q : cls) (s : string) :
  all_chars p s = true -> all_chars q s = true ->
  all_chars (fun c => p c && q c) s = true.
Proof.
  induction s as [|c s IH]; simpl; auto.
  intros Hp Hq.
  apply Bool.andb_true_iff in Hp as [Hp1 Hp2].
  apply Bool.andb_true_iff in Hq as [Hq1 Hq2].
  now rewrite Hp1, Hq1, IH.
Qed.

Lemma all_chars_lstrip (p : cls) (s : string) :
  all_chars p s = true -> all_chars p (lstrip s) = true.
Proof.
  induction s as [|c s IH]; simpl; auto.
  intros H. destruct (is_space c); auto.
  apply Bool.andb_true_iff in H as [_ H]. auto.
Qed.

Lemma all_chars_rstrip (p : cls) (s : string) :
  all_chars p s = true -> all_chars p (rstrip s) = true.
Proof.
  induction s as [|c s IH]; simpl; auto.
  intros H. apply Bool.andb_true_iff in H as [Hc Hs].
  specialize (IH Hs).
  destruct (rstrip s) as [|d r].
  - destruct (is_space c); simpl; auto. now rewrite Hc.
  - change (p c && all_chars p (String d r) = true). now rewrite Hc, IH.
Qed.

Lemma all_chars_strip (p : cls) (s : string) :
  all_chars p s = true -> all_chars p (strip s) = true.
Proof.
  intros H. unfold strip. now apply all_chars_rstrip, all_chars_lstrip.
Qed.

Lemma all_chars_lower (s : string) : all_chars lower_fixed (lower s) = true.
Proof.
  induction s as [|c s IH]; simpl; auto.
  rewrite IH. unfold lower_fixed.
  now rewrite lower_char_idempotent, Ascii.eqb_refl.
Qed.

(** What the first substitution leaves is outside the class. *)
Lemma all_chars_replace_chars (p q : cls) (s : string) :
  all_chars q s = true ->
  all_chars (fun c => q c && negb (p c)) (replace_chars p "" s) = true.
Proof.
  induction s as [|c s IH]; simpl; auto.
  intros H. apply Bool.andb_true_iff in H as [Hc Hs].
  destruct (p c) eqn:Ep; simpl; auto.
  now rewrite Hc, Ep, IH.
Qed.

Lemma all_chars_squeeze (p q q' : cls) (repl : string) :
  all_chars q' repl = true ->
  (forall c, q c = true -> p c = false -> q' c = true) ->
  forall s b, all_chars q s = true ->
    all_chars q' (squeeze p repl b s) = true.
Proof.
  intros Hr Hq. induction s as [|c s IH]; intros b H; simpl; auto.
  simpl in H. apply Bool.andb_true_iff in H as [Hc Hs].
  destruct (p c) eqn:Ep.
  - destruct b; auto. rewrite all_chars_app, Hr. simpl. auto.
  - simpl. rewrite (Hq c Hc Ep). simpl. auto.
Qed.

Lemma url_safe_not_space (c : ascii) : url_safe c = true -> is_space c = false.
Proof.
  destruct c as [[] [] [] [] [] [] [] []]; vm_compute; congruence.
Qed.

Lemma url_safe_not_unsafe (c : ascii) : url_safe c = true -> url_unsafe c = false.
Proof.
  unfold url_safe, url_unsafe.
  destruct (is_word c), (is_space c), (is_hyphen c); simpl; congruence.
Qed.

Lemma url_safe_kept (c : ascii) :
  lower_fixed c && negb (url_unsafe c) = true -> is_space c = false ->
  url_safe c && lower_fixed c = true.
Proof.
  unfold url_safe, url_unsafe. intros H Hs. rewrite Hs in H.
  destruct (lower_fixed c), (is_word c), (is_hyphen c); simpl in *; congruence.
Qed.

(** The characters of a search suburb. *)
Lemma normalize_suburb_for_url_chars (suburb : string) :
  all_chars (fun c => url_safe c && lower_fixed c)
            (normalize_suburb_for_url suburb) = true.
Proof.
  unfold normalize_suburb_for_url, re_unsafe, re_spaces, ws.
  rewrite re_sub_chr, re_sub_plus_chr.
  apply all_chars_squeeze
    with (q := fun c => lower_fixed c && negb (url_unsafe c)).
  - reflexivity.
  - intros c. apply url_safe_kept.
  - apply all_chars_replace_chars, all_chars_strip, all_chars_lower.
Qed.

Lemma lower_fixed_all (s : string) :
  all_chars lower_fixed s = true -> lower s = s.
Proof.
  induction s as [|c s IH]; simpl; auto.
  intros H. apply Bool.andb_true_iff in H as [Hc Hs].
  apply Ascii.eqb_eq in Hc. now rewrite Hc, IH.
Qed.

Lemma lstrip_no_space (s : string) :
  any_char is_space s = false -> lstrip s = s.
Proof.
  destruct s as [|c s]; simpl; auto.
  intros H. apply Bool.orb_false_iff in H as [Hc _]. now rewrite Hc.
Qed.

Lemma rstrip_no_space (s : string) :
  any_char is_space s = false -> rstrip s = s.
Proof.
  induction s as [|c s IH]; simpl; auto.
  intros H. apply Bool.orb_false_iff in H as [Hc Hs].
  rewrite (IH Hs), Hc. destruct s; auto.
Qed.

Lemma strip_no_space (s : string) :
  any_char is_space s = false -> strip s = s.
Proof.
  intros H. unfold strip. rewrite lstrip_no_space by auto.
  now apply rstrip_no_space.
Qed.

Lemma any_char_none (p q : cls) (s : string) :
  (forall c, q c = true -> p c = false) ->
  all_chars q s = true -> any_char p s = false.
Proof.
  intros Hq. induction s as [|c s IH]; simpl; auto.
  intros H. apply Bool.andb_true_iff in H as [Hc Hs].
  now rewrite (Hq c Hc), IH.
Qed.

Lemma replace_chars_none (p : cls) (repl s : string) :
  any_char p s = false -> replace_chars p repl s = s.
Proof.
  induction s as [|c s IH]; simpl; auto.
  intros H. apply Bool.orb_false_iff in H as [Hc Hs].
  now rewrite Hc, IH.
Qed.

Lemma squeeze_none (p : cls) (repl s : string) :
  any_char p s = false -> squeeze p repl false s = s.
Proof.
  induction s as [|c s IH]; simpl; auto.
  intros H. apply Bool.orb_false_iff in H as [Hc Hs].
  now rewrite Hc, IH.
Qed.

Lemma normalize_suburb_for_url_safe_chars (suburb : string) :
  all_chars url_safe (normalize_suburb_for_url suburb) = true.
Proof.
  apply all_chars_weaken with (p := fun c => url_safe c && lower_fixed c).
  - intros c H. now apply Bool.andb_true_iff in H as [H _].
  - apply normalize_suburb_for_url_chars.
Qed.

(** X13. The suburb that [search_gp_clinics] writes into the search
    address holds word characters and hyphens only: no white space, no
    slash, question mark, hash or percent sign, whatever the suburb of the
    table is; and it is in lower case. *)
Theorem normalize_suburb_for_url_safe (suburb : string) :
  all_chars url_safe (normalize_suburb_for_url suburb) = true
  /\ any_char is_space (normalize_suburb_for_url suburb) = false
  /\ any_char (fun c => existsb (Ascii.eqb c) (list_ascii_of_string "/?#%&.:"))
              (normalize_suburb_for_url suburb) = false
  /\ lower (normalize_suburb_for_url suburb) = normalize_suburb_for_url suburb.
Proof.
  pose proof (normalize_suburb_for_url_safe_chars suburb) as Hs.
  split; [exact Hs|]. split; [|split].
  - apply any_char_none with (q := url_safe); auto.
    apply url_safe_not_space.
  - apply any_char_none with (q := url_safe); auto.
    intros c. destruct c as [[] [] [] [] [] [] [] []]; vm_compute; congruence.
  - apply lower_fixed_all.
    apply all_chars_weaken with (p := fun c => url_safe c && lower_fixed c).
    + intros c H. now apply Bool.andb_true_iff in H as [_ H].
    + apply normalize_suburb_for_url_chars.
Qed.

(** X14. [normalize_suburb_for_url] is idempotent: a suburb that already
    has the form of the search address is left as it is. *)
Theorem normalize_suburb_for_url_idempotent (suburb : string) :
  normalize_suburb_for_url (normalize_suburb_for_url suburb)
  = normalize_suburb_for_url suburb.
Proof.
  pose proof (normalize_suburb_for_url_chars suburb) as Hc.
  pose proof (normalize_suburb_for_url_safe_chars suburb) as Hs.
  set (u := normalize_suburb_for_url suburb) in *.
  assert (Hl : lower u = u).
  { apply lower_fixed_all.
    apply all_chars_weaken with (p := fun c => url_safe c && lower_fixed c);
      auto.
    intros c H. now apply Bool.andb_true_iff in H as [_ H]. }
  assert (Hsp : any_char is_space u = false).
  { apply any_char_none with (q := url_safe); auto.
    apply url_safe_not_space. }
  assert (Hu : any_char url_unsafe u = false).
  { apply any_char_none with (q := url_safe); auto.
    apply url_safe_not_unsafe. }
  unfold normalize_suburb_for_url at 1. unfold re_unsafe, re_spaces, ws.
  rewrite re_sub_chr, re_sub_plus_chr, Hl, strip_no_space by auto.
  rewrite replace_chars_none by auto.
  now apply squeeze_none.
Qed.

(* ================================================================== *)
(** * The search and the main loop *)

Lemma first_places_In (l : list string) : forall seen x,
  In x (first_places seen l) -> In x l /\ ~ In x seen.
Proof.
  induction l as [|y l IH]; intros seen x; simpl; [tauto|].
  destruct (existsb (String.eqb y) seen) eqn:E.
  - intros H. apply IH in H. tauto.
  - intros [H|H].
    + subst y. split; auto. intros Hin.
      apply existsb_eqb_In in Hin. congruence.
    + apply IH in H. simpl in H. tauto.
Qed.

Lemma first_places_NoDup (l : list string) : forall seen,
  NoDup (first_places seen l).
Proof.
  induction l as [|y l IH]; intros seen; simpl; [constructor|].
  destruct (existsb (String.eqb y) seen); auto.
  constructor; auto.
  intros H. apply first_places_In in H. simpl in H. tauto.
Qed.

Lemma first_places_complete (l : list string) : forall seen x,
  In x l -> ~ In x seen -> In x (first_places seen l).
Proof.
  induction l as [|y l IH]; intros seen x; simpl; [tauto|].
  intros Hin Hseen.
  destruct (existsb (String.eqb y) seen) eqn:E.
  - destruct Hin as [->|Hin]; auto.
    apply existsb_eqb_In in E. tauto.
  - destruct (String.eqb_spec y x) as [->|Hne]; [now left|].
    right. apply IH; [tauto|]. simpl. tauto.
Qed.

Lemma absolute_clinic_href (href : string) :
  is_clinic_href href = true ->
  startswith "http" (absolute href) = true
  /\ is_clinic_href (absolute href) = true.
Proof.
  intros H. unfold absolute.
  destruct (startswith "http" href) eqn:E; auto.
Qed.

Lemma add_link_step (acc : list string) (n : node) (h : string) :
  attr "href" n = Some h ->
  add_link acc n
  = if is_clinic_href h then
      if existsb (String.eqb (absolute h)) acc then acc
      else acc ++ [absolute h]
    else acc.
Proof. intros E. unfold add_link. now rewrite E. Qed.

Lemma fold_add_link (nodes : list node) : forall acc seen,
  (forall u, In u seen <-> In u acc) ->
  fold_left add_link (filter has_href nodes) acc
  = acc ++ first_places seen
             (map absolute
                (filter is_clinic_href
                   (flat_map (fun n => match attr "href" n with
                                       | Some h => [h] | None => [] end)
                             nodes))).
Proof.
  induction nodes as [|n nodes IH]; intros acc seen Hseen.
  - cbn. now rewrite app_nil_r.
  - cbn [filter flat_map]. unfold has_href at 1.
    destruct (attr "href" n) as [h|] eqn:Eh; cbn [app]; [|now apply IH].
    cbn [fold_left filter]. rewrite (add_link_step acc n h Eh).
    destruct (is_clinic_href h) eqn:Ec; [|now apply IH].
    cbn [map first_places].
    rewrite (existsb_eqb_same_members _ _ _ Hseen).
    destruct (existsb (String.eqb (absolute h)) acc) eqn:E.
    + now apply IH.
    + rewrite (IH _ (absolute h :: seen)).
      * now rewrite <- app_assoc.
      * intros u. rewrite in_app_iff. simpl. rewrite Hseen. tauto.
Qed.

Lemma clinic_links_of_eq (sp : soup) :
  clinic_links_of sp
  = first_places [] (map absolute (filter is_clinic_href (hrefs sp))).
Proof.
  unfold clinic_links_of, hrefs.
  rewrite (fold_add_link _ [] []); [reflexivity|].
  intros u. tauto.
Qed.

Lemma clinic_links_of_NoDup (sp : soup) : NoDup (clinic_links_of sp).
Proof. rewrite clinic_links_of_eq. apply first_places_NoDup. Qed.

Lemma clinic_links_of_absolute (sp : soup) :
  Forall (fun u => startswith "http" u = true /\ is_clinic_href u = true)
         (clinic_links_of sp).
Proof.
  apply Forall_forall. intros u Hu.
  rewrite clinic_links_of_eq in Hu.
  apply first_places_In in Hu as [Hu _].
  apply in_map_iff in Hu as (h & <- & Hh).
  apply filter_In in Hh as [_ Hh].
  now apply absolute_clinic_href.
Qed.

(** X15. The clinic pages that one search asks for: the addresses of the
    anchors of the search page that name a clinic page, made absolute, in
    document order and each at its first place only.  So no page is asked
    for twice in one search, every address asked for is absolute and names
    a clinic page, and no anchor that names one is left out. *)
Theorem clinic_links_content (sp : soup) :
  clinic_links_of sp
  = first_places [] (map absolute (filter is_clinic_href (hrefs sp)))
  /\ NoDup (clinic_links_of sp)
  /\ Forall (fun u => startswith "http" u = true /\ is_clinic_href u = true)
            (clinic_links_of sp)
  /\ forall href, In href (hrefs sp) -> is_clinic_href href = true ->
                  In (absolute href) (clinic_links_of sp).
Proof.
  split; [apply clinic_links_of_eq|].
  split; [apply clinic_links_of_NoDup|].
  split; [apply clinic_links_of_absolute|].
  intros href Hin Hc. rewrite clinic_links_of_eq.
  apply first_places_complete; [|tauto].
  apply in_map, filter_In. auto.
Qed.

Section SearchFacts.
Variable R : Type.
Variable get_clinic_details :
  web -> string -> string -> string -> string -> string -> option R.
Variables (net : nat -> web) (clock : nat -> string).
Variables url_of electorate_of : R -> string.

Hypothesis details_ok : forall w now u pc sub el c,
  get_clinic_details w now u pc sub el = Some c ->
  url_of c = u /\ electorate_of c = el.

Lemma fold_visit pc sub el : forall links rs t,
  fold_left (visit R get_clinic_details net clock pc sub el) links
            (Tracker rs t)
  = Tracker (rs ++ found R get_clinic_details net clock pc sub el links t)
            (t + List.length links).
Proof.
  induction links as [|u links IH]; intros rs t; simpl.
  - now rewrite app_nil_r, Nat.add_0_r.
  - unfold visit at 2. simpl.
    destruct (get_clinic_details (net t) (clock t) u pc sub el) as [c|];
      rewrite IH; simpl; rewrite <- ?app_assoc; f_equal; lia.
Qed.

Lemma found_members pc sub el : forall links t,
  Forall (fun c => electorate_of c = el /\ In (url_of c) links)
         (found R get_clinic_details net clock pc sub el links t).
Proof.
  induction links as [|u links IH]; intros t; simpl; [constructor|].
  apply Forall_app. split.
  - destruct (get_clinic_details (net t) (clock t) u pc sub el) as [c|] eqn:E;
      constructor; auto.
    apply details_ok in E as [E1 E2]. subst. auto.
  - eapply Forall_impl; [|apply IH]. simpl. tauto.
Qed.

Lemma found_urls_NoDup pc sub el : forall links t,
  NoDup links ->
  NoDup (map url_of (found R get_clinic_details net clock pc sub el links t)).
Proof.
  induction links as [|u links IH]; intros t Hn; simpl; [constructor|].
  inversion Hn as [|? ? Hu Hl]; subst.
  rewrite map_app.
  destruct (get_clinic_details (net t) (clock t) u pc sub el) as [c|] eqn:E;
    simpl; auto.
  constructor; auto.
  apply details_ok in E as [E _]. rewrite E.
  intros Hin. apply in_map_iff in Hin as (c' & Hc' & Hin).
  pose proof (found_members pc sub el links (S t)) as Hf.
  rewrite Forall_forall in Hf. apply Hf in Hin.
  rewrite Hc' in Hin. tauto.
Qed.

Lemma found_length pc sub el : forall links t,
  List.length (found R get_clinic_details net clock pc sub el links t)
  <= List.length links.
Proof.
  induction links as [|u links IH]; intros t; simpl; auto.
  rewrite length_app. specialize (IH (S t)).
  destruct (get_clinic_details (net t) (clock t) u pc sub el); simpl; lia.
Qed.

Lemma search_gp_clinics_eq self sub pc el :
  search_gp_clinics R get_clinic_details net clock self sub pc el
  = match net (requests self) (search_url sub pc) with
    | None => Tracker (self_results self) (S (requests self))
    | Some sp =>
        Tracker (self_results self
                 ++ found R get_clinic_details net clock pc sub el
                          (clinic_links_of sp) (S (requests self)))
                (S (requests self) + List.length (clinic_links_of sp))
    end.
Proof.
  unfold search_gp_clinics.
  destruct (net (requests self) (search_url sub pc)); auto.
  apply fold_visit.
Qed.

Lemma search_appends_ok :
  search_appends R get_clinic_details net clock url_of electorate_of.
Proof.
  intros self sub pc el. cbv zeta. rewrite search_gp_clinics_eq.
  destruct (net (requests self) (search_url sub pc)) as [sp|] eqn:En.
  - exists (found R get_clinic_details net clock pc sub el
                  (clinic_links_of sp) (S (requests self))).
    pose proof (found_members pc sub el (clinic_links_of sp)
                              (S (requests self))) as Hm.
    pose proof (clinic_links_of_absolute sp) as Ha.
    rewrite Forall_forall in Hm, Ha.
    cbn [self_results requests]. split; [reflexivity|].
    split; [apply Forall_forall; intros c Hc; now apply Hm|].
    split; [apply found_urls_NoDup, clinic_links_of_NoDup|].
    split; [apply Forall_forall; intros c Hc; apply Ha; now apply Hm|].
    split; [|discriminate].
    pose proof (found_length pc sub el (clinic_links_of sp)
                             (S (requests self))).
    lia.
  - exists []. cbn [self_results requests map List.length].
    rewrite app_nil_r.
    repeat split; auto; try constructor. lia.
Qed.

End SearchFacts.

Lemma details_ok_state_and_federal federal w now u pc sub el c :
  StateAndFederal.get_clinic_details federal w now u pc sub el = Some c ->
  url c = u /\ state_electorate c = el.
Proof. intros H. open_builder H sp. simpl. auto. Qed.

Lemma details_ok_better json_loads federal w now u pc sub el c :
  BetterAddresses.get_clinic_details json_loads federal w now u pc sub el
  = Some c ->
  url c = u /\ state_electorate c = el.
Proof. intros H. open_builder H sp. simpl. auto. Qed.

Lemma details_ok_fixed w now u pc sub el c :
  Fixed.get_clinic_details w now u pc sub el = Some c ->
  Fixed.url c = u /\ Fixed.electorate c = el.
Proof. intros H. open_builder H sp. simpl. auto. Qed.

(** X16. What [search_gp_clinics] does to [self.results], in each of the
    three scripts and whatever the network answers: it only appends; the
    records appended carry the electorate of the search, have pairwise
    distinct addresses, each absolute and naming a clinic page; each cost
    one request after the request of the search page; and when the search
    page cannot be had, nothing is appended and no other request is
    made. *)
Theorem search_gp_clinics_appends (net : nat -> web) (clock : nat -> string) :
  (forall federal,
     search_appends clinic (StateAndFederal.get_clinic_details federal)
                    net clock url state_electorate)
  /\ (forall json_loads federal,
        search_appends clinic
                       (BetterAddresses.get_clinic_details json_loads federal)
                       net clock url state_electorate)
  /\ search_appends Fixed.clinic Fixed.get_clinic_details net clock
                    Fixed.url Fixed.electorate.
Proof.
  split; [|split]; intros; apply search_appends_ok.
  - apply details_ok_state_and_federal.
  - apply details_ok_better.
  - apply details_ok_fixed.
Qed.
Lemma first_seen_In (l : list clinic) : forall seen c,
  In c (first_seen seen l) -> In c l.
Proof.
  induction l as [|x l IH]; intros seen c; simpl; [tauto|].
  destruct (existsb (String.eqb (url x)) seen).
  - intros H. apply IH in H. tauto.
  - intros [H|H]; [tauto|]. apply IH in H. tauto.
Qed.

Lemma deduplicate_In (l : list clinic) (c : clinic) :
  In c (deduplicate l) -> In c l.
Proof.
  unfold deduplicate, unique_results.
  rewrite (fold_keep_first_values l [] []) by (intros u; simpl; tauto).
  apply first_seen_In.
Qed.

Lemma deduplicate_nil (l : list clinic) : deduplicate l = [] -> l = [].
Proof.
  unfold deduplicate, unique_results.
  rewrite (fold_keep_first_values l [] []) by (intros u; simpl; tauto).
  destruct l; simpl; [reflexivity|discriminate].
Qed.

Section RunFacts.
Variable get_clinic_details :
  web -> string -> string -> string -> string -> string -> option clinic.
Variables (net : nat -> web) (clock : nat -> string).

Hypothesis details_ok : forall w now u pc sub el c,
  get_clinic_details w now u pc sub el = Some c ->
  url c = u /\ state_electorate c = el.

Lemma search_all_cons e entries self :
  search_all clinic get_clinic_details net clock (e :: entries) self
  = search_all clinic get_clinic_details net clock entries
      (search_gp_clinics clinic get_clinic_details net clock self
         (search_entry_suburb e) (search_entry_postcode e)
         (search_entry_state_electorate e)).
Proof. reflexivity. Qed.

Lemma search_all_new : forall entries self,
  exists new,
    self_results (search_all clinic get_clinic_details net clock entries self)
    = self_results self ++ new
    /\ Forall (fun c => In (state_electorate c)
                           (map search_entry_state_electorate entries)) new.
Proof.
  induction entries as [|e entries IH]; intros self.
  - exists []. simpl. now rewrite app_nil_r.
  - rewrite search_all_cons.
    destruct (search_appends_ok clinic get_clinic_details net clock
                url state_electorate details_ok self
                (search_entry_suburb e) (search_entry_postcode e)
                (search_entry_state_electorate e)) as (new1 & H1 & H2 & _).
    destruct (IH (search_gp_clinics clinic get_clinic_details net clock self
                    (search_entry_suburb e) (search_entry_postcode e)
                    (search_entry_state_electorate e)))
      as (new2 & H3 & H4).
    exists (new1 ++ new2). split.
    + rewrite H3, H1. now rewrite app_assoc.
    + apply Forall_app. split.
      * eapply Forall_impl; [|exact H2]. simpl. intros c ->. now left.
      * eapply Forall_impl; [|exact H4]. simpl. tauto.
Qed.

Lemma run_report (rows : list state_row) :
  report_of_run rows clock
    (Main.run get_clinic_details net clock (snd (load_state_mapping rows))
              (Tracker [] 0)).
Proof.
  unfold report_of_run, Main.run. cbv zeta.
  destruct (search_all_new (snd (load_state_mapping rows)) (Tracker [] 0))
    as (new & Hnew & Hel).
  cbn [self_results app] in Hnew.
  assert (Hrows : map search_entry_state_electorate
                      (snd (load_state_mapping rows)) = map Electorate rows).
  { unfold load_state_mapping. rewrite load_state_mapping_snd_fold.
    cbn [app]. rewrite map_map. reflexivity. }
  rewrite Hrows in Hel.
  set (self := search_all clinic get_clinic_details net clock
                          (snd (load_state_mapping rows)) (Tracker [] 0)) in *.
  rewrite Hnew. rewrite Forall_forall in Hel.
  destruct new as [|c0 new'].
  - cbn [fst snd]. rewrite Hnew. repeat split; constructor.
  - cbv iota beta. remember (c0 :: new') as new eqn:En.
    assert (Hnn : new <> []) by (rewrite En; discriminate). clear En.
    unfold save_results. cbn [fst snd self_results requests].
    assert (Hin : forall c, In c (deduplicate new) ->
                            In (state_electorate c) (map Electorate rows)).
    { intros c Hc. apply Hel. now apply deduplicate_In. }
    assert (Hd : deduplicate (deduplicate new) = deduplicate new)
      by apply deduplicate_distinct, deduplicate_urls_NoDup.
    split; [now apply Forall_forall|].
    split; [apply deduplicate_urls_NoDup|].
    assert (Hne : deduplicate new <> []).
    { intros E. now apply deduplicate_nil in E. }
    split; [exact Hne|].
    split; [now rewrite Hd|].
    split.
    + cbn [by_state_electorate]. rewrite group_by_keys.
      apply Forall_forall. intros e He.
      apply first_places_In in He as [He _].
      apply in_map_iff in He as (c & <- & Hc). auto.
    + cbn [summary Summary.total_clinics].
      destruct (deduplicate new); [congruence|simpl; lia].
Qed.

End RunFacts.

(** X17. A whole run of the scripts with both axes, from the state table
    to the document, whatever the network answers: every record left in
    [self.results] carries the electorate of a row of the table, no two
    records have the same address, and a document is written exactly when
    there is a record.  The document is the report of the records left:
    its state electorates are electorates of the table, and it counts at
    least one clinic. *)
Theorem run_over_state_table (rows : list state_row) (net : nat -> web)
  (clock : nat -> string) :
  (forall federal,
     report_of_run rows clock
       (Main.run (StateAndFederal.get_clinic_details federal) net clock
                 (snd (load_state_mapping rows)) (Tracker [] 0)))
  /\ (forall json_loads federal,
        report_of_run rows clock
          (Main.run (BetterAddresses.get_clinic_details json_loads federal)
                    net clock (snd (load_state_mapping rows)) (Tracker [] 0))).
Proof.
  split; intros; apply run_report.
  - apply details_ok_state_and_federal.
  - apply details_ok_better.
Qed.

(* ================================================================== *)
(** * What the patterns read *)

Lemma string_length_app (a b : string) :
  String.length (a ++ b) = String.length a + String.length b.
Proof. induction a as [|c a IH]; simpl; auto. Qed.

Lemma string_app_assoc (a b c : string) :
  ((a ++ b) ++ c = a ++ (b ++ c))%string.
Proof. induction a as [|x a IH]; simpl; auto. now rewrite IH. Qed.

Lemma string_app_nil_r (a : string) : (a ++ "" = a)%string.
Proof. induction a as [|x a IH]; simpl; auto. now rewrite IH. Qed.

(** The part of a string between two others. *)
Lemma substring_middle (pre w post : string) :
  substring (String.length pre) (String.length w) (pre ++ w ++ post) = w.
Proof.
  induction pre as [|c pre IH]; simpl; auto.
  induction w as [|d w IHw]; simpl.
  - apply substring_0_0.
  - now rewrite IHw.
Qed.

Section RepSound.
Variables (greedy : bool) (lo : nat) (hi : option nat) (r1 : regex)
  (k : mstate -> option mstate).

Hypothesis body_sound : forall st k1 m,
  run r1 st k1 = Some m -> exists st', Steps r1 st st' /\ k1 st' = Some m.

Lemma below_within (n : nat) : below n hi = true -> within (S n) hi.
Proof.
  unfold below, within. destruct hi; auto.
  intros H. apply Nat.ltb_lt in H. lia.
Qed.

Lemma rep_loop_sound : forall fuel n st0 m,
  rep_loop greedy lo hi r1 k fuel n st0 = Some m ->
  within n hi ->
  exists j st', iter (Steps r1) j st0 st' /\ lo <= n + j
                /\ within (n + j) hi /\ k st' = Some m.
Proof.
  induction fuel as [|fuel IH]; intros n st0 m H Hn; [discriminate|].
  rewrite rep_loop_S in H. cbv zeta in H.
  assert (Hagain :
    (if below n hi
     then run r1 st0
            (fun st1 => if pos st0 <? pos st1
                        then rep_loop greedy lo hi r1 k fuel (S n) st1
                        else None)
     else None) = Some m ->
    exists j st', iter (Steps r1) j st0 st' /\ lo <= n + j
                  /\ within (n + j) hi /\ k st' = Some m).
  { destruct (below n hi) eqn:Eb; [|discriminate].
    intros Hr. apply body_sound in Hr as (st1 & Hs & Hk).
    destruct (pos st0 <? pos st1); [|discriminate].
    apply IH in Hk as (j & st' & Hi & Hlo & Hhi & Hk);
      [|now apply below_within].
    exists (S j), st'. replace (n + S j) with (S n + j) by lia.
    repeat split; auto. econstructor; eauto. }
  assert (Hleave :
    (if lo <=? n then k st0 else None) = Some m ->
    exists j st', iter (Steps r1) j st0 st' /\ lo <= n + j
                  /\ within (n + j) hi /\ k st' = Some m).
  { destruct (lo <=? n) eqn:El; [|discriminate].
    intros Hk. apply Nat.leb_le in El.
    exists 0, st0. rewrite Nat.add_0_r.
    repeat split; auto. constructor. }
  destruct greedy.
  - destruct (if below n hi then _ else None) as [m'|] eqn:E.
    + inversion H; subst m'. now apply Hagain.
    + now apply Hleave.
  - destruct (if lo <=? n then k st0 else None) as [m'|] eqn:E.
    + inversion H; subst m'. now apply Hleave.
    + now apply Hagain.
Qed.

End RepSound.

(** The matcher reads only what the pattern allows. *)
Lemma run_sound (r : regex) : forall st k m,
  run r st k = Some m -> exists st', Steps r st st' /\ k st' = Some m.
Proof.
  induction r as [|p|r1 IH1 r2 IH2|r1 IH1 r2 IH2|g lo hi r1 IH|i r1 IH|];
    intros st k m H.
  - exists st. split; [reflexivity|exact H].
  - cbn [run] in H. destruct (rest st) as [|c s'] eqn:Er; [discriminate|].
    destruct (p c) eqn:Ep; [|discriminate].
    eexists. split; [|exact H]. exists c, s'. auto.
  - cbn [run] in H. apply IH1 in H as (st1 & H1 & H).
    apply IH2 in H as (st2 & H2 & H).
    exists st2. split; [|exact H]. exists st1. auto.
  - cbn [run] in H. destruct (run r1 st k) as [m'|] eqn:E.
    + inversion H; subst m'. apply IH1 in E as (st' & H1 & E).
      exists st'. cbn [Steps]. auto.
    + apply IH2 in H as (st' & H2 & H).
      exists st'. cbn [Steps]. auto.
  - rewrite run_Rep in H.
    apply (rep_loop_sound g lo hi r1 k IH) in H as (j & st' & Hi & Hlo & Hhi & Hk).
    + exists st'. split; [|exact Hk]. exists j. auto.
    + unfold within. destruct hi; auto. lia.
  - cbn [run] in H. apply IH in H as (st1 & H1 & H).
    eexists. split; [|exact H]. exists st1. auto.
  - cbn [run] in H.
    destruct (xorb (word_before st) (word_after st)) eqn:E; [|discriminate].
    exists st. cbn [Steps]. auto.
Qed.

(** A search finds its match at a position of the subject. *)
Lemma search_from_sound (r : regex) : forall s i pv m,
  search_from r s i pv = Some m ->
  exists pre s0,
    s = (pre ++ s0)%string /\ m_start m = i + String.length pre
    /\ Steps r (MState s0 (m_start m) (last_char pv pre) []) (m_final m).
Proof.
  induction s as [|c s IH]; intros i pv m H; cbn [search_from] in H.
  - destruct (run r (MState "" i pv []) Some) as [st|] eqn:E; [|discriminate].
    inversion H; subst m. apply run_sound in E as (st' & Hs & E).
    inversion E; subst st'.
    exists ""%string, ""%string. cbn. rewrite Nat.add_0_r. auto.
  - destruct (run r (MState (String c s) i pv []) Some) as [st|] eqn:E.
    + inversion H; subst m. apply run_sound in E as (st' & Hs & E).
      inversion E; subst st'.
      exists ""%string, (String c s). cbn. rewrite Nat.add_0_r. auto.
    + apply IH in H as (pre & s0 & Hpre & Hst & Hs).
      exists (String c pre), s0. cbn. subst s.
      repeat split; auto. lia.
Qed.

Section StepsFacts.

(** What is read stands at the head of what was left to read. *)
Lemma iter_text (step : mstate -> mstate -> Prop) :
  (forall st st', step st st' ->
     exists w, rest st = (w ++ rest st')%string
               /\ pos st' = pos st + String.length w) ->
  forall n st st', iter step n st st' ->
    exists w, rest st = (w ++ rest st')%string
              /\ pos st' = pos st + String.length w.
Proof.
  intros Hstep n st st' H.
  induction H as [st|n st st1 st2 H1 H2 IH].
  - exists ""%string. cbn. auto.
  - apply Hstep in H1 as (w1 & E1 & P1). destruct IH as (w2 & E2 & P2).
    exists (w1 ++ w2)%string. rewrite E1, E2, P2, P1.
    rewrite string_length_app, string_app_assoc. split; auto. lia.
Qed.

Lemma Steps_text (r : regex) : forall st st',
  Steps r st st' ->
  exists w, rest st = (w ++ rest st')%string
            /\ pos st' = pos st + String.length w.
Proof.
  induction r as [|p|r1 IH1 r2 IH2|r1 IH1 r2 IH2|g lo hi r1 IH|i r1 IH|];
    intros st st' H; cbn [Steps] in H.
  - subst st'. exists ""%string. cbn. auto.
  - destruct H as (c & s' & Er & _ & ->).
    exists (String c ""). cbn. rewrite Er. split; auto. lia.
  - destruct H as (st1 & H1 & H2).
    apply IH1 in H1 as (w1 & E1 & P1). apply IH2 in H2 as (w2 & E2 & P2).
    exists (w1 ++ w2)%string. rewrite E1, E2, P2, P1.
    rewrite string_length_app, string_app_assoc. split; auto. lia.
  - destruct H as [H|H]; auto.
  - destruct H as (n & _ & _ & H). now apply (iter_text _ IH) in H.
  - destruct H as (st1 & H1 & ->). apply IH in H1. exact H1.
  - destruct H as [_ ->]. exists ""%string. cbn. auto.
Qed.

Lemma iter_caps (step : mstate -> mstate -> Prop) :
  (forall st st', step st st' -> caps st' = caps st) ->
  forall n st st', iter step n st st' -> caps st' = caps st.
Proof.
  intros Hstep n st st' H.
  induction H as [st|n st st1 st2 H1 H2 IH]; auto.
  rewrite IH. auto.
Qed.

(** Only a group records a span. *)
Lemma Steps_caps (r : regex) : no_groups r = true ->
  forall st st', Steps r st st' -> caps st' = caps st.
Proof.
  induction r as [|p|r1 IH1 r2 IH2|r1 IH1 r2 IH2|g lo hi r1 IH|i r1 IH|];
    intros Hg st st' H; cbn [Steps] in H; cbn [no_groups] in Hg.
  - now subst.
  - destruct H as (c & s' & _ & _ & ->). reflexivity.
  - apply Bool.andb_true_iff in Hg as [G1 G2].
    destruct H as (st1 & H1 & H2).
    rewrite (IH2 G2 _ _ H2). auto.
  - apply Bool.andb_true_iff in Hg as [G1 G2]. destruct H; auto.
  - destruct H as (n & _ & _ & H). apply (iter_caps _ (IH Hg)) in H. exact H.
  - discriminate.
  - now destruct H as [_ ->].
Qed.

End StepsFacts.
Lemma last_char_app (a b : string) : forall pv,
  last_char pv (a ++ b) = last_char (last_char pv a) b.
Proof. induction a as [|c a IH]; intros pv; simpl; auto. Qed.

Lemma last_char_all (p : cls) (w : string) : forall pv,
  all_chars p w = true -> w <> ""%string ->
  exists d, last_char pv w = Some d /\ p d = true.
Proof.
  induction w as [|c w IH]; intros pv Ha Hne; [congruence|].
  simpl in Ha. apply Bool.andb_true_iff in Ha as [Hc Hw].
  destruct w as [|d w].
  - exists c. auto.
  - apply (IH (Some c)) in Hw; [|discriminate]. exact Hw.
Qed.

(** A run of one class reads characters of the class. *)
Lemma iter_chr (p : cls) (n : nat) (st st' : mstate) :
  iter (Steps (Chr p)) n st st' ->
  exists w,
    rest st = (w ++ rest st')%string /\ String.length w = n
    /\ all_chars p w = true /\ pos st' = pos st + n
    /\ caps st' = caps st /\ prev st' = last_char (prev st) w.
Proof.
  intros H. induction H as [st|n st st1 st2 H1 H2 IH].
  - exists ""%string. cbn. rewrite Nat.add_0_r. auto 10.
  - destruct H1 as (c & s' & Er & Hp & ->).
    destruct IH as (w & E & L & A & P & C & V). cbn in E, P, C, V.
    exists (String c w). cbn. rewrite Er, E, Hp, A, L, P, C, V.
    repeat split; auto; lia.
Qed.

Lemma Steps_times_chr (p : cls) (n : nat) (st st' : mstate) :
  Steps (Times n (Chr p)) st st' ->
  exists w,
    rest st = (w ++ rest st')%string /\ String.length w = n
    /\ all_chars p w = true /\ pos st' = pos st + n
    /\ caps st' = caps st /\ prev st' = last_char (prev st) w.
Proof.
  intros (j & Hlo & Hhi & H). cbn in Hhi.
  assert (j = n) by lia. subst j. now apply iter_chr.
Qed.

Lemma Steps_plus_chr (p : cls) (st st' : mstate) :
  Steps (Plus (Chr p)) st st' ->
  exists w,
    rest st = (w ++ rest st')%string /\ w <> ""%string
    /\ all_chars p w = true /\ pos st' = pos st + String.length w
    /\ caps st' = caps st /\ prev st' = last_char (prev st) w.
Proof.
  intros (j & Hlo & Hhi & H). apply iter_chr in H.
  destruct H as (w & E & L & A & P & C & V).
  exists w. rewrite L. repeat split; auto.
  intros ->. simpl in L. lia.
Qed.

Lemma Steps_opt_chr (p : cls) (st st' : mstate) :
  Steps (Opt (Chr p)) st st' ->
  exists w,
    rest st = (w ++ rest st')%string /\ String.length w <= 1
    /\ all_chars p w = true /\ pos st' = pos st + String.length w
    /\ caps st' = caps st /\ prev st' = last_char (prev st) w.
Proof.
  intros (j & Hlo & Hhi & H). cbn in Hhi. apply iter_chr in H.
  destruct H as (w & E & L & A & P & C & V).
  exists w. rewrite L. repeat split; auto.
Qed.

Lemma is_digit_is_word (c : ascii) : is_digit c = true -> is_word c = true.
Proof.
  destruct c as [[] [] [] [] [] [] [] []]; vm_compute; congruence.
Qed.

(** What [\b(\d{4})\b] reads. *)
Lemma Steps_re_postcode (st st' : mstate) :
  Steps re_postcode st st' ->
  exists w,
    rest st = (w ++ rest st')%string /\ String.length w = 4
    /\ all_chars is_digit w = true
    /\ caps st' = (1, (pos st, pos st + 4)) :: caps st
    /\ word_before st = false /\ word_after st' = false.
Proof.
  unfold re_postcode, seqs, d4. cbn [Steps].
  intros (st1 & [Hb ->] & st2 & (st3 & Hd & ->) & [He ->]).
  apply Steps_times_chr in Hd as (w & E & L & A & P & C & V).
  exists w. cbn [rest caps set_cap]. rewrite P, C.
  repeat split; auto.
  - unfold word_after in Hb. rewrite E in Hb.
    destruct w as [|c w]; [discriminate|]. simpl in Hb, A.
    apply Bool.andb_true_iff in A as [Hc _].
    rewrite (is_digit_is_word c Hc) in Hb.
    now destruct (word_before st).
  - unfold word_before, word_after in *. cbn [prev rest set_cap] in *.
    destruct (last_char_all is_digit w (prev st) A) as (d & Hd & Hdd).
    { intros ->. discriminate. }
    rewrite V, Hd, (is_digit_is_word d Hdd) in He.
    now destruct (rest st3) as [|c s]; [|destruct (is_word c)].
Qed.

Lemma lookup_cap_head (i : nat) (span : nat * nat) l :
  lookup_cap i ((i, span) :: l) = Some span.
Proof. simpl. now rewrite Nat.eqb_refl. Qed.

Lemma derive_postcode_from (address search_postcode : string) :
  postcode_from address search_postcode
                (derive_postcode address search_postcode).
Proof.
  unfold derive_postcode, postcode_from, re_search.
  destruct (search_from re_postcode address 0 None) as [m|] eqn:E; auto.
  right.
  apply search_from_sound in E as (pre & s0 & Ha & Hst & Hs).
  apply Steps_re_postcode in Hs as (w & Er & L & A & C & Hb & He).
  cbn [rest pos caps] in *.
  assert (Hg : group address m 1 = w).
  { unfold group. rewrite C, lookup_cap_head, Hst.
    replace (0 + String.length pre + 4 - (0 + String.length pre)) with
      (String.length w) by lia.
    subst address s0. apply substring_middle. }
  rewrite Hg. repeat split; auto.
  exists pre, (rest (m_final m)). subst address s0.
  repeat split.
  - unfold word_before in Hb. cbn [prev] in Hb.
    now destruct (last_char None pre).
  - unfold word_after in He. now destruct (rest (m_final m)).
Qed.
Lemma is_upper_not_space (c : ascii) : is_upper c = true -> is_space c = false.
Proof.
  destruct c as [[] [] [] [] [] [] [] []]; vm_compute; congruence.
Qed.

Lemma strip_from_letter (c : ascii) (t : string) :
  is_space c = false -> strip (String c t) = String c (rstrip t).
Proof.
  intros Hc. unfold strip. cbn [lstrip]. rewrite Hc. cbn [rstrip].
  rewrite Hc. now destruct (rstrip t).
Qed.

Lemma Steps_lit_WA (st st' : mstate) :
  Steps (lit "WA") st st' ->
  rest st = ("WA" ++ rest st')%string /\ caps st' = caps st.
Proof.
  cbn [lit Steps].
  intros (st1 & (c & s & E & Hc & ->) & (d & s2 & E2 & Hd & ->)).
  cbn [rest caps] in *. apply Ascii.eqb_eq in Hc, Hd. subst c d.
  rewrite E, E2. auto.
Qed.

(** What the pattern of the suburb reads. *)
Lemma Steps_re_suburb (st st' : mstate) :
  Steps re_suburb st st' ->
  exists c t post,
    rest st = (String c t ++ post)%string
    /\ is_upper c = true /\ all_chars upper_or_space t = true
    /\ t <> ""%string
    /\ caps st' = (1, (pos st, pos st + S (String.length t))) :: caps st
    /\ wa_and_postcode post.
Proof.
  unfold re_suburb, seqs, ws, d4. cbn [Steps].
  intros (st1 & (st2 & (st3 & (c & s & E & Hc & ->) & Hp) & ->)
          & st4 & Hw1 & st5 & Hwa & st6 & Hw2 & Hd).
  apply Steps_plus_chr in Hp as (t & Et & Nt & At & Pt & Ct & _).
  apply Steps_plus_chr in Hw1 as (sp1 & E1 & N1 & A1 & _ & C1 & _).
  apply Steps_lit_WA in Hwa as (Ewa & Cwa).
  apply Steps_plus_chr in Hw2 as (sp2 & E2 & N2 & A2 & _ & C2 & _).
  apply Steps_times_chr in Hd as (dg & Ed & Ld & Ad & _ & Cd & _).
  cbn [rest pos caps set_cap] in *.
  exists c, t, (rest st2). rewrite E, Et.
  repeat split; auto.
  - rewrite Cd, C2, Cwa, C1, Pt, Ct. do 3 f_equal. lia.
  - exists sp1, sp2, dg, (rest st'). rewrite E1, Ewa, E2, Ed.
    repeat split; auto.
Qed.

Lemma derive_suburb_from (address search_suburb : string) :
  suburb_from address search_suburb (derive_suburb address search_suburb).
Proof.
  unfold derive_suburb, suburb_from, re_search.
  destruct (search_from re_suburb address 0 None) as [m|] eqn:E; auto.
  right.
  apply search_from_sound in E as (pre & s0 & Ha & Hst & Hs).
  apply Steps_re_suburb in Hs as (c & t & post & Er & Hc & At & Nt & C & Hpost).
  cbn [rest pos caps] in *.
  assert (Hg : group address m 1 = String c t).
  { unfold group. rewrite C, lookup_cap_head, Hst.
    replace (0 + String.length pre + S (String.length t)
             - (0 + String.length pre))
      with (String.length (String c t)) by (simpl; lia).
    subst address s0. apply substring_middle. }
  rewrite Hg, strip_from_letter by now apply is_upper_not_space.
  split; [|split].
  - exists c, (rstrip t). repeat split; auto. now apply all_chars_rstrip.
  - rewrite <- strip_from_letter by now apply is_upper_not_space.
    apply strip_idempotent.
  - exists pre, (String c t), post. subst address s0.
    repeat split; auto.
    + apply strip_from_letter. now apply is_upper_not_space.
    + destruct t; [congruence|simpl; lia].
Qed.

(** What the pattern of the telephone number reads. *)
Lemma Steps_phone_digits (st st' : mstate) :
  Steps phone_digits st st' ->
  exists w,
    rest st = (w ++ rest st')%string /\ phone_shape w
    /\ pos st' = pos st + String.length w /\ caps st' = caps st.
Proof.
  unfold phone_digits, seqs, ws, d4. cbn [Steps].
  intros (st1 & Ha & st2 & Hs1 & st3 & Hb & st4 & Hs2 & Hc).
  apply Steps_times_chr in Ha as (a & Ea & La & Aa & Pa & Ca & _).
  apply Steps_opt_chr in Hs1 as (s1 & E1 & L1 & A1 & P1 & C1 & _).
  apply Steps_times_chr in Hb as (b & Eb & Lb & Ab & Pb & Cb & _).
  apply Steps_opt_chr in Hs2 as (s2 & E2 & L2 & A2 & P2 & C2 & _).
  apply Steps_times_chr in Hc as (c & Ec & Lc & Ac & Pc & Cc & _).
  exists (a ++ s1 ++ b ++ s2 ++ c)%string.
  split; [|split; [|split]].
  - rewrite Ea, E1, Eb, E2, Ec. now rewrite !string_app_assoc.
  - exists a, s1, b, s2, c. repeat split; auto.
  - rewrite !string_length_app. lia.
  - congruence.
Qed.

(** The group of a match, for a pattern that reads [w0] and then the
    group [w]. *)
Lemma group_of_match (P : string -> Prop) (r : regex) (text : string)
  (m : rmatch) :
  (forall st st', caps st = [] -> Steps r st st' ->
     exists w0 w,
       rest st = (w0 ++ w ++ rest st')%string /\ P w
       /\ lookup_cap 1 (caps st')
          = Some (pos st + String.length w0,
                  pos st + String.length w0 + String.length w)) ->
  re_search r text = Some m ->
  P (group text m 1)
  /\ exists pre post, text = (pre ++ group text m 1 ++ post)%string.
Proof.
  intros Hr E. unfold re_search in E.
  apply search_from_sound in E as (pre & s0 & Ha & Hst & Hs).
  apply Hr in Hs as (w0 & w & Ew & Pw & Cw); [|reflexivity].
  cbn [rest pos] in *.
  assert (Hgr : group text m 1 = w).
  { unfold group. rewrite Cw, Hst.
    replace (0 + String.length pre + String.length w0 + String.length w
             - (0 + String.length pre + String.length w0))
      with (String.length w) by lia.
    replace (0 + String.length pre + String.length w0)
      with (String.length (pre ++ w0)) by (rewrite string_length_app; lia).
    subst text s0. rewrite <- string_app_assoc.
    apply substring_middle. }
  rewrite Hgr. split; auto.
  exists (pre ++ w0)%string, (rest (m_final m)). subst text s0.
  now rewrite string_app_assoc.
Qed.

Lemma Steps_re_phone (st st' : mstate) :
  Steps re_phone st st' ->
  exists w0 w,
    rest st = (w0 ++ w ++ rest st')%string /\ phone_shape w
    /\ lookup_cap 1 (caps st')
       = Some (pos st + String.length w0,
               pos st + String.length w0 + String.length w).
Proof.
  unfold re_phone. cbn [Steps]. intros (st1 & Hp & ->).
  apply Steps_phone_digits in Hp as (w & Ew & Sw & Pw & Cw).
  exists ""%string, w. cbn [append String.length rest caps set_cap].
  rewrite lookup_cap_head, Pw, Nat.add_0_r. auto.
Qed.

Lemma Steps_re_phone_labelled (st st' : mstate) :
  Steps re_phone_labelled st st' ->
  exists w0 w,
    rest st = (w0 ++ w ++ rest st')%string /\ phone_shape w
    /\ lookup_cap 1 (caps st')
       = Some (pos st + String.length w0,
               pos st + String.length w0 + String.length w).
Proof.
  unfold re_phone_labelled. cbn [Steps].
  intros (st1 & H0 & st2 & Hp & ->).
  apply Steps_text in H0 as (w0 & E0 & P0).
  apply Steps_phone_digits in Hp as (w & Ew & Sw & Pw & Cw).
  exists w0, w. cbn [rest caps set_cap].
  rewrite lookup_cap_head, Pw, P0, E0, Ew. auto.
Qed.
(** Opens the record of a builder at the fields that the address decides. *)
Ltac by_address :=
  cbn [address postcode suburb phone
       Fixed.address Fixed.postcode Fixed.suburb Fixed.phone];
  repeat match goal with
         | |- context [BetterAddresses.extract_address_better ?j ?sp] =>
             destruct (BetterAddresses.extract_address_better j sp)
         | |- context [truthy ?a] => destruct (truthy a)
         end.

(** X18. The postcode of a record, in each of the three scripts: it is
    the postcode of the search, or four digits that stand in the address
    of the record with no word character before or after them.  The
    postcode read back from an address is never a part of a longer number
    or word. *)
Theorem postcode_of_record :
  (forall address search_postcode,
     postcode_from address search_postcode
                   (derive_postcode address search_postcode))
  /\ (forall federal w now u search_postcode search_suburb electorate r,
        StateAndFederal.get_clinic_details
          federal w now u search_postcode search_suburb electorate = Some r ->
        postcode_from (address r) search_postcode (postcode r))
  /\ (forall json_loads federal w now u search_postcode search_suburb
             electorate r,
        BetterAddresses.get_clinic_details
          json_loads federal w now u search_postcode search_suburb electorate
        = Some r ->
        postcode_from (address r) search_postcode (postcode r))
  /\ (forall w now u search_postcode search_suburb electorate r,
        Fixed.get_clinic_details
          w now u search_postcode search_suburb electorate = Some r ->
        postcode_from (Fixed.address r) search_postcode (Fixed.postcode r)).
Proof.
  split; [exact derive_postcode_from|].
  split; [|split]; intros; open_builder H sp; by_address;
    (apply derive_postcode_from || (left; reflexivity)).
Qed.

(** X19. The suburb of a record, in each of the three scripts: it is the
    suburb of the search, or it begins with a capital, holds capitals and
    white space only, has no white space at either end, and is the
    stripped text that stands in the address of the record before white
    space, [WA], white space and four digits. *)
Theorem suburb_of_record :
  (forall address search_suburb,
     suburb_from address search_suburb (derive_suburb address search_suburb))
  /\ (forall federal w now u search_postcode search_suburb electorate r,
        StateAndFederal.get_clinic_details
          federal w now u search_postcode search_suburb electorate = Some r ->
        suburb_from (address r) search_suburb (suburb r))
  /\ (forall json_loads federal w now u search_postcode search_suburb
             electorate r,
        BetterAddresses.get_clinic_details
          json_loads federal w now u search_postcode search_suburb electorate
        = Some r ->
        suburb_from (address r) search_suburb (suburb r))
  /\ (forall w now u search_postcode search_suburb electorate r,
        Fixed.get_clinic_details
          w now u search_postcode search_suburb electorate = Some r ->
        suburb_from (Fixed.address r) search_suburb (Fixed.suburb r)).
Proof.
  split; [exact derive_suburb_from|].
  split; [|split]; intros; open_builder H sp; by_address;
    (apply derive_suburb_from || (left; reflexivity)).
Qed.

(** X20. The telephone number that the state-only and the improved-address
    script read from the text of a page without a [tel:] anchor: it is
    "N/A", or it stands in the text of the page and is made of two, four
    and four digits with at most one white space character at each of the
    two joints, so it holds ten digits and is ten to twelve characters
    long. *)
Theorem phone_from_page_text :
  (forall json_loads federal (w : web) now u search_postcode search_suburb
          electorate sp r,
     w u = Some sp ->
     find_a_href re_tel sp = None ->
     BetterAddresses.get_clinic_details
       json_loads federal w now u search_postcode search_suburb electorate
     = Some r ->
     phone_from (soup_text sp) (phone r))
  /\ (forall (w : web) now u search_postcode search_suburb electorate sp r,
        w u = Some sp ->
        find_a_href re_tel sp = None ->
        Fixed.get_clinic_details
          w now u search_postcode search_suburb electorate = Some r ->
        phone_from (soup_text sp) (Fixed.phone r))
  /\ (forall phone, phone_shape phone ->
        10 <= String.length phone <= 12).
Proof.
  split; [|split].
  - intros json_loads federal w now u pc sub el sp r Hw Hf H.
    open_builder H sp'. assert (sp' = sp) by congruence. subst sp'.
    cbn [phone]. rewrite Hf. unfold phone_from.
    destruct (re_search re_phone_labelled (soup_text sp)) as [m|] eqn:E; auto.
    right.
    apply (group_of_match phone_shape re_phone_labelled _ _
             (fun st st' _ => Steps_re_phone_labelled st st') E).
  - intros w now u pc sub el sp r Hw Hf H.
    open_builder H sp'. assert (sp' = sp) by congruence. subst sp'.
    cbn [Fixed.phone]. rewrite Hf. unfold phone_from.
    destruct (re_search re_phone (soup_text sp)) as [m|] eqn:E; auto.
    right.
    apply (group_of_match phone_shape re_phone _ _
             (fun st st' _ => Steps_re_phone st st') E).
  - intros phone (a & s1 & b & s2 & c & -> & La & _ & L1 & _ & Lb & _
                  & L2 & _ & Lc & _).
    rewrite !string_length_app. lia.
Qed.
Lemma run_re_postcode (pv : option ascii) (s : string) (i : nat) :
  match run re_postcode (MState s i pv []) Some with
  | Some st =>
      exists w, postcode_at pv s = Some w /\ s = (w ++ rest st)%string
                /\ String.length w = 4
                /\ caps st = [(1, (i, i + 4))]
  | None => postcode_at pv s = None
  end.
Proof.
  unfold re_postcode, seqs, d4, Times, postcode_at.
  destruct s as [|a [|b [|c [|d s']]]];
    cbn -[is_word is_digit Nat.add];
    unfold word_before, word_after, set_cap; cbn [prev rest pos caps];
    rewrite ?Nat.leb_refl;
    try (repeat match goal with
                | |- context [if ?b then _ else _] => destruct b
                end; reflexivity).
  destruct pv as [p|]; [destruct (is_word p)|];
    (destruct (is_digit a) eqn:Da;
     [rewrite (is_digit_is_word a Da)|destruct (is_word a)]);
    cbn [xorb negb andb]; try reflexivity;
    (destruct (is_digit b) eqn:Db; [|reflexivity]);
    (destruct (is_digit c) eqn:Dc; [|reflexivity]);
    (destruct (is_digit d) eqn:Dd; [|reflexivity]);
    rewrite (is_digit_is_word d Dd);
    (destruct s' as [|e s'']; [|destruct (is_word e)]);
    cbn [xorb negb andb]; try reflexivity;
    (eexists; split; [reflexivity|]; cbn [rest caps set_cap pos];
     repeat split; do 3 f_equal; lia).
Qed.

(** A search for the postcode finds the first four digits that stand
    alone. *)
Lemma search_from_postcode : forall s pre pv,
  match search_from re_postcode s (String.length pre) pv with
  | Some m => first_postcode pv s = Some (group (pre ++ s) m 1)
  | None => first_postcode pv s = None
  end.
Proof.
  induction s as [|c s IH]; intros pre pv; cbn [search_from first_postcode].
  - pose proof (run_re_postcode pv ""%string (String.length pre)) as H0.
    destruct (run re_postcode (MState "" (String.length pre) pv []) Some)
      as [st|].
    + destruct H0 as (w & E & _). discriminate.
    + now rewrite H0.
  - pose proof (run_re_postcode pv (String c s) (String.length pre)) as H1.
    destruct (run re_postcode (MState (String c s) (String.length pre) pv [])
                  Some) as [st|].
    + destruct H1 as (w & E & Es & L & C). rewrite E. f_equal.
      unfold group. cbn [m_final]. rewrite C, lookup_cap_head.
      replace (String.length pre + 4 - String.length pre)
        with (String.length w) by lia.
      rewrite Es. symmetry. apply substring_middle.
    + rewrite H1.
      specialize (IH (pre ++ String c "")%string (Some c)).
      rewrite string_length_app in IH. cbn [String.length] in IH.
      replace (String.length pre + 1) with (S (String.length pre)) in IH
        by lia.
      rewrite string_app_assoc in IH. exact IH.
Qed.

(** X21. The postcode read back from an address is exactly the first run
    of four digits that stands alone in it, from the left, and the
    postcode of the search when there is none.  So a street or unit
    number of four digits that comes before the postcode is taken for the
    postcode. *)
Theorem derive_postcode_first (address search_postcode : string) :
  derive_postcode address search_postcode
  = match first_postcode None address with
    | Some w => w
    | None => search_postcode
    end.
Proof.
  unfold derive_postcode, re_search.
  pose proof (search_from_postcode address ""%string None) as H.
  cbn [String.length append] in H.
  destruct (search_from re_postcode address 0 None) as [m|];
    now rewrite H.
Qed.

Example derive_postcode_street_number :
  derive_postcode "1234 Albany Hwy, CANNINGTON WA 6107" "6000" = "1234"%string
  /\ derive_postcode "Unit 12345, CANNINGTON WA 6107" "6000" = "6107"%string
  /\ derive_postcode "CANNINGTON WA" "6000" = "6000"%string.
Proof. repeat split; vm_compute; reflexivity. Qed.

(* ================================================================== *)
(** * An address is never empty *)

Lemma any_char_app (p : cls) (a b : string) :
  any_char p (a ++ b) = any_char p a || any_char p b.
Proof.
  induction a as [|c a IH]; simpl; auto.
  now rewrite IH, Bool.orb_assoc.
Qed.

Lemma split_from_nonempty : forall s cur,
  cur <> None \/ any_char (fun c => negb (is_space c)) s = true ->
  split_from cur s <> [].
Proof.
  induction s as [|c s IH]; intros cur H; simpl.
  - destruct cur; [discriminate|]. destruct H; [congruence|discriminate].
  - destruct (is_space c) eqn:Ec.
    + destruct cur; [discriminate|].
      apply IH. destruct H as [H|H]; [congruence|]. simpl in H.
      rewrite Ec in H. auto.
    + destruct cur; apply IH; left; discriminate.
Qed.

Lemma split_from_words : forall s cur,
  (forall w, cur = Some w -> w <> ""%string) ->
  Forall (fun w => w <> ""%string) (split_from cur s).
Proof.
  induction s as [|c s IH]; intros cur Hcur; simpl.
  - destruct cur; constructor; auto.
  - destruct (is_space c).
    + destruct cur; [constructor; auto|]; apply IH; discriminate.
    + destruct cur as [w|]; apply IH; intros w' E; inversion E; subst.
      * destruct w; discriminate.
      * discriminate.
Qed.

Lemma join_nonempty (sep : string) (parts : list string) :
  parts <> [] -> Forall (fun w => w <> ""%string) parts ->
  join sep parts <> ""%string.
Proof.
  destruct parts as [|w rest0]; [congruence|].
  intros _ H. inversion H as [|? ? Hw _]; subst.
  destruct w as [|c w]; [congruence|].
  destruct rest0; simpl; discriminate.
Qed.

(** Collapsing the white space of a text that is not blank leaves
    something. *)
Lemma collapse_whitespace_nonempty (s : string) :
  any_char (fun c => negb (is_space c)) s = true ->
  collapse_whitespace s <> ""%string.
Proof.
  intros H. unfold collapse_whitespace, split. apply join_nonempty.
  - apply split_from_nonempty. auto.
  - apply split_from_words. discriminate.
Qed.

Lemma lstrip_head (s : string) :
  match lstrip s with
  | String c _ => is_space c = false
  | EmptyString => True
  end.
Proof.
  induction s as [|c s IH]; simpl; auto.
  destruct (is_space c) eqn:E; auto.
Qed.

Lemma rstrip_head (c : ascii) (t : string) :
  is_space c = false -> exists t', rstrip (String c t) = String c t'.
Proof.
  intros Hc. cbn [rstrip]. rewrite Hc. destruct (rstrip t); eauto.
Qed.

Lemma strip_head (s : string) :
  match strip s with
  | String c _ => is_space c = false
  | EmptyString => True
  end.
Proof.
  unfold strip. pose proof (lstrip_head s) as H.
  destruct (lstrip s) as [|c t]; simpl; auto.
  destruct (rstrip_head c t H) as (t' & E).
  change (match rstrip (String c t) with
          | String c0 _ => is_space c0 = false
          | EmptyString => True
          end).
  now rewrite E.
Qed.

Lemma rstrip_nonempty (s : string) :
  any_char (fun c => negb (is_space c)) s = true -> rstrip s <> ""%string.
Proof.
  induction s as [|c s IH]; simpl; [discriminate|].
  intros H. destruct (rstrip s) eqn:E; [|discriminate].
  destruct (is_space c) eqn:Ec; [|discriminate].
  simpl in H. now apply IH in H.
Qed.

Lemma lstrip_any (s : string) :
  any_char (fun c => negb (is_space c)) (lstrip s)
  = any_char (fun c => negb (is_space c)) s.
Proof.
  induction s as [|c s IH]; simpl; auto.
  destruct (is_space c) eqn:E; simpl; auto. now rewrite E.
Qed.

(** Stripping a text that is not blank leaves something. *)
Lemma strip_nonempty (s : string) :
  any_char (fun c => negb (is_space c)) s = true -> strip s <> ""%string.
Proof.
  intros H. unfold strip. apply rstrip_nonempty. now rewrite lstrip_any.
Qed.

Lemma digits_not_blank (w : string) :
  all_chars is_digit w = true -> w <> ""%string ->
  any_char (fun c => negb (is_space c)) w = true.
Proof.
  destruct w as [|c w]; [congruence|]. simpl. intros H _.
  apply Bool.andb_true_iff in H as [Hc _].
  replace (is_space c) with false; auto.
  revert Hc. destruct c as [[] [] [] [] [] [] [] []]; vm_compute; congruence.
Qed.

(** A text in which the street pattern is found is not blank. *)
Lemma street_not_blank (text : string) :
  matches re_street text = true ->
  any_char (fun c => negb (is_space c)) text = true.
Proof.
  unfold matches, re_search.
  destruct (search_from re_street text 0 None) as [m|] eqn:E; [|discriminate].
  intros _.
  apply search_from_sound in E as (pre & s0 & Ha & _ & Hs).
  unfold re_street in Hs. cbn [seqs] in Hs.
  destruct Hs as (st1 & H1 & _).
  apply Steps_plus_chr in H1 as (w & Ew & Nw & Aw & _).
  cbn [rest] in Ew. subst text s0.
  rewrite !any_char_app, (digits_not_blank w Aw Nw).
  now rewrite Bool.orb_true_r.
Qed.

Lemma Steps_re_address_near_link (st st' : mstate) :
  Steps re_address_near_link st st' ->
  exists w0 w,
    rest st = (w0 ++ w ++ rest st')%string
    /\ any_char (fun c => negb (is_space c)) w = true
    /\ lookup_cap 1 (caps st')
       = Some (pos st + String.length w0,
               pos st + String.length w0 + String.length w).
Proof.
  unfold re_address_near_link. cbn [seqs].
  intros (st1 & H0 & st2 & (st3 & H1 & st4 & H2 & st5 & H3 & H4) & ->).
  apply Steps_text in H0 as (w0 & E0 & P0).
  apply Steps_text in H1 as (w1 & E1 & P1).
  apply Steps_text in H2 as (w2 & E2 & P2).
  apply Steps_text in H3 as (w3 & E3 & P3).
  unfold d4 in H4.
  apply Steps_times_chr in H4 as (dg & E4 & L4 & A4 & P4 & _).
  exists w0, (w1 ++ w2 ++ w3 ++ dg)%string.
  cbn [rest caps set_cap]. rewrite lookup_cap_head.
  split; [|split].
  - rewrite E0, E1, E2, E3, E4. now rewrite !string_app_assoc.
  - rewrite !any_char_app, (digits_not_blank dg A4).
    + now rewrite !Bool.orb_true_r.
    + intros ->. discriminate.
  - rewrite !string_length_app. do 2 f_equal; lia.
Qed.

Module BetterAddressesFacts.
Import BetterAddresses.

Lemma method2_scan_nonempty (elems : list node) :
  method2_scan elems <> Some ""%string.
Proof.
  induction elems as [|e elems IH]; simpl; [discriminate|].
  destruct (matches re_street (get_text_strip e)) eqn:E; auto.
  apply street_not_blank, collapse_whitespace_nonempty in E. congruence.
Qed.

Lemma method3_nonempty (sp : soup) : method3 sp <> Some ""%string.
Proof.
  unfold method3.
  destruct (find_a_string re_directions sp) as [[l anc]|]; [|discriminate].
  destruct (find_parent _ anc) as [parent|]; [|discriminate].
  destruct (re_search re_address_near_link (get_text_strip parent))
    as [m|] eqn:E; [|discriminate].
  apply (group_of_match (fun w => any_char (fun c => negb (is_space c)) w = true)
           _ _ _ (fun st st' _ => Steps_re_address_near_link st st')) in E.
  destruct E as [E _]. apply strip_nonempty in E. congruence.
Qed.

Lemma method4_scan_nonempty json_loads (scripts : list node) :
  method4_scan json_loads scripts <> Some ""%string.
Proof.
  induction scripts as [|s scripts IH]; simpl; [discriminate|].
  destruct (method4_script json_loads s) as [a|] eqn:E; auto.
  unfold method4_script in E.
  destruct (node_string s); [|discriminate].
  destruct (json_loads s0) as [[]|]; try discriminate.
  destruct (json_member "address" _) as [[]|]; try discriminate.
  destruct (_ && _); [|discriminate].
  inversion E as [Ea]. intros Hc. inversion Hc as [Hc'].
  revert Hc'. apply strip_nonempty.
  rewrite !any_char_app. simpl. now rewrite Bool.orb_true_r.
Qed.

Lemma method5_scan_nonempty (found : list string) :
  method5_scan found <> Some ""%string.
Proof.
  induction found as [|m found IH]; simpl; [discriminate|].
  destruct (_ && _) eqn:E; auto.
  apply Bool.andb_true_iff in E as [E _]. apply Nat.ltb_lt in E.
  pose proof (strip_head m) as Hh.
  destruct (strip m) as [|c t]; [simpl in E; lia|].
  intros Hc. inversion Hc as [Hc'].
  revert Hc'. apply collapse_whitespace_nonempty.
  simpl. now rewrite Hh.
Qed.

Lemma extract_address_better_nonempty json_loads (sp : soup) :
  extract_address_better json_loads sp <> Some ""%string.
Proof.
  unfold extract_address_better.
  destruct (method1 sp) as [a|] eqn:E1.
  { unfold method1 in E1. destruct (find "address" sp); [|discriminate].
    destruct (_ && _) eqn:E; [|discriminate].
    apply Bool.andb_true_iff in E as [E _]. apply Nat.ltb_lt in E.
    inversion E1; subst. intros Hc. inversion Hc as [Hc'].
    rewrite Hc' in E. simpl in E. lia. }
  destruct (method2 sp) as [a|] eqn:E2.
  { rewrite <- E2. apply method2_scan_nonempty. }
  destruct (method3 sp) as [a|] eqn:E3.
  { rewrite <- E3. apply method3_nonempty. }
  destruct (method4 json_loads sp) as [a|] eqn:E4.
  { rewrite <- E4. apply method4_scan_nonempty. }
  apply method5_scan_nonempty.
Qed.

End BetterAddressesFacts.
Lemma truthy_nonempty (s : string) : truthy s = true <-> s <> ""%string.
Proof. destruct s; simpl; split; congruence. Qed.

Lemma placeholder_address_nonempty (search_suburb search_postcode : string) :
  BetterAddresses.placeholder_address search_suburb search_postcode
  <> ""%string.
Proof.
  unfold BetterAddresses.placeholder_address.
  destruct search_suburb; discriminate.
Qed.

(** X22. An address is never empty.  None of the five methods of
    [extract_address_better] returns the empty string, so in the
    improved-address script an address that a method returns is the
    address of the record, and the placeholder stands there exactly when
    every method fails; and the address of a record is not empty in any of
    the three scripts. *)
Theorem address_never_empty :
  (forall json_loads sp,
     BetterAddresses.extract_address_better json_loads sp <> Some ""%string)
  /\ (forall json_loads federal (w : web) now u search_postcode search_suburb
             electorate sp r,
        w u = Some sp ->
        BetterAddresses.get_clinic_details
          json_loads federal w now u search_postcode search_suburb electorate
        = Some r ->
        address r <> ""%string
        /\ address r
           = match BetterAddresses.extract_address_better json_loads sp with
             | Some a => a
             | None =>
                 BetterAddresses.placeholder_address search_suburb
                                                     search_postcode
             end)
  /\ (forall federal w now u search_postcode search_suburb electorate r,
        StateAndFederal.get_clinic_details
          federal w now u search_postcode search_suburb electorate = Some r ->
        address r <> ""%string)
  /\ (forall w now u search_postcode search_suburb electorate r,
        Fixed.get_clinic_details
          w now u search_postcode search_suburb electorate = Some r ->
        Fixed.address r <> ""%string).
Proof.
  split; [exact BetterAddressesFacts.extract_address_better_nonempty|].
  split; [|split].
  - intros json_loads federal w now u pc sub el sp r Hw H.
    open_builder H sp'. assert (sp' = sp) by congruence. subst sp'.
    cbn [address].
    pose proof (BetterAddressesFacts.extract_address_better_nonempty
                  json_loads sp) as Hne.
    destruct (BetterAddresses.extract_address_better json_loads sp) as [a|].
    + destruct a as [|c a]; [congruence|]. cbn [truthy].
      split; [discriminate|reflexivity].
    + split; [apply placeholder_address_nonempty|reflexivity].
  - intros federal w now u pc sub el r H.
    open_builder H sp. cbn [address].
    destruct (truthy _) eqn:E; [|discriminate].
    now apply truthy_nonempty.
  - intros w now u pc sub el r H.
    open_builder H sp. cbn [Fixed.address].
    destruct (truthy _) eqn:E; [|discriminate].
    now apply truthy_nonempty.
Qed.

(* ================================================================== *)
(** * C1: the electorates of a record *)

Lemma derive_read_back (address_text search_suburb search_postcode : string) :
  read_back address_text search_suburb search_postcode
            (derive_suburb address_text search_suburb)
            (derive_postcode address_text search_postcode).
Proof.
  split; [|split].
  - unfold derive_postcode, re_search.
    pose proof (search_from_postcode address_text ""%string None) as H.
    cbn [String.length append] in H.
    destruct (search_from re_postcode address_text 0 None) as [m|];
      now rewrite H.
  - reflexivity.
  - apply derive_suburb_from.
Qed.

(** C1, as the code has it.  When a builder has found an address, it is
    the address of the record, and the suburb and the postcode of the
    record are read back from it: the postcode is the first run of four
    digits that stands alone in the address, and the postcode of the search
    when there is none; the suburb is the stripped capitals and white space
    before [WA] and four digits where that pattern is found, and the suburb
    of the search where it is not.  Without an address both are those of
    the search.  The federal electorate is [get_federal_electorate] of the
    postcode and the suburb of the record so obtained; the state electorate
    is the electorate the search was made for, handed through unchanged, in
    the three scripts alike. *)
Theorem electorates_of_record :
  (forall federal (w : web) now u search_postcode search_suburb electorate sp r,
     w u = Some sp ->
     StateAndFederal.get_clinic_details
       federal w now u search_postcode search_suburb electorate = Some r ->
     let address_text :=
       match find "address" sp with
       | Some address_elem => get_text_strip address_elem
       | None => ""
       end in
     (if truthy address_text
      then address r = address_text
           /\ read_back address_text search_suburb search_postcode
                        (suburb r) (postcode r)
      else suburb r = search_suburb /\ postcode r = search_postcode)
     /\ federal_electorate r
        = get_federal_electorate federal (postcode r) (suburb r)
     /\ state_electorate r = electorate)
  /\ (forall json_loads federal (w : web) now u search_postcode search_suburb
             electorate sp r,
        w u = Some sp ->
        BetterAddresses.get_clinic_details
          json_loads federal w now u search_postcode search_suburb electorate
        = Some r ->
        match BetterAddresses.extract_address_better json_loads sp with
        | Some address_text =>
            address r = address_text
            /\ read_back address_text search_suburb search_postcode
                         (suburb r) (postcode r)
        | None => suburb r = search_suburb /\ postcode r = search_postcode
        end
        /\ federal_electorate r
           = get_federal_electorate federal (postcode r) (suburb r)
        /\ state_electorate r = electorate)
  /\ (forall (w : web) now u search_postcode search_suburb electorate sp r,
        w u = Some sp ->
        Fixed.get_clinic_details
          w now u search_postcode search_suburb electorate = Some r ->
        let address_text :=
          match find "address" sp with
          | Some address_elem => get_text_strip address_elem
          | None => Fixed.address_scan (find_all ["p"; "div"] sp)
          end in
        (if truthy address_text
         then Fixed.address r = address_text
              /\ read_back address_text search_suburb search_postcode
                           (Fixed.suburb r) (Fixed.postcode r)
         else Fixed.suburb r = search_suburb
              /\ Fixed.postcode r = search_postcode)
        /\ Fixed.electorate r = electorate).
Proof.
  split; [|split].
  - intros federal w now u pc sub el sp r Hw Hb.
    open_builder Hb sp'. assert (sp' = sp) by congruence. subst sp'.
    cbv zeta. cbn [address suburb postcode federal_electorate state_electorate].
    split; [|split; reflexivity].
    destruct (truthy _); [|split; reflexivity].
    split; [reflexivity|apply derive_read_back].
  - intros json_loads federal w now u pc sub el sp r Hw Hb.
    open_builder Hb sp'. assert (sp' = sp) by congruence. subst sp'.
    cbn [address suburb postcode federal_electorate state_electorate].
    split; [|split; reflexivity].
    pose proof (BetterAddressesFacts.extract_address_better_nonempty
                  json_loads sp) as Hne.
    destruct (BetterAddresses.extract_address_better json_loads sp) as [a|];
      [|split; reflexivity].
    destruct a as [|c a]; [congruence|]. cbn [truthy].
    split; [reflexivity|apply derive_read_back].
  - intros w now u pc sub el sp r Hw Hb.
    open_builder Hb sp'. assert (sp' = sp) by congruence. subst sp'.
    cbv zeta.
    cbn [Fixed.address Fixed.suburb Fixed.postcode Fixed.electorate].
    split; [|reflexivity].
    destruct (truthy _); [|split; reflexivity].
    split; [reflexivity|apply derive_read_back].
Qed.

(** C1 fails as stated for the state axis: the page found under the search
    for Perth 6000 (electorate Perth) gives the address of a clinic in
    SUBIACO 6008, which the state table puts in Nedlands, and the record
    keeps the state electorate Perth. *)
Lemma state_electorate_not_resolved :
  let mapping := fst (load_state_mapping sample_state_rows) in
  get_state_electorate mapping "6000" "Perth" = Some "Perth"
  /\ exists r,
       StateAndFederal.get_clinic_details
         (load_federal_mapping sample_federal_rows) (only_page subiaco_page)
         sample_now sample_url "6000" "Perth" "Perth" = Some r
       /\ suburb r = "SUBIACO"
       /\ postcode r = "6008"
       /\ get_state_electorate mapping (postcode r) (suburb r) = Some "Nedlands"
       /\ state_electorate r = "Perth"
       /\ Some (state_electorate r)
          <> get_state_electorate mapping (postcode r) (suburb r).
Proof.
  cbv zeta. split; [vm_compute; reflexivity|].
  eexists. split; [lazy; reflexivity|].
  split; [reflexivity|]. split; [reflexivity|].
  split; [vm_compute; reflexivity|]. split; [reflexivity|].
  vm_compute. discriminate.
Qed.

(** C1 on [subiaco_page]: the suburb and the postcode come from the
    address, the federal electorate follows them, the state electorate is
    the one searched for.  And on [main_street_page], found under the
    search for East Perth 6004: the postcode comes from the address, the
    suburb of the address is not in capitals and the suburb of the search
    stays, and the federal electorate is looked up with the two. *)
Lemma electorates_of_record_witness :
  (exists r,
     StateAndFederal.get_clinic_details
       (load_federal_mapping sample_federal_rows) (only_page subiaco_page)
       sample_now sample_url "6000" "Perth" "Perth" = Some r
     /\ suburb r = "SUBIACO" /\ postcode r = "6008"
     /\ federal_electorate r
        = get_federal_electorate (load_federal_mapping sample_federal_rows)
            (postcode r) (suburb r)
     /\ federal_electorate r = "Curtin"
     /\ state_electorate r = "Perth")
  /\ (exists r,
        StateAndFederal.get_clinic_details
          (load_federal_mapping sample_federal_rows)
          (only_page main_street_page)
          sample_now sample_url "6004" "East Perth" "Perth" = Some r
        /\ address r = "12 Main Street, Perth WA 6000"
        /\ suburb r = "East Perth" /\ postcode r = "6000"
        /\ federal_electorate r
           = get_federal_electorate (load_federal_mapping sample_federal_rows)
               "6000" "East Perth"
        /\ federal_electorate r = "Unknown"
        /\ state_electorate r = "Perth").
Proof.
  split.
  - destruct (StateAndFederal.get_clinic_details
                (load_federal_mapping sample_federal_rows)
                (only_page subiaco_page)
                sample_now sample_url "6000" "Perth" "Perth") as [r|] eqn:E;
      [|vm_compute in E; discriminate E].
    exists r. split; [reflexivity|].
    destruct (proj1 electorates_of_record
                (load_federal_mapping sample_federal_rows)
                (only_page subiaco_page)
                sample_now sample_url "6000" "Perth" "Perth" subiaco_page r
                eq_refl E) as (Hr & Hf & He).
    vm_compute in E. injection E as <-.
    repeat split.
  - destruct (StateAndFederal.get_clinic_details
                (load_federal_mapping sample_federal_rows)
                (only_page main_street_page)
                sample_now sample_url "6004" "East Perth" "Perth")
      as [r|] eqn:E; [|vm_compute in E; discriminate E].
    exists r. split; [reflexivity|].
    destruct (proj1 electorates_of_record
                (load_federal_mapping sample_federal_rows)
                (only_page main_street_page)
                sample_now sample_url "6004" "East Perth" "Perth"
                main_street_page r eq_refl E) as (Hr & Hf & He).
    vm_compute in E. injection E as <-.
    repeat split.
Defined.
